(** * packify: the tagged, length-prefixed serialization codec

    A shallow embedding of [packify/serialization.py] ([pack] and
    [unpack]) together with the parts of the Python runtime the two
    functions rely on: [struct] with network byte order, the UTF-8 codec,
    [bytes.hex]/[bytes.fromhex], [sorted] on byte strings, and the
    equality used by [set] and [dict].

    How Python is modelled:
    - an exception is an [Err] result and propagates through [<- ;;];
    - a value is a term of [value]; there is no object identity, so two
      values are compared by [py_eq], the model of [==], only;
    - a [set] is the list of its elements in iteration order, a [dict] the
      list of its entries in insertion order;
    - a [float] is the eight bytes of its binary64 image, a [Decimal] its
      sign, coefficient and exponent; [str(d)] and [Decimal(s)] are an
      interface ([DecimalText]), with one instance for the examples;
    - the instances of extension classes are the elements of a type [Obj]
      with the interface [Packable]; a registry is a finite map from class
      names to entries that may have an [unpack];
    - [unpack] recurses on frames cut out of its input: it is defined with
      fuel, one unit per byte, which is shown never to run out.

    The two extension classes of tests/test_serialization.py, [StrWrapper]
    and [PackableMapEntry], are embedded as well, with their [pack] and
    [unpack]: they are what the codec is run with. *)

From Stdlib Require Import NArith ZArith Lia List Permutation.
From Stdlib Require Import Strings.Byte.
From stdpp Require Import base option list sorting gmap strings.

Local Open Scope N_scope.

(** ** Byte strings and text *)

(** A Python [bytes] object. *)
Abbreviation bytes := (list byte).

(** A Python [str]: its sequence of Unicode code points. *)
Abbreviation pystr := (list N).

#[global] Instance byte_eq_dec : EqDecision byte := Byte.byte_eq_dec.

(** [len(b)] as a Python integer. *)
Definition len {A} (l : list A) : N := N.of_nat (length l).

Definition byte_of_N (n : N) : byte :=
  match Byte.of_N (n mod 256) with
  | Some b => b
  | None => x00
  end.

(** An ASCII byte string as a [str], and a [str] literal. *)
Definition text (b : bytes) : pystr := map Byte.to_N b.
Definition lit (s : string) : pystr := text (String.list_byte_of_string s).

(** ** Exceptions and results *)

Inductive exn : Type :=
| StructError                  (* struct.error *)
| UsageError (msg : pystr)     (* raised by tressa *)
| UnicodeEncodeError
| UnicodeDecodeError
| ValueError                   (* bytes.fromhex on a malformed string *)
| TypeError
| IndexError
| KeyError
| InvalidOperation             (* decimal.InvalidOperation *)
| Raised (what : pystr)        (* raised inside an extension's own code *)
| OutOfFuel.                   (* artefact of the fuel of [unpack_fuel] *)

Inductive result (A : Type) : Type :=
| Ok (a : A)
| Err (e : exn).
Arguments Ok {A} a.
Arguments Err {A} e.

Notation "x <- e ;; k" :=
  (match e with Ok x => k | Err err => Err err end)
  (at level 63, e at next level, right associativity,
   format "'[v' x  <-  e  ;;  '/' k ']'").

(** ** The [struct] formats used by the codec ('!': big-endian, packed) *)

Definition be32 (n : N) : bytes :=
  [byte_of_N (n / 2^24); byte_of_N (n / 2^16); byte_of_N (n / 2^8);
   byte_of_N n].

Definition be32_value (b0 b1 b2 b3 : byte) : N :=
  ((Byte.to_N b0 * 256 + Byte.to_N b1) * 256 + Byte.to_N b2) * 256
  + Byte.to_N b3.

(** An IEEE-754 binary64 value, held as the eight bytes of its big-endian
    image (what format 'd' writes and reads). *)
Inductive float : Type :=
| Float (b0 b1 b2 b3 b4 b5 b6 b7 : byte).

Module struct.

(** Format 'I': the argument must fit 32 unsigned bits. *)
Definition pack_I (n : Z) : result bytes :=
  if ((0 <=? n) && (n <? 2^32))%Z then Ok (be32 (Z.to_N n))
  else Err StructError.

(** [struct.pack(f'!1sI{len(s)}s', code, n, s)] *)
Definition pack_1sIs (code : byte) (n : N) (s : bytes) : result bytes :=
  hdr <- pack_I (Z.of_N n) ;; Ok (code :: hdr ++ s).

(** [struct.pack('!1sII', code, n, m)] *)
Definition pack_1sII (code : byte) (n : N) (m : Z) : result bytes :=
  hdr <- pack_I (Z.of_N n) ;; body <- pack_I m ;; Ok (code :: hdr ++ body).

(** [struct.pack('!1sI?', code, n, b)] *)
Definition pack_1sIbool (code : byte) (n : N) (b : bool) : result bytes :=
  hdr <- pack_I (Z.of_N n) ;;
  Ok (code :: hdr ++ [if b then x01 else x00]).

(** [struct.pack('!1sId', code, n, x)] *)
Definition pack_1sId (code : byte) (n : N) (x : float) : result bytes :=
  hdr <- pack_I (Z.of_N n) ;;
  let '(Float b0 b1 b2 b3 b4 b5 b6 b7) := x in
  Ok (code :: hdr ++ [b0; b1; b2; b3; b4; b5; b6; b7]).

(** [struct.pack('!1sI', code, n)] *)
Definition pack_1sI (code : byte) (n : N) : result bytes :=
  hdr <- pack_I (Z.of_N n) ;; Ok (code :: hdr).

(** [struct.unpack(f'!1s{len(data)-1}s', data)]: a negative count is a
    malformed format. *)
Definition unpack_1s_rest (data : bytes) : result (byte * bytes) :=
  match data with
  | code :: rest => Ok (code, rest)
  | [] => Err StructError
  end.

(** [struct.unpack(f'!I{len(data)-4}s', data)] *)
Definition unpack_I_rest (data : bytes) : result (N * bytes) :=
  match data with
  | b0 :: b1 :: b2 :: b3 :: rest => Ok (be32_value b0 b1 b2 b3, rest)
  | _ => Err StructError
  end.

(** [struct.unpack(f'!{n}s{len(data)-n}s', data)] *)
Definition unpack_ns_rest (n : N) (data : bytes) : result (bytes * bytes) :=
  if n <=? len data
  then Ok (take (N.to_nat n) data, drop (N.to_nat n) data)
  else Err StructError.

(** [struct.unpack(f'!1sI{len(data)-5}s', data)] *)
Definition unpack_1sI_rest (data : bytes) : result (byte * N * bytes) :=
  match data with
  | code :: b0 :: b1 :: b2 :: b3 :: rest =>
      Ok (code, be32_value b0 b1 b2 b3, rest)
  | _ => Err StructError
  end.

(** [struct.unpack(f'!II{len(data)-8}s', data)] *)
Definition unpack_II_rest (data : bytes) : result (N * N * bytes) :=
  match data with
  | a0 :: a1 :: a2 :: a3 :: b0 :: b1 :: b2 :: b3 :: rest =>
      Ok (be32_value a0 a1 a2 a3, be32_value b0 b1 b2 b3, rest)
  | _ => Err StructError
  end.

(** [struct.unpack('!I?', data)]: the buffer must be exactly five bytes;
    any non-zero byte reads as [True]. *)
Definition unpack_Ibool (data : bytes) : result (N * bool) :=
  match data with
  | [b0; b1; b2; b3; flag] =>
      Ok (be32_value b0 b1 b2 b3, negb (Byte.eqb flag x00))
  | _ => Err StructError
  end.

(** [struct.unpack(f'!Id{len(data)-12}s', data)] *)
Definition unpack_Id_rest (data : bytes) : result (N * float * bytes) :=
  match data with
  | a0 :: a1 :: a2 :: a3 :: b0 :: b1 :: b2 :: b3 :: b4 :: b5 :: b6 :: b7
    :: rest =>
      Ok (be32_value a0 a1 a2 a3, Float b0 b1 b2 b3 b4 b5 b6 b7, rest)
  | _ => Err StructError
  end.

End struct.

(** ** The UTF-8 codec: [bytes(s, 'utf-8')] and [str(b, 'utf-8')] *)

Module utf8.

Definition is_surrogate (c : N) : bool := (55296 <=? c) && (c <? 57344).

(** One code point.  Surrogates cannot be encoded; anything from
    0x110000 on is not a code point and is refused as well. *)
Definition encode_cp (c : N) : result bytes :=
  if c <? 128 then Ok [byte_of_N c]
  else if c <? 2048 then
    Ok [byte_of_N (192 + c / 64); byte_of_N (128 + c mod 64)]
  else if c <? 65536 then
    if is_surrogate c then Err UnicodeEncodeError
    else Ok [byte_of_N (224 + c / 4096); byte_of_N (128 + (c / 64) mod 64);
             byte_of_N (128 + c mod 64)]
  else if c <? 1114112 then
    Ok [byte_of_N (240 + c / 262144); byte_of_N (128 + (c / 4096) mod 64);
        byte_of_N (128 + (c / 64) mod 64); byte_of_N (128 + c mod 64)]
  else Err UnicodeEncodeError.

Fixpoint encode (s : pystr) : result bytes :=
  match s with
  | [] => Ok []
  | c :: s' => b <- encode_cp c ;; bs <- encode s' ;; Ok (b ++ bs)
  end.

(** A continuation byte, 10xxxxxx. *)
Definition is_cont (b : byte) : bool :=
  (128 <=? Byte.to_N b) && (Byte.to_N b <? 192).

Definition cont (b : byte) : N := Byte.to_N b - 128.

(** The strict decoder: overlong forms, surrogates, stray continuation
    bytes, truncated sequences and values past 0x10FFFF are errors. *)
Fixpoint decode (data : bytes) : result pystr :=
  match data with
  | [] => Ok []
  | b0 :: r0 =>
      let n0 := Byte.to_N b0 in
      if n0 <? 128 then s <- decode r0 ;; Ok (n0 :: s)
      else if n0 <? 192 then Err UnicodeDecodeError
      else if n0 <? 224 then
        match r0 with
        | b1 :: r1 =>
            let c := (n0 - 192) * 64 + cont b1 in
            if is_cont b1 && (128 <=? c)
            then s <- decode r1 ;; Ok (c :: s)
            else Err UnicodeDecodeError
        | _ => Err UnicodeDecodeError
        end
      else if n0 <? 240 then
        match r0 with
        | b1 :: b2 :: r2 =>
            let c := ((n0 - 224) * 64 + cont b1) * 64 + cont b2 in
            if is_cont b1 && is_cont b2 && (2048 <=? c)
               && negb (is_surrogate c)
            then s <- decode r2 ;; Ok (c :: s)
            else Err UnicodeDecodeError
        | _ => Err UnicodeDecodeError
        end
      else if n0 <? 248 then
        match r0 with
        | b1 :: b2 :: b3 :: r3 =>
            let c := (((n0 - 240) * 64 + cont b1) * 64 + cont b2) * 64
                     + cont b3 in
            if is_cont b1 && is_cont b2 && is_cont b3 && (65536 <=? c)
               && (c <? 1114112)
            then s <- decode r3 ;; Ok (c :: s)
            else Err UnicodeDecodeError
        | _ => Err UnicodeDecodeError
        end
      else Err UnicodeDecodeError
  end.

End utf8.

(** ** [bytes.hex], [bytes.fromhex] and [bytes.partition] *)

Definition hexdigit (n : N) : N := if n <? 10 then 48 + n else 87 + n.

(** [b.hex()]: two lowercase digits per byte. *)
Definition hex (b : bytes) : pystr :=
  flat_map (fun x => [hexdigit (Byte.to_N x / 16);
                      hexdigit (Byte.to_N x mod 16)]) b.

Definition hexval (c : N) : option N :=
  if (48 <=? c) && (c <=? 57) then Some (c - 48)
  else if (97 <=? c) && (c <=? 102) then Some (c - 87)
  else if (65 <=? c) && (c <=? 70) then Some (c - 55)
  else None.

(** ASCII whitespace, skipped by [bytes.fromhex] between two bytes. *)
Definition is_space (c : N) : bool := ((9 <=? c) && (c <=? 13)) || (c =? 32).

(** [bytes.fromhex(s)] *)
Fixpoint fromhex (s : pystr) : result bytes :=
  match s with
  | [] => Ok []
  | c :: r =>
      if is_space c then fromhex r
      else match hexval c, r with
           | Some top, c' :: r' =>
               match hexval c' with
               | Some bot => bs <- fromhex r' ;; Ok (byte_of_N (top * 16 + bot) :: bs)
               | None => Err ValueError
               end
           | _, _ => Err ValueError
           end
  end.

(** [b.partition(sep)] for a one-byte separator: the parts before and
    after its first occurrence (the whole of [b] and nothing when absent). *)
Fixpoint partition (sep : byte) (b : bytes) : bytes * bytes :=
  match b with
  | [] => ([], [])
  | x :: b' =>
      if Byte.eqb x sep then ([], b')
      else let '(before, after) := partition sep b' in (x :: before, after)
  end.

(** ** [sorted] on a list of byte strings *)

(** [a <= b] on [bytes]: lexicographic on unsigned bytes, a proper prefix
    first. *)
Fixpoint bytes_leb (a b : bytes) : bool :=
  match a, b with
  | [], _ => true
  | _ :: _, [] => false
  | x :: a', y :: b' =>
      if Byte.to_N x <? Byte.to_N y then true
      else if Byte.to_N y <? Byte.to_N x then false
      else bytes_leb a' b'
  end.

Definition bytes_le (a b : bytes) : Prop := bytes_leb a b = true.

#[global] Instance bytes_le_dec : RelDecision bytes_le.
Proof. intros a b. unfold bytes_le. apply _. Defined.

Definition sorted (l : list bytes) : list bytes := merge_sort bytes_le l.

(** ** Numbers: [float], [Decimal] and their equality with [int] *)

(** A [decimal.Decimal]: sign, coefficient and exponent, or a special
    value. *)
Inductive decimal : Type :=
| DecFinite (negative : bool) (coefficient : N) (exponent : Z)
| DecInfinity (negative : bool)
| DecNaN (negative signalling : bool) (diagnostic : N).

(** The text side of [Decimal]: [str(d)] and [Decimal(s)].  Both belong to
    the Python library and are taken as given. *)
Class DecimalText : Type := {
  Decimal_str : decimal -> pystr;
  Decimal_new : pystr -> result decimal;
}.

(** The exact value a Python number denotes: [m * 2^e2 * 10^e10], an
    infinity, or no value at all (a NaN). *)
Inductive number : Type :=
| NumNaN
| NumInf (negative : bool)
| NumFinite (m e2 e10 : Z).

Definition float_bits (x : float) : N :=
  let '(Float b0 b1 b2 b3 b4 b5 b6 b7) := x in
  be32_value b0 b1 b2 b3 * 2^32 + be32_value b4 b5 b6 b7.

Definition number_of_float (x : float) : number :=
  let bits := float_bits x in
  let negative := 2^63 <=? bits in
  let e := (bits / 2^52) mod 2048 in
  let f := bits mod 2^52 in
  if e =? 2047 then (if f =? 0 then NumInf negative else NumNaN)
  else
    let subnormal := e =? 0 in
    let m := Z.of_N (if subnormal then f else 2^52 + f) in
    let e2 := (if subnormal then -1074 else Z.of_N e - 1075)%Z in
    NumFinite (if negative then - m else m)%Z e2 0.

Definition number_of_decimal (d : decimal) : number :=
  match d with
  | DecFinite negative c e =>
      NumFinite (if negative then - Z.of_N c else Z.of_N c)%Z 0 e
  | DecInfinity negative => NumInf negative
  | DecNaN _ _ _ => NumNaN
  end.

(** [==] between numbers compares the exact values; a NaN equals
    nothing. *)
Definition number_eqb (x y : number) : bool :=
  match x, y with
  | NumFinite m1 a1 b1, NumFinite m2 a2 b2 =>
      let a := Z.min a1 a2 in
      let b := Z.min b1 b2 in
      (m1 * 2^(a1 - a) * 10^(b1 - b) =? m2 * 2^(a2 - a) * 10^(b2 - b))%Z
  | NumInf s1, NumInf s2 => Bool.eqb s1 s2
  | _, _ => false
  end.

Definition is_nan (x : number) : bool :=
  match x with NumNaN => true | _ => false end.

(** ** Values *)

(** The objects [pack] may be handed.  [Obj] is the type of the instances
    of extension classes.  A [set] lists its elements in iteration order
    and a [dict] its entries in insertion order; [VOther] stands for an
    object of any other type (a function, a [complex], an instance of a
    subclass of [dict], ...) and carries [str(type(x))]. *)
#[local] Unset Elimination Schemes.
Inductive value (Obj : Type) : Type :=
| VPackable (o : Obj)
| VList (items : list (value Obj))
| VSet (items : list (value Obj))
| VTuple (items : list (value Obj))
| VBytes (b : bytes)
| VBytearray (b : bytes)
| VStr (s : pystr)
| VInt (n : Z)
| VBool (b : bool)
| VFloat (x : float)
| VDecimal (d : decimal)
| VDict (entries : list (value Obj * value Obj))
| VNone
| VOther (type_repr : pystr).
#[local] Set Elimination Schemes.
Arguments VPackable {Obj} o.
Arguments VList {Obj} items.
Arguments VSet {Obj} items.
Arguments VTuple {Obj} items.
Arguments VBytes {Obj} b.
Arguments VBytearray {Obj} b.
Arguments VStr {Obj} s.
Arguments VInt {Obj} n.
Arguments VBool {Obj} b.
Arguments VFloat {Obj} x.
Arguments VDecimal {Obj} d.
Arguments VDict {Obj} entries.
Arguments VNone {Obj}.
Arguments VOther {Obj} type_repr.

(** Modelled from the spec: the [Packable] protocol of
    packify/interface.py (section 4.3: an extension type serialises itself
    to an opaque byte string, and is rebuilt from it by a handler found
    under the name of its class).  The fields are what the codec and the
    containers ask of an instance [o]: [type(o).__name__], [o.pack()],
    [o == o'] and whether [hash(o)] returns. *)
Class Packable (Obj : Type) : Type := {
  class_name : Obj -> pystr;
  obj_pack : Obj -> result bytes;
  obj_eq : Obj -> Obj -> bool;
  obj_hashable : Obj -> bool;
}.

(** An entry of the registry: any object; [h_unpack] is its [unpack]
    attribute when it has one.  The keyword argument [inject=inject] is
    part of the closure. *)
Record handler (Obj : Type) : Type := Handler {
  h_unpack : option (bytes -> result Obj);
}.
Arguments Handler {Obj} h_unpack.
Arguments h_unpack {Obj} h.

(** Modelled from the spec: [tressa] of packify/errors.py raises a usage
    error carrying the message when the condition is false (sections 4.5
    and 7). *)
Definition tressa (condition : bool) (error_message : pystr) : result unit :=
  if condition then Ok tt else Err (UsageError error_message).

Section value_induction.
Context {Obj : Type} (P : value Obj -> Prop).
Hypothesis HPackable : forall o, P (VPackable o).
Hypothesis HList : forall items, Forall P items -> P (VList items).
Hypothesis HSet : forall items, Forall P items -> P (VSet items).
Hypothesis HTuple : forall items, Forall P items -> P (VTuple items).
Hypothesis HBytes : forall b, P (VBytes b).
Hypothesis HBytearray : forall b, P (VBytearray b).
Hypothesis HStr : forall s, P (VStr s).
Hypothesis HInt : forall n, P (VInt n).
Hypothesis HBool : forall b, P (VBool b).
Hypothesis HFloat : forall x, P (VFloat x).
Hypothesis HDecimal : forall d, P (VDecimal d).
Hypothesis HDict : forall entries,
  Forall (fun kv => P kv.1 /\ P kv.2) entries -> P (VDict entries).
Hypothesis HNone : P VNone.
Hypothesis HOther : forall ty, P (VOther ty).

Fixpoint value_induction (v : value Obj) : P v :=
  let fix all (l : list (value Obj)) : Forall P l :=
    match l with
    | [] => List.Forall_nil _
    | x :: l' => List.Forall_cons _ x l' (value_induction x) (all l')
    end in
  let fix all2 (l : list (value Obj * value Obj))
      : Forall (fun kv => P kv.1 /\ P kv.2) l :=
    match l with
    | [] => List.Forall_nil _
    | (k, v) :: l' =>
        List.Forall_cons (fun kv => P kv.1 /\ P kv.2) (k, v) l'
          (conj (value_induction k) (value_induction v)) (all2 l')
    end in
  match v with
  | VPackable o => HPackable o
  | VList items => HList items (all items)
  | VSet items => HSet items (all items)
  | VTuple items => HTuple items (all items)
  | VBytes b => HBytes b
  | VBytearray b => HBytearray b
  | VStr s => HStr s
  | VInt n => HInt n
  | VBool b => HBool b
  | VFloat x => HFloat x
  | VDecimal d => HDecimal d
  | VDict entries => HDict entries (all2 entries)
  | VNone => HNone
  | VOther ty => HOther ty
  end.
End value_induction.

(** [[f(x) for x in l]], stopping at the first exception. *)
Definition traverse {A B} (f : A -> result B) : list A -> result (list B) :=
  fix go (l : list A) : result (list B) :=
    match l with
    | [] => Ok []
    | x :: l' => y <- f x ;; ys <- go l' ;; Ok (y :: ys)
    end.

Definition list_eqb {A} (eq : A -> A -> bool) : list A -> list A -> bool :=
  fix go (l1 l2 : list A) : bool :=
    match l1, l2 with
    | [], [] => true
    | x :: l1', y :: l2' => eq x y && go l1' l2'
    | _, _ => false
    end.

Section Codec.
Context {Obj : Type} `{!Packable Obj} `{!DecimalText}.

Local Abbreviation value := (value Obj).

(** *** Equality and hashing of values *)

Definition number_of (v : value) : option number :=
  match v with
  | VInt n => Some (NumFinite n 0 0)
  | VBool b => Some (NumFinite (if b then 1 else 0) 0 0)
  | VFloat x => Some (number_of_float x)
  | VDecimal d => Some (number_of_decimal d)
  | _ => None
  end.

(** [a == b].  Numbers compare by value across [int], [bool], [float] and
    [Decimal]; [bytes] and [bytearray] compare by content; sequences
    compare element by element and only within their own type; sets and
    dicts compare as unordered collections.  An extension instance is
    taken to equal extension instances only, as its class decides. *)
Fixpoint py_eq (a b : value) : bool :=
  match a, b with
  | VPackable o1, VPackable o2 => obj_eq o1 o2
  | VList l1, VList l2 => list_eqb py_eq l1 l2
  | VTuple l1, VTuple l2 => list_eqb py_eq l1 l2
  | VSet l1, VSet l2 =>
      (length l1 =? length l2)%nat
      && forallb (fun x => existsb (fun y => py_eq x y) l2) l1
  | VDict d1, VDict d2 =>
      (length d1 =? length d2)%nat
      && forallb (fun '(k, v) =>
                    match find (fun '(k', _) => py_eq k k') d2 with
                    | Some (_, v') => py_eq v v'
                    | None => false
                    end) d1
  | VBytes b1, VBytes b2 | VBytes b1, VBytearray b2
  | VBytearray b1, VBytes b2 | VBytearray b1, VBytearray b2 =>
      bool_decide (b1 = b2)
  | VStr s1, VStr s2 => bool_decide (s1 = s2)
  | VInt _, _ | VBool _, _ | VFloat _, _ | VDecimal _, _ =>
      match number_of a, number_of b with
      | Some x, Some y => number_eqb x y
      | _, _ => false
      end
  | VNone, VNone => true
  | _, _ => false
  end.

(** [hash(v)] returns: lists, sets, dicts and bytearrays are unhashable,
    a tuple is hashable when its elements are, a signalling NaN is not.
    (No [VOther] reaches a set or a dict: [pack] refuses it and [unpack]
    builds none.) *)
Fixpoint hashable (v : value) : bool :=
  match v with
  | VPackable o => obj_hashable o
  | VTuple items => forallb hashable items
  | VList _ | VSet _ | VDict _ | VBytearray _ => false
  | VDecimal (DecNaN _ true _) => false
  | _ => true
  end.

(** [s.add(x)] on a set whose elements are all hashable. *)
Definition set_add (s : list value) (x : value) : list value :=
  if existsb (fun y => py_eq y x) s then s else s ++ [x].

(** [set(items)], starting from the elements [s] already collected.
    Python does not say in which order the new set iterates; the model
    lists the elements by first occurrence, and [py_eq] does not look at
    the order. *)
Fixpoint set_of (s : list value) (items : list value) : result (list value) :=
  match items with
  | [] => Ok s
  | x :: items' =>
      if hashable x then set_of (set_add s x) items' else Err TypeError
  end.

(** [d[k] = v]: a key already present keeps its place and its first key
    object, and takes the new value. *)
Fixpoint dict_set (d : list (value * value)) (k v : value)
  : list (value * value) :=
  match d with
  | [] => [(k, v)]
  | (k', v') :: d' =>
      if py_eq k' k then (k', v) :: d' else (k', v') :: dict_set d' k v
  end.

Fixpoint dict_get (d : list (value * value)) (k : value) : option value :=
  match d with
  | [] => None
  | (k', v') :: d' => if py_eq k' k then Some v' else dict_get d' k
  end.

(** [x[i]] for a literal index [i >= 0].  Extension instances are taken
    not to be subscriptable. *)
Definition getitem (x : value) (i : nat) : result value :=
  match x with
  | VList items | VTuple items =>
      match items !! i with Some v => Ok v | None => Err IndexError end
  | VStr s =>
      match s !! i with Some c => Ok (VStr [c]) | None => Err IndexError end
  | VBytes b | VBytearray b =>
      match b !! i with
      | Some c => Ok (VInt (Z.of_N (Byte.to_N c)))
      | None => Err IndexError
      end
  | VDict d =>
      match dict_get d (VInt (Z.of_nat i)) with
      | Some v => Ok v
      | None => Err KeyError
      end
  | _ => Err TypeError
  end.

(** [{pair[0]: pair[1] for pair in items}], starting from the entries [d]
    already stored. *)
Fixpoint dict_of (d : list (value * value)) (items : list value)
  : result (list (value * value)) :=
  match items with
  | [] => Ok d
  | entry :: items' =>
      k <- getitem entry 0 ;;
      v <- getitem entry 1 ;;
      if hashable k then dict_of (dict_set d k v) items' else Err TypeError
  end.

(** *** pack *)

(** [str(type(data))]; for an extension instance the module prefix of the
    class is left out. *)
Definition type_repr (data : value) : pystr :=
  match data with
  | VPackable o => lit "<class '" ++ class_name o ++ lit "'>"
  | VList _ => lit "<class 'list'>"
  | VSet _ => lit "<class 'set'>"
  | VTuple _ => lit "<class 'tuple'>"
  | VBytes _ => lit "<class 'bytes'>"
  | VBytearray _ => lit "<class 'bytearray'>"
  | VStr _ => lit "<class 'str'>"
  | VInt _ => lit "<class 'int'>"
  | VBool _ => lit "<class 'bool'>"
  | VFloat _ => lit "<class 'float'>"
  | VDecimal _ => lit "<class 'decimal.Decimal'>"
  | VDict _ => lit "<class 'dict'>"
  | VNone => lit "<class 'NoneType'>"
  | VOther ty => ty
  end.

(** [isinstance(data, Packable) or type(data) in (dict, ..., Decimal) or
    data is None] *)
Definition is_serializable (data : value) : bool :=
  match data with
  | VOther _ => false
  | _ => true
  end.

Definition not_serializable (data : value) : pystr :=
  lit "data type must be one of (Packable, list, set, tuple, "
  ++ lit "str, bytes, bytearray, int, bool, float, Decimal, NoneType); "
  ++ type_repr data ++ lit " is not serializable".

Fixpoint pack (data : value) : result bytes :=
  checked <- tressa (is_serializable data) (not_serializable data) ;;
  match data with
  | VPackable o =>
      name <- utf8.encode (class_name o) ;;
      packed <- utf8.encode (hex name) ;;
      body <- obj_pack o ;;
      let packed := packed ++ ["_"%byte] ++ body in
      struct.pack_1sIs "p" (len packed) packed
  | VList items =>
      frames <- traverse pack items ;;
      let items := concat frames in
      struct.pack_1sIs "l" (len items) items
  | VSet items =>
      frames <- traverse pack items ;;
      let items := concat frames in
      struct.pack_1sIs "e" (len items) items
  | VTuple items =>
      frames <- traverse pack items ;;
      let items := concat frames in
      struct.pack_1sIs "t" (len items) items
  | VBytes data => struct.pack_1sIs "b" (len data) data
  | VBytearray data => struct.pack_1sIs "a" (len data) data
  | VStr data =>
      data <- utf8.encode data ;;
      struct.pack_1sIs "s" (len data) data
  | VInt data => struct.pack_1sII "i" 4 data
  | VBool data => struct.pack_1sIbool "B" 1 data
  | VFloat data => struct.pack_1sId "f" 8 data
  | VDecimal data =>
      data <- utf8.encode (Decimal_str data) ;;
      struct.pack_1sIs "D" (len data) data
  | VDict entries =>
      (* pack((key, value)), unfolded one level: see [pack_entry] *)
      frames <- traverse (fun '(key, value) =>
                  key <- pack key ;;
                  value <- pack value ;;
                  let items := concat [key; value] in
                  struct.pack_1sIs "t" (len items) items) entries ;;
      let items := concat (sorted frames) in
      struct.pack_1sIs "d" (len items) items
  | VNone => struct.pack_1sI "n" 0
  | VOther _ => Err TypeError    (* not reached: refused by tressa *)
  end.

(** [pack((key, value))], the frame of one entry of a dict. *)
Definition pack_entry (entry : value * value) : result bytes :=
  pack (VTuple [entry.1; entry.2]).

(** *** unpack *)

(** [globals()] of the module: the names it defines and imports, each with
    the object bound to it. *)
Context (globals : gmap pystr (handler Obj)).

Definition not_found (packed_class : pystr) : pystr :=
  packed_class ++ lit " not found in globals or inject; cannot unpack".

Definition no_unpack_method (packed_class : pystr) : pystr :=
  packed_class ++ lit " must have unpack method".

(** The [while len(let_data) > 0] loop; [unpack] is the recursive call.
    Every round removes at least five bytes, so [length let_data] rounds
    are always enough. *)
Definition unpack_items (unpack : bytes -> result value)
  : nat -> bytes -> list value -> result (list value) :=
  fix loop (rounds : nat) (let_data : bytes) (items : list value) :=
    match let_data with
    | [] => Ok items
    | _ :: _ =>
        match rounds with
        | O => Err OutOfFuel
        | S rounds =>
            header <- struct.unpack_1sI_rest let_data ;;
            let '(_, item_len, _) := header in
            parts <- struct.unpack_ns_rest (5 + item_len) let_data ;;
            let '(item, let_data) := parts in
            v <- unpack item ;;
            loop rounds let_data (items ++ [v])
        end
    end.

Fixpoint unpack_fuel (fuel : nat) (data : bytes) (inject : gmap pystr (handler Obj))
  : result value :=
  match fuel with
  | O => Err OutOfFuel
  | S fuel =>
      parts <- struct.unpack_1s_rest data ;;
      let '(code, data) := parts in
      let dependencies := inject ∪ globals in
      if bool_decide (code = "p"%byte) then
        parts <- struct.unpack_I_rest data ;;
        let '(packed_len, data) := parts in
        parts <- struct.unpack_ns_rest packed_len data ;;
        let '(packed, _) := parts in
        let '(packed_class, packed_data) := partition "_" packed in
        packed_class <- utf8.decode packed_class ;;
        packed_class <- fromhex packed_class ;;
        packed_class <- utf8.decode packed_class ;;
        checked <- tressa (bool_decide (is_Some (dependencies !! packed_class)))
                     (not_found packed_class) ;;
        match dependencies !! packed_class with
        | None => Err KeyError                  (* not reached *)
        | Some cls =>
            checked <- tressa (bool_decide (is_Some (h_unpack cls)))
                         (no_unpack_method packed_class) ;;
            match h_unpack cls with
            | None => Err TypeError             (* not reached *)
            | Some cls_unpack => o <- cls_unpack packed_data ;; Ok (VPackable o)
            end
        end
      else if bool_decide (code ∈ ["l"; "e"; "t"; "d"]%byte) then
        parts <- struct.unpack_I_rest data ;;
        let '(let_len, data) := parts in
        parts <- struct.unpack_ns_rest let_len data ;;
        let '(let_data, _) := parts in
        items <- unpack_items (fun item => unpack_fuel fuel item inject)
                   (length let_data) let_data [] ;;
        if bool_decide (code = "l"%byte) then Ok (VList items)
        else if bool_decide (code = "e"%byte) then
          s <- set_of [] items ;; Ok (VSet s)
        else if bool_decide (code = "t"%byte) then Ok (VTuple items)
        else d <- dict_of [] items ;; Ok (VDict d)
      else if bool_decide (code ∈ ["b"; "a"]%byte) then
        parts <- struct.unpack_I_rest data ;;
        let '(bt_len, data) := parts in
        parts <- struct.unpack_ns_rest bt_len data ;;
        let '(bt_data, _) := parts in
        Ok (if bool_decide (code = "b"%byte) then VBytes bt_data
            else VBytearray bt_data)
      else if bool_decide (code = "s"%byte) then
        parts <- struct.unpack_I_rest data ;;
        let '(s_len, data) := parts in
        parts <- struct.unpack_ns_rest s_len data ;;
        let '(s, _) := parts in
        s <- utf8.decode s ;; Ok (VStr s)
      else if bool_decide (code = "i"%byte) then
        fields <- struct.unpack_II_rest data ;;
        let '(_, n, _) := fields in Ok (VInt (Z.of_N n))
      else if bool_decide (code = "B"%byte) then
        fields <- struct.unpack_Ibool data ;;
        let '(_, b) := fields in Ok (VBool b)
      else if bool_decide (code = "f"%byte) then
        fields <- struct.unpack_Id_rest data ;;
        let '(_, x, _) := fields in Ok (VFloat x)
      else if bool_decide (code = "D"%byte) then
        parts <- struct.unpack_I_rest data ;;
        let '(s_len, data) := parts in
        parts <- struct.unpack_ns_rest s_len data ;;
        let '(s, _) := parts in
        s <- utf8.decode s ;;
        d <- Decimal_new s ;; Ok (VDecimal d)
      else if bool_decide (code = "n"%byte) then Ok VNone
      else Ok VNone      (* no branch taken: the function returns None *)
  end.

(** [unpack(data, inject)].  A frame nested in [data] is at least five
    bytes shorter than [data], so this fuel is never used up and more of
    it changes nothing (see [unpack_fuel_enough], [unpack_fuel_stable]). *)
Definition unpack (data : bytes) (inject : gmap pystr (handler Obj))
  : result value :=
  unpack_fuel (S (length data)) data inject.

End Codec.

(** ** The extension class of the test suite, and a [Decimal] text instance *)

(** [StrWrapper] of tests/test_serialization.py: a dataclass with one
    [str] field, equal to another [StrWrapper] with the same field. *)
Record StrWrapper : Type := { data : pystr }.

#[global] Instance StrWrapper_packable : Packable StrWrapper := {|
  class_name _ := lit "StrWrapper";
  obj_pack self := utf8.encode (data self);
  obj_eq self other := bool_decide (data self = data other);
  obj_hashable _ := true;
|}.

(** The class object [StrWrapper] as a registry entry: its classmethod
    [unpack] is [cls(str(data, 'utf-8'))]. *)
Definition StrWrapper_class : handler StrWrapper :=
  Handler (Some (fun b => s <- utf8.decode b ;; Ok {| data := s |})).

(** An entry without an [unpack] attribute (as [Decimal] is in the
    module's globals). *)
Definition no_unpack_class : handler StrWrapper := Handler None.

Module decimal_text.

Fixpoint uint_digits (u : Decimal.uint) : list N :=
  match u with
  | Decimal.Nil => []
  | Decimal.D0 u => 0 :: uint_digits u
  | Decimal.D1 u => 1 :: uint_digits u
  | Decimal.D2 u => 2 :: uint_digits u
  | Decimal.D3 u => 3 :: uint_digits u
  | Decimal.D4 u => 4 :: uint_digits u
  | Decimal.D5 u => 5 :: uint_digits u
  | Decimal.D6 u => 6 :: uint_digits u
  | Decimal.D7 u => 7 :: uint_digits u
  | Decimal.D8 u => 8 :: uint_digits u
  | Decimal.D9 u => 9 :: uint_digits u
  end.

(** The digit characters of [n], most significant first; ["0"] for zero. *)
Definition digits (n : N) : pystr := map (N.add 48) (uint_digits (N.to_uint n)).

Definition sign_str (negative : bool) : pystr := if negative then lit "-" else [].

(** ["%+d" % z] *)
Definition signed (z : Z) : pystr :=
  (if (z <? 0)%Z then lit "-" else lit "+") ++ digits (Z.abs_N z).

(** [str(d)]: the scientific string of the decimal arithmetic
    specification. *)
Definition to_str (d : decimal) : pystr :=
  match d with
  | DecInfinity negative => sign_str negative ++ lit "Infinity"
  | DecNaN negative signalling diag =>
      sign_str negative ++ (if signalling then lit "sNaN" else lit "NaN")
      ++ (if diag =? 0 then [] else digits diag)
  | DecFinite negative c exp =>
      let int := digits c in
      let leftdigits := (exp + Z.of_nat (length int))%Z in
      let dotplace :=
        if ((exp <=? 0) && (-6 <? leftdigits))%Z then leftdigits else 1%Z in
      let intpart :=
        if (dotplace <=? 0)%Z then lit "0"
        else if (Z.of_nat (length int) <=? dotplace)%Z
        then int ++ replicate (Z.to_nat dotplace - length int)%nat 48
        else take (Z.to_nat dotplace) int in
      let fracpart :=
        if (dotplace <=? 0)%Z
        then lit "." ++ replicate (Z.to_nat (- dotplace)) 48 ++ int
        else if (Z.of_nat (length int) <=? dotplace)%Z then []
        else lit "." ++ drop (Z.to_nat dotplace) int in
      let exp :=
        if (leftdigits =? dotplace)%Z then []
        else lit "E" ++ signed (leftdigits - dotplace) in
      sign_str negative ++ intpart ++ fracpart ++ exp
  end.

Definition is_digit (c : N) : bool := (48 <=? c) && (c <=? 57).

(** The leading ASCII digits of [s] and what follows them. *)
Fixpoint span_digits (s : pystr) : list N * pystr :=
  match s with
  | c :: s' =>
      if is_digit c
      then let '(ds, rest) := span_digits s' in (c - 48 :: ds, rest)
      else ([], s)
  | [] => ([], [])
  end.

Definition number_of_digits (ds : list N) : N :=
  fold_left (fun acc d => 10 * acc + d) ds 0.

Definition split_sign (s : pystr) : bool * pystr :=
  match s with
  | 45 :: s' => (true, s')
  | 43 :: s' => (false, s')
  | _ => (false, s)
  end.

(** The exponent part: empty, or [E] with an optional sign and at least
    one digit, up to the end of the string. *)
Definition parse_exponent (s : pystr) : result Z :=
  match s with
  | [] => Ok 0%Z
  | c :: s' =>
      if (c =? 69) || (c =? 101) then
        let '(negative, s') := split_sign s' in
        match span_digits s' with
        | ((_ :: _) as ds, []) =>
            let e := Z.of_N (number_of_digits ds) in
            Ok (if negative then - e else e)%Z
        | _ => Err InvalidOperation
        end
      else Err InvalidOperation
  end.

(** [Decimal(s)] on plain ASCII literals: an optional sign, then digits
    with an optional fraction and exponent, or [Infinity], or [NaN] and
    [sNaN] with diagnostic digits.  Anything else is refused. *)
Definition of_str (s : pystr) : result decimal :=
  let '(negative, s) := split_sign s in
  if bool_decide (s = lit "Infinity") || bool_decide (s = lit "Inf")
  then Ok (DecInfinity negative)
  else
    let nan (signalling : bool) (s : pystr) :=
      match span_digits s with
      | (ds, []) => Ok (DecNaN negative signalling (number_of_digits ds))
      | _ => Err InvalidOperation
      end in
    match s with
    | 115 :: 78 :: 97 :: 78 :: s' => nan true s'
    | 78 :: 97 :: 78 :: s' => nan false s'
    | _ =>
        let '(int, s) := span_digits s in
        let '(frac, s) :=
          match s with
          | 46 :: s' => span_digits s'
          | _ => ([], s)
          end in
        match int ++ frac with
        | [] => Err InvalidOperation
        | ds =>
            exp <- parse_exponent s ;;
            Ok (DecFinite negative (number_of_digits ds)
                  (exp - Z.of_nat (length frac)))
        end
    end.

End decimal_text.

#[global] Instance ascii_decimal_text : DecimalText := {|
  Decimal_str := decimal_text.to_str;
  Decimal_new := decimal_text.of_str;
|}.

(** ** Well-formed values and what a round trip preserves *)

Section Predicates.
Context {Obj : Type} `{!Packable Obj} `{!DecimalText}.
Local Abbreviation value := (value Obj).

(** No two of the values are equal. *)
Fixpoint distinct (l : list value) : bool :=
  match l with
  | [] => true
  | x :: l' =>
      forallb (fun y => negb (py_eq x y) && negb (py_eq y x)) l'
      && distinct l'
  end.

(** What Python guarantees of any set and dict: the elements of a set and
    the keys of a dict are hashable and pairwise different. *)
Fixpoint well_formed (v : value) : bool :=
  match v with
  | VList items | VTuple items => forallb well_formed items
  | VSet items =>
      forallb well_formed items && forallb hashable items && distinct items
  | VDict entries =>
      forallb (fun '(k, x) => well_formed k && well_formed x) entries
      && forallb hashable (map fst entries) && distinct (map fst entries)
  | _ => true
  end.

(** Every part of the value is of a kind [pack] knows. *)
Fixpoint serializable (v : value) : bool :=
  match v with
  | VList items | VTuple items | VSet items => forallb serializable items
  | VDict entries =>
      forallb (fun '(k, x) => serializable k && serializable x) entries
  | VOther _ => false
  | _ => true
  end.

(** No NaN, neither a float nor a Decimal, anywhere in the value. *)
Fixpoint nan_free (v : value) : bool :=
  match v with
  | VList items | VTuple items | VSet items => forallb nan_free items
  | VDict entries => forallb (fun '(k, x) => nan_free k && nan_free x) entries
  | VFloat x => negb (is_nan (number_of_float x))
  | VDecimal d => negb (is_nan (number_of_decimal d))
  | _ => true
  end.

(** The contract of the decoders outside the codec, for what occurs in
    [v]: every extension instance equals itself and is registered in
    [inject] under the name of its class with an [unpack] that rebuilds it
    from its [pack()]; every Decimal is read back from its string. *)
Fixpoint restorable (inject : gmap pystr (handler Obj)) (v : value) : Prop :=
  match v with
  | VPackable o =>
      obj_eq o o = true
      /\ exists cls cls_unpack,
           inject !! class_name o = Some cls
           /\ h_unpack cls = Some cls_unpack
           /\ forall body, obj_pack o = Ok body -> cls_unpack body = Ok o
  | VList items | VTuple items | VSet items =>
      (fix all (l : list value) : Prop :=
         match l with
         | [] => True
         | x :: l' => restorable inject x /\ all l'
         end) items
  | VDict entries =>
      (fix all (l : list (value * value)) : Prop :=
         match l with
         | [] => True
         | (k, x) :: l' => restorable inject k /\ restorable inject x /\ all l'
         end) entries
  | VDecimal d => Decimal_new (Decimal_str d) = Ok d
  | _ => True
  end.

(** Equal up to the order of the entries of dicts. *)
#[local] Unset Elimination Schemes.
Inductive same : value -> value -> Prop :=
| same_list l' l : Forall2 same l' l -> same (VList l') (VList l)
| same_tuple l' l : Forall2 same l' l -> same (VTuple l') (VTuple l)
| same_dict d' d'' d :
    Forall2 (fun e' e => e'.1 = e.1 /\ same e'.2 e.2) d' d'' ->
    Permutation d'' d ->
    same (VDict d') (VDict d)
| same_refl v : same v v.
#[local] Set Elimination Schemes.

(** [frame] is [code], the length of [payload] on four bytes, then
    [payload]. *)
Definition framed (code : byte) (payload frame : bytes) : Prop :=
  frame = code :: be32 (len payload) ++ payload /\ len payload < 2^32.

End Predicates.

(** ** Vocabulary of the proofs *)

Section Vocabulary.
Context {Obj : Type} {packable : Packable Obj} {decimal_text : DecimalText}.
Context (globals : gmap pystr (handler Obj)).

(** [x] and [y] are different whichever is asked first. *)
Definition differ (x y : value Obj) : Prop :=
  py_eq x y = false /\ py_eq y x = false.

(** No entry of [d] has a key equal to the key of a later entry. *)
Definition keys_differ (d : list (value Obj * value Obj)) : Prop :=
  ForallOrdPairs (fun e e' => py_eq e.1 e'.1 = false) d.

(** The pair a dict entry was packed as. *)
Definition pair_of (e : value Obj * value Obj) : value Obj :=
  VTuple [e.1; e.2].

(** What [unpack] builds from the items of a container frame. *)
Definition container_of (code : byte) (items : list (value Obj))
  : result (value Obj) :=
  if bool_decide (code = "l"%byte) then Ok (VList items)
  else if bool_decide (code = "e"%byte) then s <- set_of [] items ;; Ok (VSet s)
  else if bool_decide (code = "t"%byte) then Ok (VTuple items)
  else d <- dict_of [] items ;; Ok (VDict d).

(** The frame of the entry [e] of a dict: the frame of the pair. *)
Definition entry_frame (e : value Obj * value Obj) (f : bytes) : Prop :=
  exists fk fx,
    pack e.1 = Ok fk /\ pack e.2 = Ok fx /\ framed "t" (concat [fk; fx]) f.

(** [v], once packed, is read back as a value that is the [same]. *)
Definition reads_back inject (v : value Obj) : Prop :=
  well_formed v = true -> restorable inject v ->
  forall frame, pack v = Ok frame ->
  forall fuel, (length frame < fuel)%nat ->
  exists v', unpack_fuel globals fuel frame inject = Ok v' /\ same v' v.

(** What is the [same] as a well-formed value without NaN is equal to
    it. *)
Definition equal_when_same inject (v : value Obj) : Prop :=
  forall v', same v' v ->
    serializable v = true -> well_formed v = true -> nan_free v = true ->
    restorable inject v ->
    py_eq v' v = true.

End Vocabulary.

(** ** Values and frames of the examples *)

Module examples.

Abbreviation val := (value StrWrapper).
Abbreviation registry := (gmap pystr (handler StrWrapper)).

(** [inject={"StrWrapper": StrWrapper}], as in the test suite. *)
Definition inject : registry := {[ lit "StrWrapper" := StrWrapper_class ]}.

(** A registry whose entry under the name has no [unpack]. *)
Definition inject_no_unpack : registry :=
  {[ lit "StrWrapper" := no_unpack_class ]}.

Definition wrapper : StrWrapper := {| data := lit "some key" |}.

(** [wrapper.pack()] *)
Definition wrapper_body : bytes :=
  ["s"; "o"; "m"; "e"; " "; "k"; "e"; "y"]%byte.

Definition wrapper_frame : bytes :=
  Eval vm_compute in
    match pack (VPackable wrapper) with Ok frame => frame | Err _ => [] end.

(** [float('nan')] *)
Definition nan : val := VFloat (Float x7f xf8 x00 x00 x00 x00 x00 x00).

Definition nan_frame : bytes :=
  ["f"; x00; x00; x00; x08; x7f; xf8; x00; x00; x00; x00; x00; x00]%byte.

(** A nested value over every kind of the data model. *)
Definition nested : val :=
  VList [VInt 123; VStr (lit "hello world"); VBytes [x00; xff];
         VBytearray [x01]; VBool true; VNone;
         VFloat (Float x3f xf0 x00 x00 x00 x00 x00 x00);
         VDecimal (DecFinite false 123456 (-3));
         VPackable wrapper;
         VTuple [VInt 1; VStr []];
         VSet [VInt 8; VInt 0; VStr (lit "abc")];
         VDict [(VInt 3, VList [VInt 4]); (VStr (lit "k"), VNone);
                (VInt 1, VDict [(VPackable wrapper, VInt 2)])]].

Definition nested_frame : bytes :=
  Eval vm_compute in
    match pack nested with Ok frame => frame | Err _ => [] end.

(** [{1: 2, 3: 4}] and [{3: 4, 1: 2}] *)
Definition dict_12_34 : list (val * val) :=
  [(VInt 1, VInt 2); (VInt 3, VInt 4)].
Definition dict_34_12 : list (val * val) :=
  [(VInt 3, VInt 4); (VInt 1, VInt 2)].

Definition dict_frame : bytes :=
  Eval vm_compute in
    match pack (VDict dict_12_34) with Ok frame => frame | Err _ => [] end.

(** The sets [{8, 0}] and [{0, 8}]: the same elements, iterated in the
    order they were inserted (8 and 0 fall in the same slot of the
    table). *)
Definition set_8_0 : val := VSet [VInt 8; VInt 0].
Definition set_0_8 : val := VSet [VInt 0; VInt 8].

(** The frames of the pairs [(1, 2)] and [(1, 3)], and a dict frame
    holding both. *)
Definition pair_1_2 : bytes :=
  ["t"; x00; x00; x00; x12;
   "i"; x00; x00; x00; x04; x00; x00; x00; x01;
   "i"; x00; x00; x00; x04; x00; x00; x00; x02]%byte.
Definition pair_1_3 : bytes :=
  ["t"; x00; x00; x00; x12;
   "i"; x00; x00; x00; x04; x00; x00; x00; x01;
   "i"; x00; x00; x00; x04; x00; x00; x00; x03]%byte.
Definition duplicate_key_frame : bytes :=
  ["d"; x00; x00; x00; x2e]%byte ++ pair_1_2 ++ pair_1_3.

(** A list, a string and a function. *)
Definition short_list : val := VList [VInt 1; VStr (lit "a"); VBool true].
Definition short_list_frame : bytes :=
  Eval vm_compute in
    match pack short_list with Ok frame => frame | Err _ => [] end.
Definition a_function : val := VOther (lit "<class 'function'>").

End examples.

(** ** Shapes of values *)

Section Shapes.
Context {Obj : Type}.

(** Neither a set nor a dict anywhere in the value: its parts are met in
    one order only. *)
Fixpoint ordered (v : value Obj) : bool :=
  match v with
  | VList items | VTuple items => forallb ordered items
  | VSet _ | VDict _ => false
  | _ => true
  end.

(** No set anywhere in the value. *)
Fixpoint set_free (v : value Obj) : bool :=
  match v with
  | VList items | VTuple items => forallb set_free items
  | VSet _ => false
  | VDict entries => forallb (fun '(k, x) => set_free k && set_free x) entries
  | _ => true
  end.

(** The Decimals that occur in a value. *)
Fixpoint decimals (v : value Obj) : list decimal :=
  match v with
  | VList items | VTuple items | VSet items => flat_map decimals items
  | VDict entries => flat_map (fun '(k, x) => decimals k ++ decimals x) entries
  | VDecimal d => [d]
  | _ => []
  end.

End Shapes.

(** ** The exceptions of the codec *)

Section Raises.
Context {Obj : Type} {packable : Packable Obj} {decimal_text : DecimalText}.
Context (globals : gmap pystr (handler Obj)).

(** The exceptions that the code of [pack] raises: of [struct.pack], of
    the UTF-8 encoder, of [tressa] for a value of an unsupported type, and
    whatever the [pack] method of an extension instance raises.  The
    [RecursionError] of the interpreter is not among them: see
    [pack_limited]. *)
Definition pack_raises (e : exn) : Prop :=
  e = StructError \/ e = UnicodeEncodeError
  \/ (exists ty, e = UsageError (not_serializable (VOther ty : value Obj)))
  \/ (exists o : Obj, obj_pack o = Err e).

(** The exceptions that the code of [unpack] raises: of [struct.unpack],
    of the UTF-8 decoder, of [bytes.fromhex], of [set(...)] and the dict
    comprehension, of the two [tressa] checks, and whatever [Decimal(...)]
    or the [unpack] of a registered class raises.  The [RecursionError] of
    the interpreter is not among them: it is the [OutOfFuel] of
    [unpack_fuel]. *)
Definition unpack_raises (inject : gmap pystr (handler Obj)) (e : exn) : Prop :=
  e ∈ [StructError; UnicodeDecodeError; ValueError; TypeError; IndexError;
       KeyError]
  \/ (exists name, e = UsageError (not_found name)
                   \/ e = UsageError (no_unpack_method name))
  \/ (exists s, Decimal_new s = Err e)
  \/ (exists name cls cls_unpack body,
        (inject ∪ globals) !! name = Some cls
        /\ h_unpack cls = Some cls_unpack
        /\ cls_unpack body = Err e).

End Raises.

(** ** The recursion limit of the interpreter *)

Section RecursionLimit.
Context {Obj : Type} {packable : Packable Obj} {decimal_text : DecimalText}.

(** The number of calls of [pack] open at once while a value is packed:
    one for the value, one more for each level of list, set or tuple, and
    two more for each level of dict, whose entries go through
    [pack((key, value))]. *)
Fixpoint depth (v : value Obj) : nat :=
  match v with
  | VList items | VSet items | VTuple items => S (list_max (map depth items))
  | VDict entries =>
      S (S (list_max (map (fun '(k, x) => Nat.max (depth k) (depth x)) entries)))
  | _ => 1
  end.

(** [pack] run by an interpreter that lets [limit] calls of [pack] be open
    at once.  A call made when no room is left raises [RecursionError],
    written [OutOfFuel] here as in [unpack_fuel], whose fuel is the room
    for the calls of [unpack] in the same way.  Only the containers make a
    nested call, a dict through [pack((key, value))]; any other value is
    packed as by [pack].  How many frames of the interpreter one call
    takes is left open: what is proved holds for every [limit]. *)
Fixpoint pack_limited (limit : nat) (data : value Obj) : result bytes :=
  match limit with
  | O => Err OutOfFuel
  | S limit =>
      match data with
      | VList items =>
          frames <- traverse (pack_limited limit) items ;;
          let items := concat frames in
          struct.pack_1sIs "l" (len items) items
      | VSet items =>
          frames <- traverse (pack_limited limit) items ;;
          let items := concat frames in
          struct.pack_1sIs "e" (len items) items
      | VTuple items =>
          frames <- traverse (pack_limited limit) items ;;
          let items := concat frames in
          struct.pack_1sIs "t" (len items) items
      | VDict entries =>
          frames <- traverse (fun '(key, value) =>
                      pack_limited limit (VTuple [key; value])) entries ;;
          let items := concat (sorted frames) in
          struct.pack_1sIs "d" (len items) items
      | _ => pack data
      end
  end.

End RecursionLimit.

(** ** [PackableMapEntry] of the test suite *)

Definition be16 (n : N) : bytes := [byte_of_N (n / 2^8); byte_of_N n].

Definition be16_value (b0 b1 : byte) : N := Byte.to_N b0 * 256 + Byte.to_N b1.

(** The [struct] formats of [PackableMapEntry]. *)
Module struct_HH.

(** Format 'H': the argument must fit 16 unsigned bits. *)
Definition pack_H (n : N) : result bytes :=
  if n <? 2^16 then Ok (be16 n) else Err StructError.

(** [struct.pack(f'!HH{len(key)}s{len(value)}s', len(key), len(value), key,
    value)] *)
Definition pack_HHss (key value : bytes) : result bytes :=
  key_len <- pack_H (len key) ;;
  value_len <- pack_H (len value) ;;
  Ok (key_len ++ value_len ++ key ++ value).

(** [struct.unpack(f'!HH{len(data)-4}s', data)] *)
Definition unpack_HH_rest (data : bytes) : result (N * N * bytes) :=
  match data with
  | a0 :: a1 :: b0 :: b1 :: rest =>
      Ok (be16_value a0 a1, be16_value b0 b1, rest)
  | _ => Err StructError
  end.

(** [struct.unpack(f'{n}s{m}s', data)]: the buffer must be [n + m] bytes. *)
Definition unpack_ss (n m : N) (data : bytes) : result (bytes * bytes) :=
  if len data =? n + m
  then Ok (take (N.to_nat n) data, drop (N.to_nat n) data)
  else Err StructError.

End struct_HH.

(** [before, after = b.split(sep, 1)]: without the separator the list has
    one element, and unpacking it into two names is a [ValueError]. *)
Definition split1 (sep : byte) (b : bytes) : result (bytes * bytes) :=
  if bool_decide (sep ∈ b) then Ok (partition sep b) else Err ValueError.

(** The instances of the two classes of tests/test_serialization.py:
    [StrWrapper(data)] and [PackableMapEntry(key, value)], the key and the
    value being instances themselves. *)
Inductive test_obj : Type :=
| Wrapped (w : StrWrapper)
| PackableMapEntry (key value : test_obj).

(** An object found under a name in [globals()] or [inject]: one of the
    two classes, or anything else, with its [unpack] attribute if it has
    one. *)
Inductive test_class : Type :=
| StrWrapper_cls
| PackableMapEntry_cls
| other_object (unpack_attr : option (bytes -> result test_obj)).

Definition class_of (o : test_obj) : test_class :=
  match o with
  | Wrapped _ => StrWrapper_cls
  | PackableMapEntry _ _ => PackableMapEntry_cls
  end.

(** [o.__class__.__name__] *)
Definition test_class_name (o : test_obj) : pystr :=
  match o with
  | Wrapped _ => lit "StrWrapper"
  | PackableMapEntry _ _ => lit "PackableMapEntry"
  end.

(** [bytes(bytes(name, 'utf-8').hex(), 'utf-8') + b'_' + packed], the
    part of an entry for its key or its value. *)
Definition entry_part (name : pystr) (packed : result bytes) : result bytes :=
  raw <- utf8.encode name ;;
  key <- utf8.encode (hex raw) ;;
  packed <- packed ;;
  Ok (key ++ ["_"%byte] ++ packed).

(** [o.pack()] *)
Fixpoint test_pack (o : test_obj) : result bytes :=
  match o with
  | Wrapped w => utf8.encode (data w)
  | PackableMapEntry key value =>
      key <- entry_part (test_class_name key) (test_pack key) ;;
      value <- entry_part (test_class_name value) (test_pack value) ;;
      struct_HH.pack_HHss key value
  end.

(** [o == other], and [other == o] as [test_eq_flip o other]: the
    [__eq__] of an entry asks [other.key == self.key] and
    [other.value == self.value]. *)
Fixpoint test_eq (o other : test_obj) : bool :=
  match o, other with
  | Wrapped w, Wrapped w' => bool_decide (data w = data w')
  | PackableMapEntry key value, PackableMapEntry key' value' =>
      test_eq_flip key key' && test_eq_flip value value'
  | _, _ => false
  end
with test_eq_flip (o other : test_obj) : bool :=
  match o, other with
  | Wrapped w, Wrapped w' => bool_decide (data w' = data w)
  | PackableMapEntry key value, PackableMapEntry key' value' =>
      test_eq key key' && test_eq value value'
  | _, _ => false
  end.

(** The instance is found for [test_obj] only: where the type of the
    instances is left open, [StrWrapper] comes first. *)
#[global] Instance test_packable : Packable test_obj | 100 := {|
  class_name := test_class_name;
  obj_pack := test_pack;
  obj_eq := test_eq;
  obj_hashable _ := true;
|}.

Section TestSuite.

(** [globals()] of the test module. *)
Context (test_globals : gmap pystr test_class).

(** [cls.unpack(packed, inject=inject)].  [StrWrapper.unpack] decodes the
    string; [PackableMapEntry.unpack] cuts the two parts out, finds the
    class of each by its name and has it unpack the part.  A part is
    shorter than the whole, so one unit of fuel per byte is enough (see
    [class_unpack_enough]). *)
Fixpoint class_unpack (fuel : nat) (cls : test_class) (packed : bytes)
    (inject : gmap pystr test_class) : result test_obj :=
  match cls with
  | StrWrapper_cls => s <- utf8.decode packed ;; Ok (Wrapped (Build_StrWrapper s))
  | other_object (Some cls_unpack) => cls_unpack packed
  | other_object None => Err (Raised (lit "AttributeError"))
  | PackableMapEntry_cls =>
      match fuel with
      | O => Err OutOfFuel
      | S fuel =>
          fields <- struct_HH.unpack_HH_rest packed ;;
          let '(key_len, value_len, data) := fields in
          parts <- struct_HH.unpack_ss key_len value_len data ;;
          let '(key_data, value_data) := parts in
          let dependencies := inject ∪ test_globals in
          let part (part_data : bytes) : result test_obj :=
            parts <- split1 "_" part_data ;;
            let '(part_class, part_data) := parts in
            part_class <- utf8.decode part_class ;;
            part_class <- fromhex part_class ;;
            part_class <- utf8.decode part_class ;;
            match dependencies !! part_class with
            | None => Err KeyError
            | Some cls => class_unpack fuel cls part_data inject
            end in
          key <- part key_data ;;
          value <- part value_data ;;
          Ok (PackableMapEntry key value)
      end
  end.

(** The class as the codec sees it: an entry of its [inject], whose
    [unpack] is called with that same [inject]. *)
Definition handler_of (inject : gmap pystr test_class) (cls : test_class)
  : handler test_obj :=
  Handler
    match cls with
    | other_object unpack_attr => unpack_attr
    | _ => Some (fun packed => class_unpack (S (length packed)) cls packed inject)
    end.

Definition registry_of (inject : gmap pystr test_class)
  : gmap pystr (handler test_obj) :=
  handler_of inject <$> inject.

End TestSuite.

(** ** More values and frames *)

Module vectors.
Import examples.

(** [[1, True, float('nan'), 'a', (None, b'\x00', bytearray(b'\x01'),
    StrWrapper('some key'))]] *)
Definition ordered_value : val :=
  VList [VInt 1; VBool true; nan; VStr (lit "a");
         VTuple [VNone; VBytes [x00]; VBytearray [x01]; VPackable wrapper]].

Definition ordered_frame : bytes :=
  Eval vm_compute in
    match pack ordered_value with Ok frame => frame | Err _ => [] end.

(** [pack(1)], [pack(True)], [pack('ab')], [pack([])] and
    [pack((1, 2, 3))] *)
Definition int_1_frame : bytes :=
  ["i"; x00; x00; x00; x04; x00; x00; x00; x01]%byte.
Definition bool_true_frame : bytes := ["B"; x00; x00; x00; x01; x01]%byte.
Definition str_ab_frame : bytes := ["s"; x00; x00; x00; x02; "a"; "b"]%byte.
Definition empty_list_frame : bytes := ["l"; x00; x00; x00; x00]%byte.
Definition triple_frame : bytes :=
  Eval vm_compute in
    match pack (VTuple [VInt 1; VInt 2; VInt 3] : val) with
    | Ok frame => frame
    | Err _ => []
    end.

(** [{3: [4], 'k': None, 1: {StrWrapper('some key'): 2}}] *)
Definition dict_value : val :=
  VDict [(VInt 3, VList [VInt 4]); (VStr (lit "k"), VNone);
         (VInt 1, VDict [(VPackable wrapper, VInt 2)])].

Definition dict_value_frame : bytes :=
  Eval vm_compute in
    match pack dict_value with Ok frame => frame | Err _ => [] end.

(** Frames made by hand: a list of [1], a [StrWrapper] and [1]; a list of
    [1] followed by one stray byte; a set holding an empty list; a dict
    whose only item is the triple [(1, 2, 3)]. *)
Definition list_with_wrapper_frame : bytes :=
  Eval vm_compute in
    "l"%byte :: be32 (len (int_1_frame ++ wrapper_frame ++ int_1_frame))
      ++ int_1_frame ++ wrapper_frame ++ int_1_frame.
Definition list_with_junk_frame : bytes :=
  Eval vm_compute in
    "l"%byte :: be32 (len (int_1_frame ++ [x00])) ++ int_1_frame ++ [x00].
Definition set_of_list_frame : bytes :=
  Eval vm_compute in "e"%byte :: be32 (len empty_list_frame) ++ empty_list_frame.
Definition dict_of_triple_frame : bytes :=
  Eval vm_compute in "d"%byte :: be32 (len triple_frame) ++ triple_frame.

(** A set frame holding the frames of [1] and [True]. *)
Definition set_1_true_frame : bytes :=
  Eval vm_compute in
    "e"%byte :: be32 (len (int_1_frame ++ bool_true_frame))
      ++ int_1_frame ++ bool_true_frame.

(** [inject={"PackableMapEntry": PackableMapEntry}], and the two classes
    as the globals of the test module and as the [inject] of the fuzz
    test. *)
Definition entry_inject : gmap pystr test_class :=
  {[ lit "PackableMapEntry" := PackableMapEntry_cls ]}.
Definition suite_classes : gmap pystr test_class :=
  {[ lit "StrWrapper" := StrWrapper_cls;
     lit "PackableMapEntry" := PackableMapEntry_cls ]}.

(** [PackableMapEntry(StrWrapper("some key"), StrWrapper("some value"))] *)
Definition some_key : test_obj := Wrapped {| data := lit "some key" |}.
Definition some_value : test_obj := Wrapped {| data := lit "some value" |}.
Definition entry : test_obj := PackableMapEntry some_key some_value.

Definition some_key_packed : bytes :=
  ["s"; "o"; "m"; "e"; " "; "k"; "e"; "y"]%byte.
Definition some_value_packed : bytes :=
  ["s"; "o"; "m"; "e"; " "; "v"; "a"; "l"; "u"; "e"]%byte.
Definition entry_packed : bytes :=
  Eval vm_compute in
    match test_pack entry with Ok packed => packed | Err _ => [] end.

(** A value of the kind the tests pack: entries in a list, as a key and
    as a value of a dict, and in a set. *)
Definition suite_value : value test_obj :=
  VList [VPackable entry; VStr (lit "hello world"); VInt 1234;
         VDecimal (DecFinite false 123456 (-3));
         VDict [(VPackable some_key, VPackable entry); (VInt 123, VInt 4321)];
         VSet [VPackable entry; VNone; VBytes [x61; x62; x63]];
         VTuple [VPackable (PackableMapEntry entry some_key)]].

Definition suite_frame : bytes :=
  Eval vm_compute in
    match pack suite_value with Ok frame => frame | Err _ => [] end.

End vectors.

(** * Facts *)

#[local] Ltac Zify.zify_post_hook ::= Z.to_euclidean_division_equations.

(** Case analysis on every comparison of the goal that [lia] can settle. *)
Ltac ltb_cases :=
  repeat match goal with
  | |- context [?a <? ?b] => destruct (N.ltb_spec a b); try lia
  | |- context [?a <=? ?b] => destruct (N.leb_spec a b); try lia
  end.

(** ** The runtime model on a few inputs *)

Example sorted_ex :
  sorted [[x02; x01]; [x01; xff]; [x01]; []] = [[]; [x01]; [x01; xff]; [x02; x01]].
Proof. reflexivity. Qed.

Example utf8_ex :
  utf8.encode [233; 8364; 128512] = Ok [xc3; xa9; xe2; x82; xac; xf0; x9f; x98; x80]
  /\ utf8.decode [xc3; xa9; xe2; x82; xac; xf0; x9f; x98; x80] = Ok [233; 8364; 128512]
  /\ utf8.decode [xc0; x80] = Err UnicodeDecodeError
  /\ utf8.decode [xed; xa0; x80] = Err UnicodeDecodeError
  /\ utf8.encode [55296] = Err UnicodeEncodeError.
Proof. repeat split; vm_compute; reflexivity. Qed.

Example fromhex_ex :
  fromhex (text [x34; x31; x20; x34; x32]) = Ok [x41; x42]
  /\ fromhex (text [x34; x20; x31]) = Err ValueError
  /\ fromhex (hex [x00; xab; xff]) = Ok [x00; xab; xff].
Proof. repeat split; vm_compute; reflexivity. Qed.

Example number_ex :
  (* 1 == 1.0, 0.5 == Decimal('0.5'), 0.0 == -0.0, nan != nan *)
  number_eqb (NumFinite 1 0 0)
             (number_of_float (Float x3f xf0 x00 x00 x00 x00 x00 x00)) = true
  /\ number_eqb (number_of_float (Float x3f xe0 x00 x00 x00 x00 x00 x00))
                (number_of_decimal (DecFinite false 5 (-1))) = true
  /\ number_eqb (number_of_float (Float x00 x00 x00 x00 x00 x00 x00 x00))
                (number_of_float (Float x80 x00 x00 x00 x00 x00 x00 x00)) = true
  /\ number_eqb (number_of_float (Float x7f xf8 x00 x00 x00 x00 x00 x00))
                (number_of_float (Float x7f xf8 x00 x00 x00 x00 x00 x00)) = false.
Proof. repeat split; vm_compute; reflexivity. Qed.

(** ** Bytes and the 32-bit length field *)

Lemma to_N_byte_of_N n : Byte.to_N (byte_of_N n) = n mod 256.
Proof.
  unfold byte_of_N. destruct (Byte.of_N (n mod 256)) eqn:E.
  - by apply Byte.to_of_N.
  - apply Byte.of_N_None_iff in E. lia.
Qed.

Lemma to_N_byte_of_N_small n : n < 256 -> Byte.to_N (byte_of_N n) = n.
Proof. intros. rewrite to_N_byte_of_N. lia. Qed.

Lemma byte_of_N_to_N b : byte_of_N (Byte.to_N b) = b.
Proof.
  unfold byte_of_N. pose proof (Byte.to_N_bounded b).
  rewrite N.mod_small by lia. by rewrite Byte.of_to_N.
Qed.

Lemma to_N_inj a b : Byte.to_N a = Byte.to_N b -> a = b.
Proof.
  intros E. rewrite <- (byte_of_N_to_N a), <- (byte_of_N_to_N b).
  by rewrite E.
Qed.

Lemma be32_value_be32 n :
  n < 2^32 ->
  exists b0 b1 b2 b3, be32 n = [b0; b1; b2; b3] /\ be32_value b0 b1 b2 b3 = n.
Proof.
  intros Hn. do 4 eexists. split; [reflexivity|].
  unfold be32_value. rewrite !to_N_byte_of_N.
  change (2^24) with 16777216. change (2^16) with 65536.
  change (2^8) with 256. change (2^32) with 4294967296 in Hn.
  lia.
Qed.

Lemma len_app {A} (a b : list A) : len (a ++ b) = len a + len b.
Proof. unfold len. rewrite length_app. lia. Qed.

Lemma len_cons {A} (x : A) (l : list A) : len (x :: l) = 1 + len l.
Proof. unfold len. cbn [length]. lia. Qed.

(** ** UTF-8 *)

Lemma decode_encode_cp c b rest :
  utf8.encode_cp c = Ok b ->
  utf8.decode (b ++ rest) = (s <- utf8.decode rest ;; Ok (c :: s)).
Proof.
  unfold utf8.encode_cp.
  destruct (N.ltb_spec c 128); [|destruct (N.ltb_spec c 2048);
    [|destruct (N.ltb_spec c 65536); [|destruct (N.ltb_spec c 1114112)]]].
  - intros [= <-]. cbn [app utf8.decode]. cbv zeta.
    rewrite to_N_byte_of_N_small by lia. ltb_cases. done.
  - intros [= <-]. cbn [app utf8.decode]. cbv zeta.
    unfold utf8.is_cont, utf8.cont.
    rewrite !to_N_byte_of_N_small by lia.
    replace ((192 + c / 64 - 192) * 64 + (128 + c mod 64 - 128)) with c by lia.
    ltb_cases. done.
  - destruct (utf8.is_surrogate c) eqn:Hs; [done|].
    intros [= <-]. cbn [app utf8.decode]. cbv zeta.
    unfold utf8.is_cont, utf8.cont.
    rewrite !to_N_byte_of_N_small by lia.
    replace (((224 + c / 4096 - 224) * 64 + (128 + (c / 64) mod 64 - 128)) * 64
             + (128 + c mod 64 - 128)) with c by lia.
    rewrite Hs. ltb_cases. done.
  - intros [= <-]. cbn [app utf8.decode]. cbv zeta.
    unfold utf8.is_cont, utf8.cont.
    rewrite !to_N_byte_of_N_small by lia.
    replace ((((240 + c / 262144 - 240) * 64
               + (128 + (c / 4096) mod 64 - 128)) * 64
              + (128 + (c / 64) mod 64 - 128)) * 64 + (128 + c mod 64 - 128))
      with c by lia.
    ltb_cases. done.
  - done.
Qed.

Lemma utf8_decode_encode s b :
  utf8.encode s = Ok b -> utf8.decode b = Ok s.
Proof.
  revert b. induction s as [|c s IH]; intros b; cbn [utf8.encode].
  - by intros [= <-].
  - destruct (utf8.encode_cp c) as [bc|] eqn:Ec; [|done].
    destruct (utf8.encode s) as [bs|] eqn:Es; [|done].
    intros [= <-]. rewrite (decode_encode_cp _ _ _ Ec), (IH _ eq_refl). done.
Qed.

Lemma utf8_decode_error data e :
  utf8.decode data = Err e -> e = UnicodeDecodeError.
Proof.
  remember (length data) as n eqn:Hn. revert data Hn e.
  induction n as [n IH] using lt_wf_ind. intros data -> e.
  destruct data as [|b0 r0]; [done|]. cbn [utf8.decode]. cbv zeta.
  repeat match goal with
    | |- (if ?c then _ else _) = _ -> _ => destruct c
    | |- match ?r with [] => _ | _ :: _ => _ end = _ -> _ => destruct r
    | |- match utf8.decode ?r with Ok _ => _ | Err _ => _ end = _ -> _ =>
        let E := fresh "E" in destruct (utf8.decode r) eqn:E
    end; try (intros [= <-]; try done);
    match goal with
    | E : utf8.decode ?r = Err _ |- _ =>
        eapply (IH (length r)); [cbn [length]; lia|reflexivity|exact E]
    end.
Qed.

(** ** Hexadecimal names *)

Lemma hexdigit_spec n :
  n < 16 ->
  hexval (hexdigit n) = Some n /\ is_space (hexdigit n) = false
  /\ hexdigit n < 128 /\ hexdigit n <> 95.
Proof.
  intros Hn. unfold hexval, hexdigit, is_space.
  destruct (N.ltb_spec n 10).
  - destruct (N.eqb_spec (48 + n) 32); [lia|]. ltb_cases.
    cbn [andb orb]. repeat split; try lia. f_equal; lia.
  - destruct (N.eqb_spec (87 + n) 32); [lia|]. ltb_cases.
    cbn [andb orb]. repeat split; try lia. f_equal; lia.
Qed.

Lemma fromhex_hex b : fromhex (hex b) = Ok b.
Proof.
  induction b as [|x b IH]; [done|].
  pose proof (Byte.to_N_bounded x) as Hx.
  cbn [hex flat_map app]. fold (hex b).
  destruct (hexdigit_spec (Byte.to_N x / 16)) as (Hv1 & Hs1 & _); [lia|].
  destruct (hexdigit_spec (Byte.to_N x mod 16)) as (Hv2 & _); [lia|].
  cbn [fromhex]. rewrite Hs1, Hv1, Hv2, IH.
  replace (Byte.to_N x / 16 * 16 + Byte.to_N x mod 16) with (Byte.to_N x) by lia.
  by rewrite byte_of_N_to_N.
Qed.

Lemma fromhex_error s e : fromhex s = Err e -> e = ValueError.
Proof.
  remember (length s) as n eqn:Hn. revert s Hn e.
  induction n as [n IH] using lt_wf_ind. intros s -> e.
  destruct s as [|c r]; [done|]. cbn [fromhex].
  destruct (is_space c).
  { apply (IH (length r)); [cbn [length]; lia|done]. }
  destruct (hexval c); [|by intros [= <-]].
  destruct r as [|c' r']; [by intros [= <-]|].
  destruct (hexval c'); [|by intros [= <-]].
  destruct (fromhex r') eqn:E; [done|]. intros [= <-].
  eapply (IH (length r')); [cbn [length]; lia|reflexivity|exact E].
Qed.

(** The digits of a hexadecimal name are ASCII and none is the
    separator. *)
Lemma hex_ascii b : Forall (fun c => c < 128 /\ c <> 95) (hex b).
Proof.
  induction b as [|x b IH]; [constructor|].
  pose proof (Byte.to_N_bounded x) as Hx.
  cbn [hex flat_map app]. fold (hex b).
  destruct (hexdigit_spec (Byte.to_N x / 16)) as (_ & _ & ? & ?); [lia|].
  destruct (hexdigit_spec (Byte.to_N x mod 16)) as (_ & _ & ? & ?); [lia|].
  repeat constructor; done.
Qed.

Lemma utf8_encode_ascii s :
  Forall (fun c => c < 128 /\ c <> 95) s ->
  exists b, utf8.encode s = Ok b /\ Forall (fun x => x <> "_"%byte) b.
Proof.
  induction 1 as [|c s [Hc Hc'] _ (b & Eb & Hb)]; [by exists []|].
  exists (byte_of_N c :: b). cbn [utf8.encode]. unfold utf8.encode_cp.
  destruct (N.ltb_spec c 128); [|lia]. rewrite Eb. split; [done|].
  constructor; [|done]. intros E. apply (f_equal Byte.to_N) in E.
  rewrite to_N_byte_of_N_small in E by lia. cbn in E. lia.
Qed.

Lemma partition_sep sep b rest :
  Forall (fun x => x <> sep) b ->
  partition sep (b ++ sep :: rest) = (b, rest).
Proof.
  induction 1 as [|x b Hx _ IH]; cbn [app partition].
  - destruct (Byte.eqb sep sep) eqn:E; [done|].
    by apply Byte.eqb_false in E.
  - destruct (Byte.eqb x sep) eqn:E.
    + by apply Byte.byte_dec_bl in E.
    + by rewrite IH.
Qed.

(** ** The order of [sorted] *)

#[global] Instance bytes_le_total : Total bytes_le.
Proof.
  intros a. unfold bytes_le.
  induction a as [|x a IH]; intros [|y b]; cbn [bytes_leb]; auto.
  destruct (N.ltb_spec (Byte.to_N x) (Byte.to_N y)),
    (N.ltb_spec (Byte.to_N y) (Byte.to_N x)); auto; lia.
Qed.

#[global] Instance bytes_le_trans : Transitive bytes_le.
Proof.
  intros a. unfold bytes_le.
  induction a as [|x a IH]; intros [|y b] [|z c]; cbn [bytes_leb]; try done.
  destruct (N.ltb_spec (Byte.to_N x) (Byte.to_N y)),
    (N.ltb_spec (Byte.to_N y) (Byte.to_N z)),
    (N.ltb_spec (Byte.to_N x) (Byte.to_N z)),
    (N.ltb_spec (Byte.to_N y) (Byte.to_N x)),
    (N.ltb_spec (Byte.to_N z) (Byte.to_N y)),
    (N.ltb_spec (Byte.to_N z) (Byte.to_N x)); try done; try lia.
  apply IH.
Qed.

#[global] Instance bytes_le_antisym : AntiSymm (=) bytes_le.
Proof.
  intros a. unfold bytes_le.
  induction a as [|x a IH]; intros [|y b]; cbn [bytes_leb]; try done.
  destruct (N.ltb_spec (Byte.to_N x) (Byte.to_N y)),
    (N.ltb_spec (Byte.to_N y) (Byte.to_N x)); try done; try lia.
  intros ??. f_equal; [apply to_N_inj; lia|by apply IH].
Qed.

(** [sorted] returns its argument in ascending order, and depends on
    nothing but the byte strings it is given, not on their order. *)
Lemma sorted_Sorted l : Sorted bytes_le (sorted l).
Proof. apply Sorted_merge_sort, _. Qed.

Lemma sorted_Permutation l : Permutation (sorted l) l.
Proof. apply merge_sort_Permutation. Qed.

Lemma sorted_unique l1 l2 : Permutation l1 l2 -> sorted l1 = sorted l2.
Proof.
  intros Hp. apply (Sorted_unique bytes_le); try apply sorted_Sorted.
  by rewrite !sorted_Permutation.
Qed.

(** ** Frames *)

Lemma pack_I_inv z b :
  struct.pack_I z = Ok b -> (0 <= z < 2^32)%Z /\ b = be32 (Z.to_N z).
Proof.
  unfold struct.pack_I.
  destruct (Z.leb_spec 0 z), (Z.ltb_spec z (2^32)); cbn [andb]; try done.
  by intros [= <-].
Qed.

Lemma pack_I_len n : n < 2^32 -> struct.pack_I (Z.of_N n) = Ok (be32 n).
Proof.
  intros Hn. unfold struct.pack_I.
  destruct (Z.leb_spec 0 (Z.of_N n)); [|lia].
  destruct (Z.ltb_spec (Z.of_N n) (2^32)); [|lia].
  cbn [andb]. by rewrite N2Z.id.
Qed.

Lemma pack_I_len_inv n b :
  struct.pack_I (Z.of_N n) = Ok b -> n < 2^32 /\ b = be32 n.
Proof. intros [? ->]%pack_I_inv. rewrite N2Z.id. split; [lia|done]. Qed.

Lemma pack_1sIs_inv code s out :
  struct.pack_1sIs code (len s) s = Ok out -> framed code s out.
Proof.
  unfold struct.pack_1sIs.
  destruct (struct.pack_I _) as [hdr|] eqn:E; [|done].
  apply pack_I_len_inv in E as [? ->]. by intros [= <-].
Qed.

Lemma pack_1sIs_framed code s :
  len s < 2^32 -> struct.pack_1sIs code (len s) s = Ok (code :: be32 (len s) ++ s).
Proof. intros Hs. unfold struct.pack_1sIs. by rewrite pack_I_len. Qed.

Lemma framed_length code payload frame :
  framed code payload frame -> length frame = (5 + length payload)%nat.
Proof. intros [-> _]. reflexivity. Qed.

Lemma unpack_I_rest_be32 n rest :
  n < 2^32 -> struct.unpack_I_rest (be32 n ++ rest) = Ok (n, rest).
Proof.
  intros (b0 & b1 & b2 & b3 & -> & <-)%be32_value_be32. reflexivity.
Qed.

Lemma unpack_ns_rest_app (s rest : bytes) :
  struct.unpack_ns_rest (len s) (s ++ rest) = Ok (s, rest).
Proof.
  unfold struct.unpack_ns_rest.
  destruct (N.leb_spec (len s) (len (s ++ rest))) as [_|H].
  - unfold len. rewrite Nat2N.id, take_app_length, drop_app_length. done.
  - rewrite len_app in H. lia.
Qed.

Lemma unpack_I_rest_error d e : struct.unpack_I_rest d = Err e -> e = StructError.
Proof. destruct d as [|? [|? [|? [|? ?]]]]; by intros [= <-]. Qed.

Lemma unpack_1sI_rest_error d e :
  struct.unpack_1sI_rest d = Err e -> e = StructError.
Proof. destruct d as [|? [|? [|? [|? [|? ?]]]]]; by intros [= <-]. Qed.

Lemma unpack_ns_rest_error n d e :
  struct.unpack_ns_rest n d = Err e -> e = StructError.
Proof. unfold struct.unpack_ns_rest. destruct (_ <=? _); by intros [= <-]. Qed.

Section CodecFacts.
Context {Obj : Type} {packable : Packable Obj} {decimal_text : DecimalText}.
Context (globals : gmap pystr (handler Obj)).
Implicit Types (v : value Obj) (inject : gmap pystr (handler Obj)).

Lemma pack_framed v out :
  pack v = Ok out -> exists code payload, framed code payload out.
Proof.
  destruct v; cbn [pack is_serializable tressa];
    repeat match goal with
    | |- context [match ?e with Ok _ => _ | Err _ => _ end] =>
        destruct e eqn:?; [|done]
    end;
    try (intros ?%pack_1sIs_inv; by eauto).
  - (* int *)
    unfold struct.pack_1sII.
    destruct (struct.pack_I (Z.of_N 4)) as [hdr|] eqn:E1; [|done].
    destruct (struct.pack_I n) as [body|] eqn:E2; [|done].
    apply pack_I_len_inv in E1 as [_ ->]. apply pack_I_inv in E2 as [_ ->].
    intros [= <-]. exists "i"%byte, (be32 (Z.to_N n)). by split.
  - (* bool *)
    unfold struct.pack_1sIbool.
    destruct (struct.pack_I (Z.of_N 1)) as [hdr|] eqn:E1; [|done].
    apply pack_I_len_inv in E1 as [_ ->].
    intros [= <-]. exists "B"%byte, [if b then x01 else x00]. by split.
  - (* float *)
    unfold struct.pack_1sId.
    destruct (struct.pack_I (Z.of_N 8)) as [hdr|] eqn:E1; [|done].
    apply pack_I_len_inv in E1 as [_ ->]. destruct x.
    intros [= <-]. exists "f"%byte, [b0; b1; b2; b3; b4; b5; b6; b7]. by split.
  - (* None *)
    unfold struct.pack_1sI.
    destruct (struct.pack_I (Z.of_N 0)) as [hdr|] eqn:E1; [|done].
    apply pack_I_len_inv in E1 as [_ ->].
    intros [= <-]. exists "n"%byte, []. by split.
  - done.
Qed.

(** ** The loop over the frames of a container, and the fuel *)

Lemma unpack_ns_rest_length n (data a b : bytes) :
  struct.unpack_ns_rest n data = Ok (a, b) ->
  length a = N.to_nat n /\ (length a + length b = length data)%nat.
Proof.
  unfold struct.unpack_ns_rest, len.
  destruct (N.leb_spec n (N.of_nat (length data))); [|done].
  intros [= <- <-]. rewrite length_take, length_drop. lia.
Qed.

(** Two recursive calls that agree on every frame no longer than
    [let_data] give the same loop, whatever the rounds allowed, as long as
    there is one round per byte. *)
Lemma unpack_items_ext (rec1 rec2 : bytes -> result (value Obj)) :
  forall k1 k2 let_data items,
    (forall item, (length item <= length let_data)%nat -> rec1 item = rec2 item) ->
    (length let_data <= k1)%nat -> (length let_data <= k2)%nat ->
    unpack_items rec1 k1 let_data items = unpack_items rec2 k2 let_data items.
Proof.
  induction k1 as [|k1 IH]; intros k2 let_data items Hrec H1 H2.
  - destruct let_data; [|cbn in H1; lia]. by destruct k2.
  - destruct let_data as [|c let_data]; [by destruct k2|].
    destruct k2 as [|k2]; [cbn in H2; lia|].
    cbn [unpack_items].
    destruct (struct.unpack_1sI_rest (c :: let_data)) as [[[? item_len] ?]|];
      [|done].
    destruct (struct.unpack_ns_rest _ _) as [[item rest]|] eqn:E; [|done].
    apply unpack_ns_rest_length in E as [E1 E2].
    rewrite (Hrec item) by lia. destruct (rec2 item) as [v|]; [|done].
    cbn [length] in *. apply IH; [|lia..].
    intros item' ?. apply Hrec. cbn [length]. lia.
Qed.

(** More fuel than the input has bytes never changes the result. *)
Lemma unpack_fuel_ext inject :
  forall n m data,
    (length data < n)%nat -> (length data < m)%nat ->
    unpack_fuel globals n data inject = unpack_fuel globals m data inject.
Proof.
  induction n as [|n IH]; intros m data Hn Hm; [lia|].
  destruct m as [|m]; [lia|].
  cbn [unpack_fuel].
  destruct data as [|code data]; [done|]. cbn [struct.unpack_1s_rest].
  cbn [length] in Hn, Hm.
  repeat case_bool_decide; try done.
  all: destruct (struct.unpack_I_rest data) as [[let_len data']|] eqn:E1;
    [|done].
  all: destruct (struct.unpack_ns_rest let_len data') as [[let_data ?]|] eqn:E2;
    [|done].
  all: apply unpack_ns_rest_length in E2 as [_ E2].
  all: assert (length data' <= length data)%nat
    by (destruct data as [|? [|? [|? [|? ?]]]]; try done;
        injection E1 as _ <-; cbn [length]; lia).
  all: rewrite (unpack_items_ext (fun item => unpack_fuel globals n item inject)
                  (fun item => unpack_fuel globals m item inject)
                  (length let_data) (length let_data)); [done| |done..].
  all: intros item ?; apply IH; lia.
Qed.

Lemma unpack_fuel_stable inject fuel data :
  (length data < fuel)%nat ->
  unpack_fuel globals fuel data inject = unpack globals data inject.
Proof. intros. apply unpack_fuel_ext; lia. Qed.

Lemma unpack_items_step (rec : bytes -> result (value Obj)) rounds let_data items :
  let_data <> [] ->
  unpack_items rec (S rounds) let_data items =
    (header <- struct.unpack_1sI_rest let_data ;;
     let '(_, item_len, _) := header in
     parts <- struct.unpack_ns_rest (5 + item_len) let_data ;;
     let '(item, let_data) := parts in
     v <- rec item ;;
     unpack_items rec rounds let_data (items ++ [v])).
Proof. by destruct let_data. Qed.

(** The loop reads back the frames it is given, one value per frame. *)
Lemma unpack_items_frames (rec : bytes -> result (value Obj)) fs vs :
  Forall2 (fun f v => (exists code payload, framed code payload f)
                      /\ rec f = Ok v) fs vs ->
  forall rounds items,
    (length (concat fs) <= rounds)%nat ->
    unpack_items rec rounds (concat fs) items = Ok (items ++ vs).
Proof.
  induction 1 as [|f v fs vs [(code & payload & Hf & Hlen) Hv] _ IH];
    intros rounds items Hr.
  - cbn [concat]. destruct rounds; cbn; by rewrite app_nil_r.
  - cbn [concat] in *. rewrite length_app in Hr.
    pose proof (framed_length _ _ _ (conj Hf Hlen)) as Hl.
    destruct rounds as [|rounds]; [lia|].
    assert (struct.unpack_1sI_rest (f ++ concat fs)
            = Ok (code, len payload, payload ++ concat fs)) as E1.
    { rewrite Hf. destruct (be32_value_be32 _ Hlen) as (?&?&?&?& -> & <-).
      reflexivity. }
    assert (5 + len payload = len f) as E2.
    { unfold len. rewrite Hl. lia. }
    rewrite unpack_items_step, E1, E2, unpack_ns_rest_app, Hv.
    2: { intros Ef. apply (f_equal length) in Ef. rewrite length_app in Ef.
         cbn in Ef. lia. }
    rewrite IH by lia. by rewrite <- app_assoc.
Qed.

(** ** The fuel is never used up *)

Lemma set_of_error (items s : list (value Obj)) e :
  set_of s items = Err e -> e = TypeError.
Proof.
  revert s. induction items as [|x items IH]; intros s; cbn [set_of]; [done|].
  destruct (hashable x); [apply IH|by intros [= <-]].
Qed.

Lemma getitem_error (x : value Obj) i e :
  getitem x i = Err e -> e <> OutOfFuel.
Proof.
  destruct x; cbn [getitem];
    repeat match goal with
      | |- context [match ?o with Some _ => _ | None => _ end] => destruct o
      end; by intros [= <-].
Qed.

Lemma dict_of_error (items : list (value Obj)) d e :
  dict_of d items = Err e -> e <> OutOfFuel.
Proof.
  revert d. induction items as [|x items IH]; intros d; cbn [dict_of]; [done|].
  destruct (getitem x 0) eqn:E0; [|intros [= <-]; by eapply getitem_error].
  destruct (getitem x 1) eqn:E1; [|intros [= <-]; by eapply getitem_error].
  destruct (hashable _); [apply IH|by intros [= <-]].
Qed.

Lemma unpack_items_enough (rec : bytes -> result (value Obj)) :
  forall rounds let_data items,
    (forall item, (length item <= length let_data)%nat -> rec item <> Err OutOfFuel) ->
    (length let_data <= rounds)%nat ->
    unpack_items rec rounds let_data items <> Err OutOfFuel.
Proof.
  induction rounds as [|rounds IH]; intros let_data items Hrec Hr.
  - destruct let_data; [done|cbn in Hr; lia].
  - destruct let_data as [|c let_data]; [done|]. cbn [unpack_items].
    destruct (struct.unpack_1sI_rest (c :: let_data)) as [[[? item_len] ?]|] eqn:E;
      [|by intros [= ->]; apply unpack_1sI_rest_error in E].
    destruct (struct.unpack_ns_rest _ _) as [[item rest]|] eqn:E2;
      [|by intros [= ->]; apply unpack_ns_rest_error in E2].
    apply unpack_ns_rest_length in E2 as [E1 E2].
    destruct (rec item) as [v|e] eqn:Ev.
    2: { intros [= ->]. apply (Hrec item); [lia|done]. }
    cbn [length] in *. apply IH; [|lia].
    intros item' ?. apply Hrec. cbn [length]. lia.
Qed.

(** With one unit of fuel per byte, and decoders outside the codec that do
    not raise [OutOfFuel] themselves, [unpack_fuel] does not either. *)
Lemma unpack_fuel_enough inject :
  (forall s, Decimal_new s <> Err OutOfFuel) ->
  (forall name cls cls_unpack body,
     (inject ∪ globals) !! name = Some cls -> h_unpack cls = Some cls_unpack ->
     cls_unpack body <> Err OutOfFuel) ->
  forall fuel data,
    (length data < fuel)%nat ->
    unpack_fuel globals fuel data inject <> Err OutOfFuel.
Proof.
  intros Hdec Hcls. induction fuel as [|fuel IH]; intros data Hfuel; [lia|].
  cbn [unpack_fuel].
  destruct data as [|code data]; [done|]. cbn [struct.unpack_1s_rest].
  cbn [length] in Hfuel.
  destruct (bool_decide (code = "p"%byte)).
  { (* extension *)
    destruct (struct.unpack_I_rest data) as [[packed_len data']|] eqn:E1;
      [|by intros [= ->]; apply unpack_I_rest_error in E1].
    destruct (struct.unpack_ns_rest _ _) as [[packed ?]|] eqn:E2;
      [|by intros [= ->]; apply unpack_ns_rest_error in E2].
    destruct (partition _ packed) as [packed_class packed_data].
    destruct (utf8.decode packed_class) as [s|] eqn:E3;
      [|by intros [= ->]; apply utf8_decode_error in E3].
    destruct (fromhex s) as [raw|] eqn:E4;
      [|by intros [= ->]; apply fromhex_error in E4].
    destruct (utf8.decode raw) as [name|] eqn:E5;
      [|by intros [= ->]; apply utf8_decode_error in E5].
    destruct ((inject ∪ globals) !! name) as [cls|] eqn:E6.
    2: { rewrite bool_decide_false; [done|]. by intros [??]. }
    rewrite bool_decide_true by eauto. cbn [tressa].
    destruct (h_unpack cls) as [cls_unpack|] eqn:E7.
    2: { rewrite bool_decide_false; [done|]. by intros [??]. }
    rewrite bool_decide_true by eauto. cbn [tressa].
    destruct (cls_unpack packed_data) eqn:E8; [done|].
    intros [= ->]. by eapply Hcls. }
  destruct (bool_decide (code ∈ ["l"; "e"; "t"; "d"]%byte)).
  { (* containers *)
    destruct (struct.unpack_I_rest data) as [[let_len data']|] eqn:E1;
      [|by intros [= ->]; apply unpack_I_rest_error in E1].
    destruct (struct.unpack_ns_rest _ _) as [[let_data ?]|] eqn:E2;
      [|by intros [= ->]; apply unpack_ns_rest_error in E2].
    apply unpack_ns_rest_length in E2 as [_ E2].
    assert (length data' <= length data)%nat
      by (destruct data as [|? [|? [|? [|? ?]]]]; try done;
          injection E1 as _ <-; cbn [length]; lia).
    destruct (unpack_items _ _ _ _) as [items|e] eqn:E3.
    2: { intros [= ->]. revert E3. apply unpack_items_enough; [|done].
         intros item ?. apply IH. lia. }
    destruct (bool_decide (code = "l"%byte)); [done|].
    destruct (bool_decide (code = "e"%byte)).
    { destruct (set_of [] items) eqn:E4; [done|].
      intros [= ->]. by apply set_of_error in E4. }
    destruct (bool_decide (code = "t"%byte)); [done|].
    destruct (dict_of [] items) eqn:E4; [done|].
    intros [= ->]. by apply dict_of_error in E4. }
  destruct (bool_decide (code ∈ ["b"; "a"]%byte)).
  { destruct (struct.unpack_I_rest data) as [[bt_len data']|] eqn:E1;
      [|by intros [= ->]; apply unpack_I_rest_error in E1].
    destruct (struct.unpack_ns_rest _ _) as [[bt_data ?]|] eqn:E2;
      [done|by intros [= ->]; apply unpack_ns_rest_error in E2]. }
  destruct (bool_decide (code = "s"%byte)).
  { destruct (struct.unpack_I_rest data) as [[s_len data']|] eqn:E1;
      [|by intros [= ->]; apply unpack_I_rest_error in E1].
    destruct (struct.unpack_ns_rest _ _) as [[s ?]|] eqn:E2;
      [|by intros [= ->]; apply unpack_ns_rest_error in E2].
    destruct (utf8.decode s) eqn:E3; [done|].
    by intros [= ->]; apply utf8_decode_error in E3. }
  destruct (bool_decide (code = "i"%byte)).
  { by destruct data as [|? [|? [|? [|? [|? [|? [|? [|? ?]]]]]]]]. }
  destruct (bool_decide (code = "B"%byte)).
  { by destruct data as [|? [|? [|? [|? [|? [|? ?]]]]]]. }
  destruct (bool_decide (code = "f"%byte)).
  { by destruct data
      as [|? [|? [|? [|? [|? [|? [|? [|? [|? [|? [|? [|? ?]]]]]]]]]]]]. }
  destruct (bool_decide (code = "D"%byte)).
  { destruct (struct.unpack_I_rest data) as [[s_len data']|] eqn:E1;
      [|by intros [= ->]; apply unpack_I_rest_error in E1].
    destruct (struct.unpack_ns_rest _ _) as [[s ?]|] eqn:E2;
      [|by intros [= ->]; apply unpack_ns_rest_error in E2].
    destruct (utf8.decode s) as [s'|] eqn:E3;
      [|by intros [= ->]; apply utf8_decode_error in E3].
    destruct (Decimal_new s') eqn:E4; [done|].
    intros [= ->]. by eapply Hdec. }
  by destruct (bool_decide (code = "n"%byte)).
Qed.

Lemma unpack_enough inject data :
  (forall s, Decimal_new s <> Err OutOfFuel) ->
  (forall name cls cls_unpack body,
     (inject ∪ globals) !! name = Some cls -> h_unpack cls = Some cls_unpack ->
     cls_unpack body <> Err OutOfFuel) ->
  unpack globals data inject <> Err OutOfFuel.
Proof. intros. apply unpack_fuel_enough; auto. Qed.

(** ** Lists: [traverse], [distinct], [set] and [dict] *)

Lemma forallb_Forall {A} (f : A -> bool) l :
  forallb f l = true <-> Forall (fun x => f x = true) l.
Proof.
  induction l as [|x l IH]; cbn [forallb].
  - split; [constructor|done].
  - rewrite andb_true_iff, IH. split.
    + intros [??]. by constructor.
    + by inversion 1.
Qed.

Lemma traverse_Forall2 {A B} (f : A -> result B) l ys :
  traverse f l = Ok ys <-> Forall2 (fun x y => f x = Ok y) l ys.
Proof.
  revert ys. induction l as [|x l IH]; intros ys; cbn [traverse].
  - split; [intros [= <-]; constructor|by inversion 1].
  - split.
    + destruct (f x) as [y|] eqn:E; [|done].
      destruct (traverse f l) as [ys'|] eqn:E'; [|done].
      intros [= <-]. constructor; [done|]. by apply IH.
    + inversion 1 as [|? y ? ys' Hx Hl]; subst. rewrite Hx.
      apply IH in Hl. fold (traverse f). by rewrite Hl.
Qed.

Lemma restorable_list inject (l : list (value Obj)) :
  restorable inject (VList l) <-> Forall (restorable inject) l.
Proof.
  cbn [restorable]. induction l as [|x l IH].
  - split; [constructor|done].
  - rewrite IH. split; [intros [??]; by constructor|by inversion 1].
Qed.

Lemma restorable_entries inject (d : list (value Obj * value Obj)) :
  restorable inject (VDict d)
  <-> Forall (fun e => restorable inject e.1 /\ restorable inject e.2) d.
Proof.
  cbn [restorable]. induction d as [|[k x] d IH].
  - split; [constructor|done].
  - rewrite IH. split; [intros (?&?&?); by constructor|].
    inversion 1 as [|?? [??] ?]; subst. done.
Qed.

Lemma differ_sym x y : differ x y -> differ y x.
Proof. intros [??]. by split. Qed.

Lemma distinct_cons x (l : list (value Obj)) :
  distinct (x :: l) = true <-> Forall (differ x) l /\ distinct l = true.
Proof.
  cbn [distinct]. rewrite andb_true_iff, forallb_Forall.
  assert (Forall (fun y => negb (py_eq x y) && negb (py_eq y x) = true) l
          <-> Forall (differ x) l) as ->; [|done].
  apply Forall_iff. intros y. unfold differ.
  rewrite andb_true_iff, !negb_true_iff. done.
Qed.

Lemma distinct_Permutation (l l' : list (value Obj)) :
  Permutation l l' -> distinct l = true -> distinct l' = true.
Proof.
  induction 1 as [|x l l' Hp IH|x y l|l1 l2 l3 _ IH1 _ IH2]; [done|..].
  - rewrite !distinct_cons. intros [Hx Hl]. split; [|by apply IH].
    by rewrite <- Hp.
  - rewrite !distinct_cons.
    intros [[Hyx Hy]%Forall_cons [Hx Hl]].
    repeat split; try done. constructor; [by apply differ_sym|done].
  - intros. by apply IH2, IH1.
Qed.

Lemma distinct_snoc (s : list (value Obj)) x :
  distinct (s ++ [x]) = true
  <-> distinct s = true /\ Forall (fun y => differ y x) s.
Proof.
  induction s as [|y s IH]; cbn [app].
  - rewrite distinct_cons. split; [by intros _|by intros _; split].
  - rewrite !distinct_cons, IH, Forall_app, Forall_singleton, Forall_cons.
    tauto.
Qed.

(** A hashable, new element goes to the end of the set. *)
Lemma set_of_distinct (l s : list (value Obj)) :
  forallb hashable l = true -> distinct (s ++ l) = true ->
  set_of s l = Ok (s ++ l).
Proof.
  revert s. induction l as [|x l IH]; intros s Hh Hd; cbn [set_of].
  - by rewrite app_nil_r.
  - cbn [forallb] in Hh. apply andb_true_iff in Hh as [-> Hh].
    replace (s ++ x :: l) with ((s ++ [x]) ++ l) in * by by rewrite <- app_assoc.
    assert (set_add s x = s ++ [x]) as ->; [|by apply IH].
    unfold set_add.
    assert (distinct (s ++ [x]) = true) as [_ Hs]%distinct_snoc.
    { apply (distinct_Permutation _ _ (Permutation_app_comm _ _)) in Hd.
      clear -Hd. induction l as [|y l IHl]; [done|].
      apply IHl. cbn [app] in Hd. by apply distinct_cons in Hd as [_ ?]. }
    assert (existsb (fun y => py_eq y x) s = false) as ->; [|done].
    clear -Hs. induction Hs as [|y s [Hy _] _ IHs]; [done|].
    cbn [existsb]. by rewrite Hy.
Qed.

Lemma dict_set_new (d : list (value Obj * value Obj)) k x :
  Forall (fun k' => differ k' k) (map fst d) ->
  dict_set d k x = d ++ [(k, x)].
Proof.
  induction d as [|[k' x'] d IH]; [done|].
  cbn [map fst]. intros [[Hk _] Hd]%Forall_cons.
  cbn [dict_set app]. rewrite Hk. by rewrite IH.
Qed.

(** Pairs with hashable, pairwise different keys become the entries of the
    dict, in their order. *)
Lemma dict_of_distinct (l d : list (value Obj * value Obj)) :
  forallb hashable (map fst l) = true ->
  distinct (map fst (d ++ l)) = true ->
  dict_of d (map pair_of l) = Ok (d ++ l).
Proof.
  revert d. induction l as [|[k x] l IH]; intros d Hh Hd; cbn [map dict_of].
  - by rewrite app_nil_r.
  - cbn [map fst forallb] in Hh. apply andb_true_iff in Hh as [Hk Hh].
    cbn [pair_of getitem fst snd lookup list_lookup]. rewrite Hk.
    replace (d ++ (k, x) :: l) with ((d ++ [(k, x)]) ++ l) in *
      by by rewrite <- app_assoc.
    rewrite dict_set_new; [by apply IH|].
    rewrite map_app in Hd.
    apply (distinct_Permutation _ _ (Permutation_app_comm _ _)) in Hd.
    assert (distinct (map fst (d ++ [(k, x)])) = true) as Hd'.
    { clear -Hd. induction (map fst l) as [|y l' IHl]; [done|].
      apply IHl. cbn [app] in Hd. by apply distinct_cons in Hd as [_ ?]. }
    rewrite map_app in Hd'. by apply distinct_snoc in Hd' as [_ ?].
Qed.

(** ** Reading back what [pack] wrote *)

Lemma p_not_container : "p"%byte ∉ ["l"; "e"; "t"; "d"]%byte.
Proof.
  rewrite !elem_of_cons, elem_of_nil. intros [?|[?|[?|[?|[]]]]]; discriminate.
Qed.

Lemma unpack_fuel_container inject fuel code fs vs frame :
  code ∈ ["l"; "e"; "t"; "d"]%byte ->
  framed code (concat fs) frame ->
  Forall2 (fun f v => (exists c p, framed c p f)
                      /\ unpack_fuel globals fuel f inject = Ok v) fs vs ->
  unpack_fuel globals (S fuel) frame inject = container_of code vs.
Proof.
  intros Hcode [-> Hlen] Hfs.
  cbn [unpack_fuel struct.unpack_1s_rest].
  assert (code <> "p"%byte) by (intros ->; by destruct p_not_container).
  rewrite bool_decide_false, (bool_decide_true _ Hcode) by done.
  rewrite unpack_I_rest_be32 by done.
  rewrite <- (app_nil_r (concat fs)) at 2.
  rewrite unpack_ns_rest_app.
  rewrite (unpack_items_frames _ _ _ Hfs) by done.
  reflexivity.
Qed.

Lemma Forall2_same_refl (l : list (value Obj)) : Forall2 same l l.
Proof. induction l; constructor; [apply same_refl|done]. Qed.

(** A hashable value holds no dict, so [same] is equality on it. *)
Lemma same_hashable v : forall v', hashable v = true -> same v' v -> v' = v.
Proof.
  induction v as [| | |items IH| | | | | | | | | |] using value_induction;
    intros v' Hh Hs;
    inversion Hs as [l' l0 Hl|l' l0 Hl| |]; subst; try done.
  f_equal. cbn [hashable] in Hh. apply forallb_Forall in Hh.
  clear Hs. revert l' Hl.
  induction items as [|x items IHitems]; intros l' Hl.
  - by inversion Hl.
  - inversion Hl as [|x' ? l'' ? Hx Hl']; subst.
    apply Forall_cons in IH as [Hx1 Hx2]. apply Forall_cons in Hh as [Hh1 Hh2].
    f_equal; [by apply Hx1|by apply IHitems].
Qed.

Lemma reads_back_items inject l frames :
  Forall2 (fun x f => pack x = Ok f) l frames ->
  Forall (reads_back globals inject) l ->
  Forall (fun x => well_formed x = true) l ->
  Forall (restorable inject) l ->
  forall fuel, (length (concat frames) < fuel)%nat ->
  exists l',
    Forall2 (fun f v' => (exists c p, framed c p f)
                          /\ unpack_fuel globals fuel f inject = Ok v')
      frames l'
    /\ Forall2 same l' l.
Proof.
  induction 1 as [|x f l frames Hx _ IH]; intros HP Hwf Hre fuel Hfuel.
  - exists []. split; constructor.
  - apply Forall_cons in HP as [HPx HP]. apply Forall_cons in Hwf as [Hwfx Hwf].
    apply Forall_cons in Hre as [Hrex Hre].
    cbn [concat] in Hfuel. rewrite length_app in Hfuel.
    destruct (HPx Hwfx Hrex f Hx fuel) as (x' & Hx' & Hs); [lia|].
    destruct (IH HP Hwf Hre fuel) as (l' & Hl' & Hsl); [lia|].
    exists (x' :: l'). split; constructor; try done.
    split; [by eapply pack_framed|done].
Qed.

Lemma reads_back_entries inject d frames :
  Forall2 entry_frame d frames ->
  Forall (fun e => reads_back globals inject e.1 /\ reads_back globals inject e.2) d ->
  Forall (fun e => well_formed e.1 = true /\ well_formed e.2 = true) d ->
  Forall (fun e => restorable inject e.1 /\ restorable inject e.2) d ->
  Forall (fun e => hashable e.1 = true) d ->
  forall fuel, (length (concat frames) < fuel)%nat ->
  exists d',
    Forall2 (fun f v' => (exists c p, framed c p f)
                          /\ unpack_fuel globals fuel f inject = Ok v')
      frames (map pair_of d')
    /\ Forall2 (fun e' e => e'.1 = e.1 /\ same e'.2 e.2) d' d.
Proof.
  induction 1 as [|[k x] f d frames (fk & fx & Hk & Hx & Hf) _ IH];
    intros HP Hwf Hre Hh fuel Hfuel.
  - exists []. split; constructor.
  - apply Forall_cons in HP as [[HPk HPx] HP].
    apply Forall_cons in Hwf as [[Hwfk Hwfx] Hwf].
    apply Forall_cons in Hre as [[Hrek Hrex] Hre].
    apply Forall_cons in Hh as [Hhk Hh]. cbn [fst snd] in *.
    cbn [concat] in Hfuel. rewrite length_app in Hfuel.
    pose proof (framed_length _ _ _ Hf) as Hlen.
    cbn [concat] in Hlen. rewrite !length_app in Hlen. cbn [length] in Hlen.
    destruct fuel as [|fuel]; [lia|].
    destruct (HPk Hwfk Hrek fk Hk fuel) as (k' & Hk' & Hsk); [lia|].
    destruct (HPx Hwfx Hrex fx Hx fuel) as (x' & Hx' & Hsx); [lia|].
    apply same_hashable in Hsk as ->; [|done].
    destruct (IH HP Hwf Hre Hh (S fuel)) as (d' & Hd' & Hsd); [lia|].
    exists ((k, x') :: d'). split; [|by constructor].
    cbn [map]. constructor; [|done]. split; [by eauto|].
    rewrite (unpack_fuel_container inject fuel "t" [fk; fx] [k; x'] f);
      [done| |done|].
    + rewrite !elem_of_cons. auto.
    + repeat constructor; try done; by eapply pack_framed.
Qed.

Lemma pack_dict_frames (d : list (value Obj * value Obj)) frame :
  pack (VDict d) = Ok frame ->
  exists frames,
    Forall2 entry_frame d frames /\ framed "d" (concat (sorted frames)) frame.
Proof.
  cbn [pack is_serializable tressa].
  destruct (traverse _ d) as [frames|] eqn:E; [|done].
  intros Hf%pack_1sIs_inv. exists frames. split; [|done].
  apply traverse_Forall2 in E. eapply Forall2_impl; [exact E|].
  intros [k x] f. cbn beta iota.
  destruct (pack k) as [fk|] eqn:Ek; [|done].
  destruct (pack x) as [fx|] eqn:Ex; [|done].
  intros ?%pack_1sIs_inv. by exists fk, fx.
Qed.

Lemma well_formed_entries (d : list (value Obj * value Obj)) :
  well_formed (VDict d) = true ->
  Forall (fun e => well_formed e.1 = true /\ well_formed e.2 = true) d
  /\ Forall (fun e => hashable e.1 = true) d
  /\ distinct (map fst d) = true.
Proof.
  cbn [well_formed]. rewrite !andb_true_iff, !forallb_Forall, Forall_map.
  intros [[H1 H2] H3]. repeat split; try done.
  eapply Forall_impl; [exact H1|]. intros [k x]. by rewrite andb_true_iff.
Qed.

Lemma unpack_fuel_frame inject fuel code payload frame :
  framed code payload frame ->
  unpack_fuel globals (S fuel) frame inject
  = unpack_fuel globals (S fuel) (code :: be32 (len payload) ++ payload ++ []) inject.
Proof. intros [-> _]. by rewrite app_nil_r. Qed.

Lemma Forall2_same_hashable (l l' : list (value Obj)) :
  Forall (fun x => hashable x = true) l -> Forall2 same l' l -> l' = l.
Proof.
  intros Hh Hs. induction Hs as [|x' x l' l Hx _ IH]; [done|].
  apply Forall_cons in Hh as [Hhx Hh]. f_equal; [by apply same_hashable|auto].
Qed.

Lemma unpack_fuel_bytes_frame inject fuel data :
  unpack_fuel globals (S fuel) ("b"%byte :: data) inject
  = (parts <- struct.unpack_I_rest data ;;
     let '(bt_len, data) := parts in
     parts <- struct.unpack_ns_rest bt_len data ;;
     let '(bt_data, _) := parts in
     Ok (VBytes bt_data)).
Proof. reflexivity. Qed.

Lemma unpack_fuel_bytearray_frame inject fuel data :
  unpack_fuel globals (S fuel) ("a"%byte :: data) inject
  = (parts <- struct.unpack_I_rest data ;;
     let '(bt_len, data) := parts in
     parts <- struct.unpack_ns_rest bt_len data ;;
     let '(bt_data, _) := parts in
     Ok (VBytearray bt_data)).
Proof. reflexivity. Qed.

Lemma unpack_fuel_str_frame inject fuel data :
  unpack_fuel globals (S fuel) ("s"%byte :: data) inject
  = (parts <- struct.unpack_I_rest data ;;
     let '(s_len, data) := parts in
     parts <- struct.unpack_ns_rest s_len data ;;
     let '(s, _) := parts in
     s <- utf8.decode s ;; Ok (VStr s)).
Proof. reflexivity. Qed.

Lemma unpack_fuel_decimal_frame inject fuel data :
  unpack_fuel globals (S fuel) ("D"%byte :: data) inject
  = (parts <- struct.unpack_I_rest data ;;
     let '(s_len, data) := parts in
     parts <- struct.unpack_ns_rest s_len data ;;
     let '(s, _) := parts in
     s <- utf8.decode s ;;
     d <- Decimal_new s ;; Ok (VDecimal d)).
Proof. reflexivity. Qed.

Lemma unpack_fuel_int_frame inject fuel data :
  unpack_fuel globals (S fuel) ("i"%byte :: data) inject
  = (fields <- struct.unpack_II_rest data ;;
     let '(_, n, _) := fields in Ok (VInt (Z.of_N n))).
Proof. reflexivity. Qed.

(** [pack] takes the integers of 32 unsigned bits, and no other. *)
Lemma pack_int_inv (n : Z) frame :
  pack (VInt n : value Obj) = Ok frame ->
  (0 <= n < 2^32)%Z /\ frame = "i"%byte :: be32 4 ++ be32 (Z.to_N n).
Proof.
  cbn [pack is_serializable tressa]. unfold struct.pack_1sII.
  change (struct.pack_I (Z.of_N 4)) with (Ok (be32 4)).
  destruct (struct.pack_I n) as [body|] eqn:E; [|done].
  apply pack_I_inv in E as [? ->]. by intros [= <-].
Qed.

Lemma pack_int_accepts (n : Z) inject :
  (0 <= n < 2^32)%Z ->
  pack (VInt n : value Obj) = Ok ("i"%byte :: be32 4 ++ be32 (Z.to_N n))
  /\ unpack globals ("i"%byte :: be32 4 ++ be32 (Z.to_N n)) inject
     = Ok (VInt n).
Proof.
  intros Hn. split.
  - cbn [pack is_serializable tressa]. unfold struct.pack_1sII, struct.pack_I.
    destruct (Z.leb_spec 0 n), (Z.ltb_spec n (2^32)); try lia. done.
  - destruct (be32_value_be32 (Z.to_N n)) as (?&?&?&?& E & Ev); [lia|].
    rewrite E. unfold unpack. change (be32 4) with [x00; x00; x00; x04].
    cbn [app]. rewrite unpack_fuel_int_frame.
    cbn [struct.unpack_II_rest]. by rewrite Ev, Z2N.id by lia.
Qed.

Lemma pack_reads_back inject v : reads_back globals inject v.
Proof.
  induction v as [o|items IH|items IH|items IH|b|b|s|n|b|x|d|entries IH| |ty]
    using value_induction; intros Hwf Hre frame Hpack fuel Hfuel.
  - (* an extension instance *)
    destruct Hre as (_ & cls & cls_unpack & Hcls & Hun & Hinv).
    cbn [pack is_serializable tressa] in Hpack.
    destruct (utf8.encode (class_name o)) as [name|] eqn:En; [|done].
    destruct (utf8_encode_ascii _ (hex_ascii name)) as (packed & Ep & Hsep).
    rewrite Ep in Hpack.
    destruct (obj_pack o) as [body|] eqn:Eb; [|done].
    apply pack_1sIs_inv in Hpack as [-> Hlen].
    destruct fuel as [|fuel]; [cbn in Hfuel; lia|].
    exists (VPackable o). split; [|apply same_refl].
    cbn [unpack_fuel struct.unpack_1s_rest].
    rewrite bool_decide_true, unpack_I_rest_be32 by done.
    rewrite <- (app_nil_r (packed ++ _)) at 2. rewrite unpack_ns_rest_app.
    cbn [app]. rewrite partition_sep by done.
    rewrite (utf8_decode_encode _ _ Ep).
    rewrite fromhex_hex, (utf8_decode_encode _ _ En).
    rewrite (lookup_union_Some_l _ _ _ _ Hcls).
    rewrite bool_decide_true by eauto. cbn [tressa]. rewrite Hun.
    rewrite bool_decide_true by eauto. by rewrite (Hinv _ eq_refl).
  - (* list *)
    cbn [pack is_serializable tressa] in Hpack.
    destruct (traverse pack items) as [frames|] eqn:Et; [|done].
    apply pack_1sIs_inv in Hpack as Hf.
    pose proof (framed_length _ _ _ Hf) as Hlen.
    destruct fuel as [|fuel]; [lia|].
    apply traverse_Forall2 in Et.
    cbn [well_formed] in Hwf. apply forallb_Forall in Hwf.
    apply restorable_list in Hre.
    destruct (reads_back_items inject _ _ Et IH Hwf Hre fuel)
      as (l' & Hl' & Hs); [lia|].
    exists (VList l'). split; [|by constructor].
    rewrite (unpack_fuel_container inject fuel "l" frames l' frame); try done.
    rewrite !elem_of_cons. auto.
  - (* set *)
    cbn [pack is_serializable tressa] in Hpack.
    destruct (traverse pack items) as [frames|] eqn:Et; [|done].
    apply pack_1sIs_inv in Hpack as Hf.
    pose proof (framed_length _ _ _ Hf) as Hlen.
    destruct fuel as [|fuel]; [lia|].
    apply traverse_Forall2 in Et.
    cbn [well_formed] in Hwf.
    apply andb_true_iff in Hwf as [[Hwf Hh]%andb_true_iff Hd].
    apply forallb_Forall in Hwf.
    change (restorable inject (VList items)) in Hre.
    apply restorable_list in Hre.
    destruct (reads_back_items inject _ _ Et IH Hwf Hre fuel)
      as (l' & Hl' & Hs); [lia|].
    apply Forall2_same_hashable in Hs as ->; [|by apply forallb_Forall].
    exists (VSet items). split; [|apply same_refl].
    rewrite (unpack_fuel_container inject fuel "e" frames items frame);
      try done.
    + unfold container_of. cbn [bool_decide decide_rel].
      change (bool_decide ("e"%byte = "l"%byte)) with false.
      change (bool_decide ("e"%byte = "e"%byte)) with true. cbv iota.
      by rewrite (set_of_distinct items []).
    + rewrite !elem_of_cons. auto.
  - (* tuple *)
    cbn [pack is_serializable tressa] in Hpack.
    destruct (traverse pack items) as [frames|] eqn:Et; [|done].
    apply pack_1sIs_inv in Hpack as Hf.
    pose proof (framed_length _ _ _ Hf) as Hlen.
    destruct fuel as [|fuel]; [lia|].
    apply traverse_Forall2 in Et.
    cbn [well_formed] in Hwf. apply forallb_Forall in Hwf.
    change (restorable inject (VList items)) in Hre.
    apply restorable_list in Hre.
    destruct (reads_back_items inject _ _ Et IH Hwf Hre fuel)
      as (l' & Hl' & Hs); [lia|].
    exists (VTuple l'). split; [|by constructor].
    rewrite (unpack_fuel_container inject fuel "t" frames l' frame); try done.
    rewrite !elem_of_cons. auto.
  - (* bytes *)
    cbn [pack is_serializable tressa] in Hpack.
    apply pack_1sIs_inv in Hpack as [-> Hlen].
    destruct fuel as [|fuel]; [cbn in Hfuel; lia|].
    exists (VBytes b). split; [|apply same_refl].
    rewrite <- (app_nil_r b) at 2.
    rewrite unpack_fuel_bytes_frame, unpack_I_rest_be32 by done.
    by rewrite unpack_ns_rest_app.
  - (* bytearray *)
    cbn [pack is_serializable tressa] in Hpack.
    apply pack_1sIs_inv in Hpack as [-> Hlen].
    destruct fuel as [|fuel]; [cbn in Hfuel; lia|].
    exists (VBytearray b). split; [|apply same_refl].
    rewrite <- (app_nil_r b) at 2.
    rewrite unpack_fuel_bytearray_frame, unpack_I_rest_be32 by done.
    by rewrite unpack_ns_rest_app.
  - (* str *)
    cbn [pack is_serializable tressa] in Hpack.
    destruct (utf8.encode s) as [data|] eqn:Es; [|done].
    apply pack_1sIs_inv in Hpack as [-> Hlen].
    destruct fuel as [|fuel]; [cbn in Hfuel; lia|].
    exists (VStr s). split; [|apply same_refl].
    rewrite <- (app_nil_r data) at 2.
    rewrite unpack_fuel_str_frame, unpack_I_rest_be32 by done.
    by rewrite unpack_ns_rest_app, (utf8_decode_encode _ _ Es).
  - (* int *)
    cbn [pack is_serializable tressa] in Hpack.
    apply pack_int_inv in Hpack as [Hn ->].
    destruct fuel as [|fuel]; [cbn in Hfuel; lia|].
    exists (VInt n). split; [|apply same_refl].
    destruct (be32_value_be32 (Z.to_N n)) as (?&?&?&?& E & Ev); [lia|].
    rewrite E. change (be32 4) with [x00; x00; x00; x04].
    cbn [app]. rewrite unpack_fuel_int_frame.
    cbn [struct.unpack_II_rest]. rewrite Ev, Z2N.id by lia. done.
  - (* bool *)
    cbn [pack is_serializable tressa] in Hpack.
    injection Hpack as <-.
    destruct fuel as [|fuel]; [cbn in Hfuel; lia|].
    exists (VBool b). split; [|apply same_refl]. by destruct b.
  - (* float *)
    cbn [pack is_serializable tressa] in Hpack. destruct x.
    injection Hpack as <-.
    destruct fuel as [|fuel]; [cbn in Hfuel; lia|].
    eexists. split; [|apply same_refl]. reflexivity.
  - (* Decimal *)
    cbn [pack is_serializable tressa] in Hpack.
    destruct (utf8.encode (Decimal_str d)) as [data|] eqn:Es; [|done].
    apply pack_1sIs_inv in Hpack as [-> Hlen].
    destruct fuel as [|fuel]; [cbn in Hfuel; lia|].
    exists (VDecimal d). split; [|apply same_refl].
    rewrite <- (app_nil_r data) at 2.
    rewrite unpack_fuel_decimal_frame, unpack_I_rest_be32 by done.
    rewrite unpack_ns_rest_app, (utf8_decode_encode _ _ Es).
    cbn [restorable] in Hre. by rewrite Hre.
  - (* dict *)
    apply pack_dict_frames in Hpack as (frames & Hfr & Hf).
    pose proof (framed_length _ _ _ Hf) as Hlen.
    destruct fuel as [|fuel]; [lia|].
    apply well_formed_entries in Hwf as (Hwf & Hh & Hd).
    apply restorable_entries in Hre.
    (* the entries in the order of their sorted frames *)
    apply Forall2_flip in Hfr.
    destruct (Permutation_Forall2
                (Permutation_sym (merge_sort_Permutation bytes_le frames)) Hfr)
      as (d3 & Hperm & Hfr3).
    apply Forall2_flip in Hfr3.
    destruct (reads_back_entries inject d3 (sorted frames) Hfr3) with (fuel := fuel)
      as (d' & Hd' & Hs).
    { by rewrite <- Hperm. }
    { by rewrite <- Hperm. }
    { by rewrite <- Hperm. }
    { by rewrite <- Hperm. }
    { lia. }
    exists (VDict d'). split; [|by apply (same_dict d' d3)].
    rewrite (unpack_fuel_container inject fuel "d" (sorted frames)
               (map pair_of d') frame); try done.
    + unfold container_of.
      change (bool_decide ("d"%byte = "l"%byte)) with false.
      change (bool_decide ("d"%byte = "e"%byte)) with false.
      change (bool_decide ("d"%byte = "t"%byte)) with false. cbv iota.
      assert (map fst d' = map fst d3) as Hkeys.
      { clear -Hs. induction Hs as [|?????]; [done|]. cbn [map]. f_equal; tauto. }
      rewrite (dict_of_distinct d' []); [done|..]; cbn [app]; rewrite Hkeys.
      * apply forallb_Forall, Forall_map. by rewrite <- Hperm.
      * eapply distinct_Permutation; [|exact Hd]. by apply Permutation_map.
    + rewrite !elem_of_cons. auto.
  - (* None *)
    cbn [pack is_serializable tressa] in Hpack. injection Hpack as <-.
    destruct fuel as [|fuel]; [cbn in Hfuel; lia|].
    exists VNone. split; [|apply same_refl]. reflexivity.
  - done.
Qed.

(** ** [same] values are equal for Python *)

Lemma number_eqb_refl x : is_nan x = false -> number_eqb x x = true.
Proof.
  destruct x as [|s|m e2 e10]; cbn [is_nan number_eqb]; [done|by destruct s|].
  intros _. apply Z.eqb_refl.
Qed.

Lemma list_eqb_Forall2 {A} (eq : A -> A -> bool) l' l :
  Forall2 (fun x' x => eq x' x = true) l' l -> list_eqb eq l' l = true.
Proof.
  induction 1 as [|x' x l' l Hx _ IH]; [done|].
  cbn [list_eqb]. rewrite Hx. exact IH.
Qed.

Lemma nan_free_entries (d : list (value Obj * value Obj)) :
  nan_free (VDict d) = true ->
  Forall (fun e => nan_free e.1 = true /\ nan_free e.2 = true) d.
Proof.
  cbn [nan_free]. rewrite forallb_Forall. intros Hd.
  eapply Forall_impl; [exact Hd|]. intros [k x]. by rewrite andb_true_iff.
Qed.

Lemma serializable_entries (d : list (value Obj * value Obj)) :
  serializable (VDict d) = true ->
  Forall (fun e => serializable e.1 = true /\ serializable e.2 = true) d.
Proof.
  cbn [serializable]. rewrite forallb_Forall. intros Hd.
  eapply Forall_impl; [exact Hd|]. intros [k x]. by rewrite andb_true_iff.
Qed.

(** Looking a key up among pairwise different keys finds its own entry. *)
Lemma find_key (d : list (value Obj * value Obj)) k x :
  distinct (map fst d) = true -> (k, x) ∈ d -> py_eq k k = true ->
  find (fun '(k', _) => py_eq k k') d = Some (k, x).
Proof.
  induction d as [|[k0 x0] d IH]; intros Hd Hin Hk; [by inversion Hin|].
  cbn [map fst] in Hd. apply distinct_cons in Hd as [Hk0 Hd].
  cbn [find]. apply elem_of_cons in Hin as [[= <- <-]|Hin].
  - by rewrite Hk.
  - assert (differ k0 k) as [_ ->]; [|by apply IH].
    rewrite Forall_forall in Hk0. apply Hk0.
    apply list_elem_of_fmap. by exists (k, x).
Qed.

Lemma equal_when_same_items inject l' l :
  Forall2 same l' l ->
  Forall (equal_when_same inject) l ->
  forallb serializable l = true ->
  forallb well_formed l = true -> forallb nan_free l = true ->
  restorable inject (VList l) ->
  list_eqb py_eq l' l = true.
Proof.
  rewrite !forallb_Forall, restorable_list.
  intros Hs IH Hser Hwf Hnan Hre. apply list_eqb_Forall2.
  induction Hs as [|x' x l' l Hx _ IHl]; [constructor|].
  apply Forall_cons in IH as [? ?]. apply Forall_cons in Hwf as [? ?].
  apply Forall_cons in Hser as [? ?].
  apply Forall_cons in Hnan as [? ?]. apply Forall_cons in Hre as [? ?].
  constructor; auto.
Qed.

Lemma same_py_eq inject v : equal_when_same inject v.
Proof.
  induction v as [o|items IH|items IH|items IH|b|b|s|n|b|x|d|entries IH| |ty]
    using value_induction; intros v' Hs Hser Hwf Hnan Hre.
  - inversion Hs; subst. cbn [py_eq]. by destruct Hre.
  - assert (exists l', v' = VList l' /\ Forall2 same l' items) as (l' & -> & Hl).
    { inversion Hs; subst; eauto using Forall2_same_refl. }
    cbn [py_eq]. by apply (equal_when_same_items inject).
  - inversion Hs; subst. cbn [py_eq well_formed nan_free serializable] in *.
    rewrite Nat.eqb_refl. cbn [andb].
    apply andb_true_iff in Hwf as [[Hwf _]%andb_true_iff _].
    change (restorable inject (VList items)) in Hre.
    rewrite forallb_Forall in *. rewrite restorable_list in Hre.
    rewrite Forall_forall in *. intros x Hx.
    apply existsb_exists. exists x. split; [by apply list_elem_of_In|].
    apply (IH x Hx x (same_refl x)); auto.
  - assert (exists l', v' = VTuple l' /\ Forall2 same l' items) as (l' & -> & Hl).
    { inversion Hs; subst; eauto using Forall2_same_refl. }
    cbn [py_eq]. by apply (equal_when_same_items inject).
  - inversion Hs; subst. cbn [py_eq]. by apply bool_decide_eq_true.
  - inversion Hs; subst. cbn [py_eq]. by apply bool_decide_eq_true.
  - inversion Hs; subst. cbn [py_eq]. by apply bool_decide_eq_true.
  - inversion Hs; subst. cbn [py_eq number_of]. by apply number_eqb_refl.
  - inversion Hs; subst. cbn [py_eq number_of]. by apply number_eqb_refl.
  - inversion Hs; subst. cbn [py_eq number_of nan_free] in *.
    apply number_eqb_refl. by apply negb_true_iff.
  - inversion Hs; subst. cbn [py_eq number_of nan_free] in *.
    apply number_eqb_refl. by apply negb_true_iff.
  - assert (exists d' d'', v' = VDict d'
              /\ Forall2 (fun e' e => e'.1 = e.1 /\ same e'.2 e.2) d' d''
              /\ Permutation d'' entries) as (d' & d'' & -> & Hd & Hperm).
    { inversion Hs; subst; [by eauto|]. exists entries, entries.
      repeat split; [|done]. clear. induction entries; constructor; [|done].
      split; [done|apply same_refl]. }
    apply well_formed_entries in Hwf as (Hwf & Hh & Hdis).
    apply nan_free_entries in Hnan. apply restorable_entries in Hre.
    apply serializable_entries in Hser.
    cbn [py_eq]. apply andb_true_iff. split.
    { apply Nat.eqb_eq. rewrite (Forall2_length _ _ _ Hd).
      by apply Permutation_length. }
    apply forallb_Forall.
    assert (Forall (fun e => e ∈ entries) d'') as Hin.
    { apply Forall_forall. intros e He. by rewrite <- Hperm. }
    clear Hs Hperm. induction Hd as [|[k' x'] [k x] d' d'' [Hk Hx] _ IHd];
      [constructor|].
    apply Forall_cons in Hin as [Hin Hin']. constructor; [|by apply IHd].
    cbn [fst snd] in Hk, Hx. subst k'.
    rewrite Forall_forall in IH, Hwf, Hnan, Hre, Hser.
    destruct (IH _ Hin) as [IHk IHx]. destruct (Hwf _ Hin) as [??].
    destruct (Hser _ Hin) as [??].
    destruct (Hnan _ Hin) as [??]. destruct (Hre _ Hin) as [??].
    rewrite (find_key entries k x); auto.
    apply (IHk k (same_refl k)); auto.
  - inversion Hs; subst. done.
  - inversion Hs; subst. done.
Qed.

Lemma pack_serializable v : forall frame, pack v = Ok frame -> serializable v = true.
Proof.
  assert (forall l frames,
            Forall (fun x => forall frame, pack x = Ok frame -> serializable x = true) l ->
            traverse pack l = Ok frames -> forallb serializable l = true) as Hitems.
  { intros l frames IH Ht%traverse_Forall2. apply forallb_Forall.
    induction Ht as [|x f l frames Hx _ IHl]; [constructor|].
    apply Forall_cons in IH as [??]. constructor; eauto. }
  induction v as [o|items IH|items IH|items IH|b|b|s|n|b|x|d|entries IH| |ty]
    using value_induction; intros frame Hpack; try done.
  1-3: cbn [pack is_serializable tressa] in Hpack;
       destruct (traverse pack items) as [frames|] eqn:Et; [|done];
       by apply (Hitems _ frames).
  apply pack_dict_frames in Hpack as (frames & Hfr & _).
  cbn [serializable]. apply forallb_Forall.
  induction Hfr as [|[k x] f d frames (fk & fx & Hk & Hx & _) _ IHd];
    [constructor|].
  apply Forall_cons in IH as [[??] ?]. constructor; [|by apply IHd].
  apply andb_true_iff. split; eauto.
Qed.

Lemma traverse_ext {A B} (f g : A -> result B) l :
  (forall x, f x = g x) -> traverse f l = traverse g l.
Proof.
  intros Hfg. induction l as [|x l IH]; [done|].
  cbn [traverse]. fold (traverse f) (traverse g). by rewrite Hfg, IH.
Qed.

(** The frame of a pair: ['t'], the length, the frames of the two parts. *)
Lemma pack_pair_frame (key value : value Obj) f :
  pack (VTuple [key; value]) = Ok f
  <-> exists fk fx,
        pack key = Ok fk /\ pack value = Ok fx
        /\ len (fk ++ fx) < 2^32
        /\ f = "t"%byte :: be32 (len (fk ++ fx)) ++ fk ++ fx.
Proof.
  cbn [pack is_serializable tressa traverse]. split.
  - destruct (pack key) as [fk|] eqn:Ek; [|done].
    destruct (pack value) as [fx|] eqn:Ex; [|done].
    cbn [concat]. rewrite app_nil_r.
    intros [-> Hlen]%pack_1sIs_inv. by exists fk, fx.
  - intros (fk & fx & -> & -> & Hlen & ->).
    cbn [concat]. rewrite app_nil_r. by apply pack_1sIs_framed.
Qed.

(** The dict branch of [pack] packs every entry as [pack((key, value))]. *)
Lemma pack_dict_unfold (entries : list (value Obj * value Obj)) :
  pack (VDict entries)
  = (frames <- traverse pack_entry entries ;;
     let items := concat (sorted frames) in
     struct.pack_1sIs "d" (len items) items).
Proof.
  cbn [pack is_serializable tressa].
  rewrite (traverse_ext _ pack_entry); [done|].
  intros [k x]. unfold pack_entry.
  cbn [pack is_serializable tressa traverse fst snd].
  destruct (pack k) as [fk|]; [|done]. by destruct (pack x).
Qed.

(** ** A dict never holds a key twice *)

Lemma dict_set_keys (P : value Obj -> Prop) d k x :
  Forall (fun e => P e.1) d -> P k -> Forall (fun e => P e.1) (dict_set d k x).
Proof.
  induction d as [|[k' x'] d IH]; intros Hd Hk; cbn [dict_set].
  - by repeat constructor.
  - apply Forall_cons in Hd as [Hk' Hd].
    destruct (py_eq k' k); constructor; auto.
Qed.

Lemma dict_set_keys_differ d k x :
  keys_differ d -> keys_differ (dict_set d k x).
Proof.
  unfold keys_differ.
  induction d as [|[k' x'] d IH]; intros Hd; cbn [dict_set].
  - repeat constructor.
  - inversion Hd as [|? ? Hk' Hd']; subst.
    destruct (py_eq k' k) eqn:E; constructor; auto.
    apply (dict_set_keys (fun k0 => py_eq k' k0 = false)); done.
Qed.

Lemma dict_of_keys_differ items d d' :
  keys_differ d -> dict_of d items = Ok d' -> keys_differ d'.
Proof.
  revert d. induction items as [|entry items IH]; intros d Hd; cbn [dict_of].
  - by intros [= <-].
  - destruct (getitem entry 0) as [k|]; [|done].
    destruct (getitem entry 1) as [x|]; [|done].
    destruct (hashable k); [|done].
    apply IH. by apply dict_set_keys_differ.
Qed.

(** Whatever follows the tag of a dict, what [unpack] returns for it, if
    anything, is a dict in which no two entries have equal keys. *)
Lemma unpack_dict_keys_differ inject rest v :
  unpack globals ("d"%byte :: rest) inject = Ok v ->
  exists d, v = VDict d /\ keys_differ d.
Proof.
  unfold unpack.
  change (unpack_fuel globals (S (length ("d"%byte :: rest)))
            ("d"%byte :: rest) inject)
    with (parts <- struct.unpack_I_rest rest ;;
          let '(let_len, data) := parts in
          parts <- struct.unpack_ns_rest let_len data ;;
          let '(let_data, _) := parts in
          items <- unpack_items
                     (fun item => unpack_fuel globals (S (length rest)) item inject)
                     (length let_data) let_data [] ;;
          d <- dict_of [] items ;; Ok (VDict d)).
  destruct (struct.unpack_I_rest rest) as [[??]|]; [|done].
  destruct (struct.unpack_ns_rest _ _) as [[??]|]; [|done].
  destruct (unpack_items _ _ _ _) as [items|]; [|done].
  destruct (dict_of [] items) as [d|] eqn:E; [|done].
  intros [= <-]. exists d. split; [done|].
  eapply dict_of_keys_differ; [|exact E]. constructor.
Qed.

(** ** The claims *)

(** C1, as amended.  Round trip: a value that [pack] encodes, that
    satisfies the invariants of Python's sets and dicts and holds no NaN,
    and whose extension instances are registered in [inject] with an
    [unpack] that rebuilds them (and whose Decimals are read back from
    their strings), is decoded by [unpack] from its encoding to a value
    equal to it. *)
Theorem pack_unpack_roundtrip inject v frame :
  pack v = Ok frame ->
  well_formed v = true -> nan_free v = true -> restorable inject v ->
  exists v', unpack globals frame inject = Ok v' /\ py_eq v' v = true.
Proof.
  intros Hpack Hwf Hnan Hre.
  destruct (pack_reads_back inject v Hwf Hre frame Hpack (S (length frame)))
    as (v' & Hv' & Hs); [lia|].
  exists v'. split; [done|].
  apply (same_py_eq inject v); try done. by eapply pack_serializable.
Qed.

(** C3.  A dict is encoded by packing every entry as the 2-tuple
    [(key, value)], whose frame is ['t'], the length on four bytes, the
    frame of the key and the frame of the value; the frames of the entries
    are sorted as byte strings and joined, and the frame of the dict is
    ['d'], the length on four bytes and the joined frames.  [pack] returns
    this frame whenever every key and value is encoded and the lengths fit
    32 bits, and nothing else; so two dicts with the same entries in
    different insertion orders have the same encoding. *)
Theorem pack_dict_canonical (entries1 entries2 : list (value Obj * value Obj)) out :
  (pack (VDict entries1) = Ok out
   <-> exists frames,
         Forall2 (fun entry f =>
                    exists fk fx,
                      pack entry.1 = Ok fk /\ pack entry.2 = Ok fx
                      /\ len (fk ++ fx) < 2^32
                      /\ f = "t"%byte :: be32 (len (fk ++ fx)) ++ fk ++ fx)
           entries1 frames
         /\ len (concat (sorted frames)) < 2^32
         /\ out = "d"%byte :: be32 (len (concat (sorted frames)))
                     ++ concat (sorted frames))
  /\ (forall key value f,
        pack (VTuple [key; value]) = Ok f
        <-> exists fk fx,
              pack key = Ok fk /\ pack value = Ok fx
              /\ len (fk ++ fx) < 2^32
              /\ f = "t"%byte :: be32 (len (fk ++ fx)) ++ fk ++ fx)
  /\ (forall frames, Sorted bytes_le (sorted frames)
                     /\ Permutation (sorted frames) frames)
  /\ (Permutation entries1 entries2 ->
      pack (VDict entries1) = Ok out -> pack (VDict entries2) = Ok out).
Proof.
  split; [|split; [|split]].
  - rewrite pack_dict_unfold. split.
    + destruct (traverse pack_entry entries1) as [frames|] eqn:E; [|done].
      intros [-> Hlen]%pack_1sIs_inv. exists frames. split; [|done].
      apply traverse_Forall2 in E. eapply Forall2_impl; [exact E|].
      intros [key value] f. apply pack_pair_frame.
    + intros (frames & HF & Hlen & ->).
      assert (traverse pack_entry entries1 = Ok frames) as ->.
      { apply traverse_Forall2. eapply Forall2_impl; [exact HF|].
        intros [key value] f. apply pack_pair_frame. }
      by apply pack_1sIs_framed.
  - intros key value f. apply pack_pair_frame.
  - intros frames. split; [apply sorted_Sorted|apply sorted_Permutation].
  - intros Hperm. rewrite !pack_dict_unfold.
    destruct (traverse pack_entry entries1) as [frames1|] eqn:E1; [|done].
    apply traverse_Forall2 in E1.
    destruct (Permutation_Forall2 Hperm E1) as (frames2 & Hp & E2).
    apply traverse_Forall2 in E2. rewrite E2.
    by rewrite (sorted_unique _ _ Hp).
Qed.

(** C6.  A value of a kind outside the data model is refused with a usage
    error whose message names its type; nothing is returned. *)
Theorem pack_rejects_unserializable (data : value Obj) :
  is_serializable data = false ->
  pack data
  = Err (UsageError
           (lit "data type must be one of (Packable, list, set, tuple, str, bytes, bytearray, int, bool, float, Decimal, NoneType); "
            ++ type_repr data ++ lit " is not serializable")).
Proof. by destruct data. Qed.

(** C7.  Decoding the frame of an extension instance: the class name is
    looked up in [inject] first and in the globals of the module
    otherwise; a name found in neither is a usage error, an entry without
    [unpack] is a usage error, and an entry whose [unpack] rebuilds the
    instance from its [pack()] makes [unpack] return that instance. *)
Theorem unpack_extension inject (o : Obj) frame :
  pack (VPackable o) = Ok frame ->
  let name := class_name o in
  let dependencies := inject ∪ globals in
  (forall cls, inject !! name = Some cls -> dependencies !! name = Some cls)
  /\ (inject !! name = None -> dependencies !! name = globals !! name)
  /\ (dependencies !! name = None ->
      unpack globals frame inject = Err (UsageError (not_found name)))
  /\ (forall cls,
       dependencies !! name = Some cls -> h_unpack cls = None ->
       unpack globals frame inject = Err (UsageError (no_unpack_method name)))
  /\ (forall cls cls_unpack body,
       dependencies !! name = Some cls -> h_unpack cls = Some cls_unpack ->
       obj_pack o = Ok body -> cls_unpack body = Ok o ->
       unpack globals frame inject = Ok (VPackable o)).
Proof.
  intros Hpack name dependencies.
  split; [intros cls; apply lookup_union_Some_l|].
  split; [intros Hn; by apply lookup_union_r|].
  cbn [pack is_serializable tressa] in Hpack.
  destruct (utf8.encode (class_name o)) as [raw|] eqn:En; [|done].
  destruct (utf8_encode_ascii _ (hex_ascii raw)) as (packed & Ep & Hsep).
  rewrite Ep in Hpack.
  destruct (obj_pack o) as [body|] eqn:Eb; [|done].
  apply pack_1sIs_inv in Hpack as [-> Hlen].
  assert (unpack globals
            ("p"%byte :: be32 (len (packed ++ ["_"%byte] ++ body))
               ++ packed ++ ["_"%byte] ++ body) inject
          = (checked <- tressa (bool_decide (is_Some (dependencies !! name)))
                          (not_found name) ;;
             match dependencies !! name with
             | None => Err KeyError
             | Some cls =>
                 checked <- tressa (bool_decide (is_Some (h_unpack cls)))
                              (no_unpack_method name) ;;
                 match h_unpack cls with
                 | None => Err TypeError
                 | Some cls_unpack =>
                     o <- cls_unpack body ;; Ok (VPackable o)
                 end
             end)) as ->.
  { unfold unpack. cbn [unpack_fuel struct.unpack_1s_rest].
    rewrite bool_decide_true, unpack_I_rest_be32 by done.
    rewrite <- (app_nil_r (packed ++ _)) at 2. rewrite unpack_ns_rest_app.
    cbn [app]. rewrite partition_sep by done.
    rewrite (utf8_decode_encode _ _ Ep), fromhex_hex.
    by rewrite (utf8_decode_encode _ _ En). }
  split; [|split].
  - intros ->. rewrite bool_decide_false; [done|]. by intros [??].
  - intros cls -> Hun. rewrite bool_decide_true by eauto. cbn [tressa].
    rewrite Hun. rewrite bool_decide_false; [done|]. by intros [??].
  - intros cls cls_unpack body' -> Hun [= <-] Hinv.
    rewrite bool_decide_true by eauto. cbn [tressa]. rewrite Hun.
    rewrite bool_decide_true by eauto. by rewrite Hinv.
Qed.

(** C8.  Every encoding is one tag byte, the length of the payload as a
    big-endian unsigned 32-bit number, and the payload. *)
Theorem pack_frame_shape v out :
  pack v = Ok out ->
  exists tag b0 b1 b2 b3 payload,
    out = tag :: b0 :: b1 :: b2 :: b3 :: payload
    /\ be32_value b0 b1 b2 b3 = len payload
    /\ len out = 5 + len payload.
Proof.
  intros (code & payload & -> & Hlen)%pack_framed.
  destruct (be32_value_be32 _ Hlen) as (b0 & b1 & b2 & b3 & -> & Hv).
  exists code, b0, b1, b2, b3, payload. cbn [app]. repeat split; [done|].
  rewrite !len_cons. lia.
Qed.

(** C9, as amended.  The pairs of a dict frame are stored in payload
    order into a dict, and the dict that [unpack] returns never has two
    entries with equal keys.  For a payload of two pair frames: when the
    keys are equal the decoded dict has a single entry, with the first key
    and the second value; both pairs are returned only when the keys
    differ. *)
Theorem unpack_dict_deduplicates inject :
  (forall rest v,
     unpack globals ("d"%byte :: rest) inject = Ok v ->
     exists d, v = VDict d /\ keys_differ d)
  /\ (forall f1 f2 c1 p1 c2 p2 k1 x1 k2 x2 frame,
       framed c1 p1 f1 -> framed c2 p2 f2 ->
       unpack globals f1 inject = Ok (VTuple [k1; x1]) ->
       unpack globals f2 inject = Ok (VTuple [k2; x2]) ->
       hashable k1 = true -> hashable k2 = true ->
       framed "d" (f1 ++ f2) frame ->
       unpack globals frame inject
       = Ok (VDict (if py_eq k1 k2 then [(k1, x2)]
                    else [(k1, x1); (k2, x2)]))).
Proof.
  split; [intros rest v; apply unpack_dict_keys_differ|].
  intros f1 f2 c1 p1 c2 p2 k1 x1 k2 x2 frame H1 H2 Hu1 Hu2 Hh1 Hh2 Hf.
  pose proof (framed_length _ _ _ Hf) as Hlen. rewrite length_app in Hlen.
  unfold unpack.
  rewrite (unpack_fuel_container inject (length frame) "d" [f1; f2]
             [VTuple [k1; x1]; VTuple [k2; x2]] frame).
  - unfold container_of.
    change (bool_decide ("d"%byte = "l"%byte)) with false.
    change (bool_decide ("d"%byte = "e"%byte)) with false.
    change (bool_decide ("d"%byte = "t"%byte)) with false. cbv iota.
    cbn [dict_of getitem lookup list_lookup dict_set]. rewrite Hh1, Hh2.
    cbn [dict_set]. by destruct (py_eq k1 k2).
  - rewrite !elem_of_cons. auto.
  - cbn [concat]. by rewrite app_nil_r.
  - repeat constructor; try (by eauto);
      rewrite unpack_fuel_stable by lia; done.
Qed.

(** C10.  [unpack] of the encoding of a [bytes] value followed by any
    further bytes returns the value: what follows the payload is not
    looked at. *)
Theorem unpack_bytes_ignores_suffix inject (v suffix : bytes) :
  len v < 2^32 ->
  exists frame,
    pack (VBytes v : value Obj) = Ok frame
    /\ unpack globals (frame ++ suffix) inject = Ok (VBytes v).
Proof.
  intros Hlen. exists ("b"%byte :: be32 (len v) ++ v). split.
  - cbn [pack is_serializable tressa]. by apply pack_1sIs_framed.
  - unfold unpack. cbn [app]. rewrite <- app_assoc.
    rewrite unpack_fuel_bytes_frame, unpack_I_rest_be32 by done.
    by rewrite unpack_ns_rest_app.
Qed.

(** A tag that [unpack] does not know: no branch is taken, whatever
    follows the tag. *)
Lemma unpack_unknown_tag inject code rest :
  code ∉ ["p"; "l"; "e"; "t"; "d"; "b"; "a"; "s"; "i"; "B"; "f"; "D"; "n"]%byte ->
  unpack globals (code :: rest) inject = Ok VNone.
Proof.
  rewrite !not_elem_of_cons. intros (?&?&?&?&?&?&?&?&?&?&?&?&?&_).
  unfold unpack. cbn [unpack_fuel struct.unpack_1s_rest].
  rewrite !bool_decide_false; try done.
  all: rewrite !not_elem_of_cons; repeat split; try done; apply not_elem_of_nil.
Qed.

(** The set branch of [pack] joins the frames of the elements in
    iteration order. *)
Lemma pack_set_unfold (items : list (value Obj)) :
  pack (VSet items)
  = (frames <- traverse pack items ;;
     struct.pack_1sIs "e" (len (concat frames)) (concat frames)).
Proof. reflexivity. Qed.

End CodecFacts.

(** ** The claims on concrete inputs *)

Section Examples.
Import examples.

(** C1, counterexample.  [float('nan')] is encoded and decoded, to a NaN
    again, and a NaN is not equal to a NaN. *)
Lemma roundtrip_nan_counterexample :
  pack nan = Ok nan_frame
  /\ unpack ∅ nan_frame ∅ = Ok nan
  /\ py_eq nan nan = false.
Proof. repeat split; vm_compute; reflexivity. Qed.

Lemma pack_unpack_roundtrip_witness :
  pack nested = Ok nested_frame
  /\ well_formed nested = true
  /\ nan_free nested = true
  /\ restorable inject nested
  /\ exists v', unpack ∅ nested_frame inject = Ok v' /\ py_eq v' nested = true.
Proof.
  assert (restorable inject (VPackable wrapper)) as Hw.
  { split; [reflexivity|]. exists StrWrapper_class. eexists.
    split; [reflexivity|]. split; [reflexivity|].
    intros body [= <-]. reflexivity. }
  assert (restorable inject nested) as Hre.
  { cbn [restorable nested]. repeat split; exact Hw || exact (proj1 Hw)
      || exact (proj2 Hw) || reflexivity. }
  assert (pack nested = Ok nested_frame) as Hp by (vm_compute; reflexivity).
  assert (well_formed nested = true) as Hwf by (vm_compute; reflexivity).
  assert (nan_free nested = true) as Hnan by (vm_compute; reflexivity).
  split; [exact Hp|]. split; [exact Hwf|]. split; [exact Hnan|].
  split; [exact Hre|].
  exact (pack_unpack_roundtrip ∅ inject nested nested_frame Hp Hwf Hnan Hre).
Defined.

(** C2, on the sets [{8, 0}] and [{0, 8}]: the frames of the elements are
    joined in iteration order, unsorted, and the two encodings differ. *)
Lemma pack_set_order_dependent :
  py_eq set_8_0 set_0_8 = true
  /\ pack set_8_0
     = Ok ["e"; x00; x00; x00; x12;
           "i"; x00; x00; x00; x04; x00; x00; x00; x08;
           "i"; x00; x00; x00; x04; x00; x00; x00; x00]%byte
  /\ pack set_0_8
     = Ok ["e"; x00; x00; x00; x12;
           "i"; x00; x00; x00; x04; x00; x00; x00; x00;
           "i"; x00; x00; x00; x04; x00; x00; x00; x08]%byte
  /\ pack set_8_0 <> pack set_0_8.
Proof. repeat split; try (vm_compute; reflexivity). discriminate. Qed.

Lemma pack_dict_canonical_witness :
  Permutation dict_12_34 dict_34_12
  /\ pack (VDict dict_12_34) = Ok dict_frame
  /\ pack (VDict dict_34_12) = Ok dict_frame
  /\ dict_frame
     = ["d"; x00; x00; x00; x2e;
        "t"; x00; x00; x00; x12;
        "i"; x00; x00; x00; x04; x00; x00; x00; x01;
        "i"; x00; x00; x00; x04; x00; x00; x00; x02;
        "t"; x00; x00; x00; x12;
        "i"; x00; x00; x00; x04; x00; x00; x00; x03;
        "i"; x00; x00; x00; x04; x00; x00; x00; x04]%byte.
Proof.
  assert (Permutation dict_12_34 dict_34_12) as Hp by apply perm_swap.
  assert (pack (VDict dict_12_34) = Ok dict_frame) as H1.
  { apply (proj1 (pack_dict_canonical dict_12_34 dict_34_12 dict_frame)).
    exists [pair_1_2;
            ["t"; x00; x00; x00; x12;
             "i"; x00; x00; x00; x04; x00; x00; x00; x03;
             "i"; x00; x00; x00; x04; x00; x00; x00; x04]%byte].
    split; [|split; reflexivity].
    constructor; [|constructor; [|constructor]].
    - exists ["i"; x00; x00; x00; x04; x00; x00; x00; x01]%byte,
             ["i"; x00; x00; x00; x04; x00; x00; x00; x02]%byte.
      repeat split; reflexivity.
    - exists ["i"; x00; x00; x00; x04; x00; x00; x00; x03]%byte,
             ["i"; x00; x00; x00; x04; x00; x00; x00; x04]%byte.
      repeat split; reflexivity. }
  split; [exact Hp|]. split; [exact H1|]. split; [|reflexivity].
  exact (proj2 (proj2 (proj2
           (pack_dict_canonical dict_12_34 dict_34_12 dict_frame))) Hp H1).
Defined.

(** C4, on the one-byte input [b'x']: no branch of [unpack] is taken and
    [None] is returned, where the claim has a decode error. *)
Lemma unpack_unknown_tag_returns_none :
  unpack (∅ : registry) ["x"%byte] ∅ = Ok VNone.
Proof. reflexivity. Qed.

(** C5, on [-1] and on [2**32]: format 'I' takes neither. *)
Lemma pack_int_out_of_range :
  pack (VInt (-1) : val) = Err StructError
  /\ pack (VInt (2^32) : val) = Err StructError.
Proof. split; reflexivity. Qed.

Lemma pack_rejects_unserializable_witness :
  is_serializable a_function = false
  /\ pack a_function
     = Err (UsageError
              (lit "data type must be one of (Packable, list, set, tuple, str, bytes, bytearray, int, bool, float, Decimal, NoneType); <class 'function'> is not serializable")).
Proof.
  split; [reflexivity|].
  exact (pack_rejects_unserializable a_function eq_refl).
Defined.

Lemma unpack_extension_witness :
  pack (VPackable wrapper) = Ok wrapper_frame
  /\ unpack ∅ wrapper_frame ∅
     = Err (UsageError (not_found (lit "StrWrapper")))
  /\ unpack ∅ wrapper_frame inject_no_unpack
     = Err (UsageError (no_unpack_method (lit "StrWrapper")))
  /\ unpack ∅ wrapper_frame inject = Ok (VPackable wrapper).
Proof.
  assert (pack (VPackable wrapper) = Ok wrapper_frame) as Hp
    by (vm_compute; reflexivity).
  pose proof (unpack_extension ∅ ∅ wrapper wrapper_frame Hp) as Habsent.
  pose proof (unpack_extension ∅ inject_no_unpack wrapper wrapper_frame Hp)
    as Hno.
  pose proof (unpack_extension ∅ inject wrapper wrapper_frame Hp) as Hok.
  cbv zeta in Habsent, Hno, Hok.
  destruct Habsent as (_ & _ & Habsent & _).
  destruct Hno as (_ & _ & _ & Hno & _).
  destruct Hok as (_ & _ & _ & _ & Hok).
  split; [exact Hp|]. split; [|split].
  - apply Habsent. reflexivity.
  - apply (Hno no_unpack_class); reflexivity.
  - eapply (Hok StrWrapper_class _ wrapper_body); reflexivity.
Defined.

Lemma pack_frame_shape_witness :
  pack short_list = Ok short_list_frame
  /\ exists tag b0 b1 b2 b3 payload,
       short_list_frame = tag :: b0 :: b1 :: b2 :: b3 :: payload
       /\ be32_value b0 b1 b2 b3 = len payload
       /\ len short_list_frame = 5 + len payload.
Proof.
  assert (pack short_list = Ok short_list_frame) as Hp
    by (vm_compute; reflexivity).
  split; [exact Hp|]. exact (pack_frame_shape short_list short_list_frame Hp).
Defined.

(** C9, counterexample.  A dict frame with the pairs [(1, 2)] and
    [(1, 3)] decodes to [{1: 3}]: the pair [(1, 2)] is not returned. *)
Lemma unpack_duplicate_key_counterexample :
  unpack (∅ : registry) pair_1_2 ∅ = Ok (VTuple [VInt 1; VInt 2])
  /\ unpack (∅ : registry) pair_1_3 ∅ = Ok (VTuple [VInt 1; VInt 3])
  /\ unpack (∅ : registry) duplicate_key_frame ∅ = Ok (VDict [(VInt 1, VInt 3)])
  /\ ~ (exists d, unpack (∅ : registry) duplicate_key_frame ∅ = Ok (VDict d)
               /\ (VInt 1, VInt 2) ∈ d /\ (VInt 1, VInt 3) ∈ d).
Proof.
  repeat split; try (vm_compute; reflexivity).
  intros (d & Hd & H2 & _). vm_compute in Hd. injection Hd as <-.
  apply list_elem_of_singleton in H2. discriminate.
Qed.

Lemma unpack_dict_deduplicates_witness :
  framed "t" (drop 5 pair_1_2) pair_1_2
  /\ framed "t" (drop 5 pair_1_3) pair_1_3
  /\ unpack (∅ : registry) pair_1_2 ∅ = Ok (VTuple [VInt 1; VInt 2])
  /\ unpack (∅ : registry) pair_1_3 ∅ = Ok (VTuple [VInt 1; VInt 3])
  /\ hashable (VInt 1 : val) = true
  /\ framed "d" (pair_1_2 ++ pair_1_3) duplicate_key_frame
  /\ unpack (∅ : registry) duplicate_key_frame ∅ = Ok (VDict [(VInt 1, VInt 3)])
  /\ exists d, VDict [(VInt 1, VInt 3)] = VDict d /\ keys_differ (Obj := StrWrapper) d.
Proof.
  assert (framed "t" (drop 5 pair_1_2) pair_1_2) as F1 by (split; reflexivity).
  assert (framed "t" (drop 5 pair_1_3) pair_1_3) as F2 by (split; reflexivity).
  assert (framed "d" (pair_1_2 ++ pair_1_3) duplicate_key_frame) as F
    by (split; reflexivity).
  assert (unpack (∅ : registry) duplicate_key_frame ∅
          = Ok (VDict [(VInt 1, VInt 3)])) as Hd.
  { exact (proj2 (unpack_dict_deduplicates (∅ : registry) ∅)
             pair_1_2 pair_1_3 _ _ _ _
             (VInt 1) (VInt 2) (VInt 1) (VInt 3) duplicate_key_frame
             F1 F2 eq_refl eq_refl eq_refl eq_refl F). }
  split; [exact F1|]. split; [exact F2|]. split; [reflexivity|].
  split; [reflexivity|]. split; [reflexivity|]. split; [exact F|].
  split; [exact Hd|].
  exact (proj1 (unpack_dict_deduplicates (∅ : registry) ∅)
           (tl duplicate_key_frame) _ Hd).
Defined.

Lemma unpack_bytes_ignores_suffix_witness :
  len [x01; x02] < 2^32
  /\ exists frame,
       pack (VBytes [x01; x02] : val) = Ok frame
       /\ unpack ∅ (frame ++ [xff; x00]) inject = Ok (VBytes [x01; x02]).
Proof.
  split; [reflexivity|].
  exact (unpack_bytes_ignores_suffix ∅ inject [x01; x02] [xff; x00] eq_refl).
Defined.

End Examples.

(** * Further properties of [pack] and [unpack] *)

(** Case analysis on a hypothesis [code ∈ [tag; ...]]. *)
Ltac tag_cases H :=
  rewrite !elem_of_cons, elem_of_nil in H;
  repeat (destruct H as [H|H]; [try discriminate H|]); try done.

(** ** UTF-8, [struct] and [Decimal]: what they raise, what they accept *)

Lemma utf8_encode_error s e :
  utf8.encode s = Err e -> e = UnicodeEncodeError.
Proof.
  induction s as [|c s IH]; cbn [utf8.encode]; [done|].
  destruct (utf8.encode_cp c) eqn:Ec.
  - destruct (utf8.encode s); [done|]. intros [= <-]. by apply IH.
  - intros [= <-]. revert Ec. unfold utf8.encode_cp.
    repeat match goal with |- context [if ?c then _ else _] => destruct c end;
      by intros [= <-].
Qed.

Lemma utf8_encode_cp_Ok c :
  utf8.is_surrogate c || (1114112 <=? c) = false ->
  exists b, utf8.encode_cp c = Ok b.
Proof.
  intros [Hs Hc]%orb_false_iff. unfold utf8.encode_cp. rewrite Hs.
  apply N.leb_gt in Hc. apply N.ltb_lt in Hc. rewrite Hc.
  repeat match goal with |- context [if ?c then _ else _] => destruct c end;
    eauto.
Qed.

Lemma utf8_encode_cp_Err c :
  utf8.is_surrogate c || (1114112 <=? c) = true ->
  utf8.encode_cp c = Err UnicodeEncodeError.
Proof.
  unfold utf8.encode_cp, utf8.is_surrogate.
  rewrite orb_true_iff, andb_true_iff, !N.leb_le, N.ltb_lt. intros H.
  destruct (N.ltb_spec c 128); [lia|]. destruct (N.ltb_spec c 2048); [lia|].
  destruct (N.ltb_spec c 65536).
  - destruct (N.leb_spec 55296 c); [|lia].
    destruct (N.ltb_spec c 57344); [done|lia].
  - destruct (N.ltb_spec c 1114112); [lia|done].
Qed.

(** The encoder fails exactly on a string that holds a surrogate (or a
    number that is no code point). *)
Lemma utf8_encode_Err s :
  (exists e, utf8.encode s = Err e)
  <-> Exists (fun c => utf8.is_surrogate c || (1114112 <=? c) = true) s.
Proof.
  induction s as [|c s IH]; cbn [utf8.encode].
  - split; [by intros [??]|by inversion 1].
  - rewrite Exists_cons, <- IH.
    destruct (utf8.is_surrogate c || (1114112 <=? c)) eqn:Hc.
    + rewrite (utf8_encode_cp_Err c Hc). split; eauto.
    + destruct (utf8_encode_cp_Ok c Hc) as (b & ->).
      destruct (utf8.encode s) as [bs|e].
      * split; [by intros [??]|]. by intros [?|[??]].
      * split; eauto.
Qed.

Lemma byte_of_N_eq n b : n = Byte.to_N b -> byte_of_N n = b.
Proof. intros ->. apply byte_of_N_to_N. Qed.

(** The decoder is strict: what it accepts is the encoding of what it
    returns. *)
Lemma utf8_encode_decode data s :
  utf8.decode data = Ok s -> utf8.encode s = Ok data.
Proof.
  remember (length data) as n eqn:Hn. revert data Hn s.
  induction n as [n IH] using lt_wf_ind. intros data -> s.
  destruct data as [|b0 r0]; [by intros [= <-]|].
  cbn [utf8.decode]. cbv zeta.
  pose proof (Byte.to_N_bounded b0) as Hb0.
  destruct (N.ltb_spec (Byte.to_N b0) 128) as [H1|H1].
  { destruct (utf8.decode r0) as [s'|] eqn:E; [|done]. intros [= <-].
    cbn [utf8.encode]. unfold utf8.encode_cp.
    destruct (N.ltb_spec (Byte.to_N b0) 128); [|lia].
    rewrite (IH (length r0)) with (data := r0) (s := s'); try done.
    - by rewrite byte_of_N_to_N.
    - cbn [length]. lia. }
  destruct (N.ltb_spec (Byte.to_N b0) 192) as [H2|H2]; [done|].
  destruct (N.ltb_spec (Byte.to_N b0) 224) as [H3|H3].
  { destruct r0 as [|b1 r1]; [done|].
    unfold utf8.is_cont, utf8.cont.
    destruct (N.leb_spec 128 (Byte.to_N b1)); [|done].
    destruct (N.ltb_spec (Byte.to_N b1) 192); [|done].
    destruct (N.leb_spec 128 ((Byte.to_N b0 - 192) * 64 + (Byte.to_N b1 - 128)));
      [|done].
    cbn [andb].
    destruct (utf8.decode r1) as [s'|] eqn:E; [|done]. intros [= <-].
    cbn [utf8.encode]. unfold utf8.encode_cp.
    set (c := (Byte.to_N b0 - 192) * 64 + (Byte.to_N b1 - 128)) in *.
    destruct (N.ltb_spec c 128); [lia|].
    destruct (N.ltb_spec c 2048); [|lia].
    rewrite (IH (length r1)) with (data := r1) (s := s'); try done.
    - rewrite (byte_of_N_eq _ b0), (byte_of_N_eq _ b1) by lia. done.
    - cbn [length]. lia. }
  destruct (N.ltb_spec (Byte.to_N b0) 240) as [H4|H4].
  { destruct r0 as [|b1 [|b2 r2]]; try done.
    unfold utf8.is_cont, utf8.cont.
    destruct (N.leb_spec 128 (Byte.to_N b1)); [|done].
    destruct (N.ltb_spec (Byte.to_N b1) 192); [|done].
    destruct (N.leb_spec 128 (Byte.to_N b2)); [|done].
    destruct (N.ltb_spec (Byte.to_N b2) 192); [|done].
    set (c := ((Byte.to_N b0 - 224) * 64 + (Byte.to_N b1 - 128)) * 64
              + (Byte.to_N b2 - 128)) in *.
    destruct (N.leb_spec 2048 c); [|done].
    destruct (utf8.is_surrogate c) eqn:Hs; [done|].
    cbn [andb negb].
    destruct (utf8.decode r2) as [s'|] eqn:E; [|done]. intros [= <-].
    cbn [utf8.encode]. unfold utf8.encode_cp. rewrite Hs.
    destruct (N.ltb_spec c 128); [lia|].
    destruct (N.ltb_spec c 2048); [lia|].
    destruct (N.ltb_spec c 65536); [|lia].
    rewrite (IH (length r2)) with (data := r2) (s := s'); try done.
    - rewrite (byte_of_N_eq _ b0), (byte_of_N_eq _ b1), (byte_of_N_eq _ b2)
        by lia. done.
    - cbn [length]. lia. }
  destruct (N.ltb_spec (Byte.to_N b0) 248) as [H5|H5]; [|done].
  destruct r0 as [|b1 [|b2 [|b3 r3]]]; try done.
  unfold utf8.is_cont, utf8.cont.
  destruct (N.leb_spec 128 (Byte.to_N b1)); [|done].
  destruct (N.ltb_spec (Byte.to_N b1) 192); [|done].
  destruct (N.leb_spec 128 (Byte.to_N b2)); [|done].
  destruct (N.ltb_spec (Byte.to_N b2) 192); [|done].
  destruct (N.leb_spec 128 (Byte.to_N b3)); [|done].
  destruct (N.ltb_spec (Byte.to_N b3) 192); [|done].
  set (c := (((Byte.to_N b0 - 240) * 64 + (Byte.to_N b1 - 128)) * 64
             + (Byte.to_N b2 - 128)) * 64 + (Byte.to_N b3 - 128)) in *.
  destruct (N.leb_spec 65536 c); [|done].
  destruct (N.ltb_spec c 1114112); [|done].
  cbn [andb].
  destruct (utf8.decode r3) as [s'|] eqn:E; [|done]. intros [= <-].
  cbn [utf8.encode]. unfold utf8.encode_cp.
  destruct (N.ltb_spec c 128); [lia|].
  destruct (N.ltb_spec c 2048); [lia|].
  destruct (N.ltb_spec c 65536); [lia|].
  destruct (N.ltb_spec c 1114112); [|lia].
  rewrite (IH (length r3)) with (data := r3) (s := s'); try done.
  - rewrite (byte_of_N_eq _ b0), (byte_of_N_eq _ b1), (byte_of_N_eq _ b2),
      (byte_of_N_eq _ b3) by lia. done.
  - cbn [length]. lia.
Qed.

Lemma pack_1sIs_error code n s e :
  struct.pack_1sIs code n s = Err e -> e = StructError.
Proof.
  unfold struct.pack_1sIs, struct.pack_I.
  destruct (_ && _)%Z; [done|]. by intros [= <-].
Qed.

Lemma pack_1sIs_limit code (s : bytes) :
  struct.pack_1sIs code (len s) s
  = (if len s <? 2^32 then Ok (code :: be32 (len s) ++ s) else Err StructError).
Proof.
  unfold struct.pack_1sIs, struct.pack_I.
  destruct (N.ltb_spec (len s) (2^32)).
  - destruct (Z.leb_spec 0 (Z.of_N (len s))); [|lia].
    destruct (Z.ltb_spec (Z.of_N (len s)) (2^32)); [|lia].
    cbn [andb]. by rewrite N2Z.id.
  - destruct (Z.ltb_spec (Z.of_N (len s)) (2^32)); [lia|].
    by rewrite andb_false_r.
Qed.

Lemma unpack_I_rest_short (rest : bytes) :
  (length rest < 4)%nat -> struct.unpack_I_rest rest = Err StructError.
Proof. destruct rest as [|? [|? [|? [|? ?]]]]; cbn [length]; try done. lia. Qed.

Lemma unpack_ns_rest_short n (rest : bytes) :
  len rest < n -> struct.unpack_ns_rest n rest = Err StructError.
Proof.
  intros H. unfold struct.unpack_ns_rest.
  destruct (N.leb_spec n (len rest)); [lia|done].
Qed.

Lemma traverse_error {A B} (f : A -> result B) l e :
  traverse f l = Err e -> Exists (fun x => f x = Err e) l.
Proof.
  induction l as [|x l IH]; cbn [traverse]; [done|]. fold (traverse f).
  destruct (f x) as [y|e'] eqn:E; [|intros [= <-]; by left].
  destruct (traverse f l); [done|]. intros [= <-]. right. by apply IH.
Qed.

Lemma parse_exponent_error s e :
  decimal_text.parse_exponent s = Err e -> e = InvalidOperation.
Proof.
  unfold decimal_text.parse_exponent. destruct s as [|c s']; [done|].
  destruct (_ || _); [|by intros [= <-]].
  destruct (decimal_text.split_sign s') as [negative s''].
  destruct (decimal_text.span_digits s'') as [[|??] [|??]]; try done;
    by intros [= <-].
Qed.

(** [Decimal(s)] raises nothing but [InvalidOperation]. *)
Lemma of_str_error s e :
  decimal_text.of_str s = Err e -> e = InvalidOperation.
Proof.
  unfold decimal_text.of_str.
  destruct (decimal_text.split_sign s) as [negative s0].
  destruct (_ || _); [done|].
  assert (forall signalling s1,
            match decimal_text.span_digits s1 with
            | (ds, []) => Ok (DecNaN negative signalling
                                (decimal_text.number_of_digits ds))
            | _ => Err InvalidOperation
            end = Err e -> e = InvalidOperation) as Hnan.
  { intros signalling s1. destruct (decimal_text.span_digits s1) as [ds [|??]];
      [done|by intros [= <-]]. }
  repeat match goal with
    | |- context [match ?x with _ => _ end] => is_var x; destruct x
    end;
    try apply Hnan.
  all: destruct (decimal_text.span_digits _) as [int s1].
  all: match goal with
       | |- context [let '(frac, s) := ?p in _] => destruct p as [frac s2]
       end.
  all: destruct (int ++ frac); [by intros [= <-]|].
  all: destruct (decimal_text.parse_exponent s2) eqn:E; [done|].
  all: intros [= <-]; by apply parse_exponent_error in E.
Qed.

Section CodecMore.
Context {Obj : Type} {packable : Packable Obj} {decimal_text : DecimalText}.
Context (globals : gmap pystr (handler Obj)).
Implicit Types (v : value Obj) (inject : gmap pystr (handler Obj)).

(** ** Round trips that preserve more than equality *)

Lemma ordered_well_formed v : ordered v = true -> well_formed v = true.
Proof.
  induction v as [o|items IH|items IH|items IH|b|b|s|n|b|x|d|entries IH| |ty]
    using value_induction; try done.
  all: cbn [ordered well_formed]; rewrite !forallb_Forall; intros Ho.
  all: induction IH as [|x l Hx _ IHl]; [constructor|].
  all: apply Forall_cons in Ho as [??]; constructor; auto.
Qed.

(** Without a dict there is no order to lose: [same] is equality. *)
Lemma same_ordered v : forall v', ordered v = true -> same v' v -> v' = v.
Proof.
  induction v as [o|items IH|items IH|items IH|b|b|s|n|b|x|d|entries IH| |ty]
    using value_induction; intros v' Ho Hs;
    inversion Hs as [l' l0 Hl|l' l0 Hl| |]; subst; try done.
  all: f_equal; cbn [ordered] in Ho; apply forallb_Forall in Ho.
  all: clear Hs; revert l' Hl.
  all: induction items as [|x items IHitems]; intros l' Hl;
    [by inversion Hl|].
  all: inversion Hl as [|x' ? l'' ? Hx Hl']; subst.
  all: apply Forall_cons in IH as [Hx1 Hx2]; apply Forall_cons in Ho as [Ho1 Ho2].
  all: f_equal; [by apply Hx1|by apply IHitems].
Qed.

Lemma pack_reads_back_ordered inject v frame :
  pack v = Ok frame -> ordered v = true -> restorable inject v ->
  unpack globals frame inject = Ok v.
Proof.
  intros Hpack Ho Hre.
  destruct (pack_reads_back globals inject v (ordered_well_formed v Ho) Hre
              frame Hpack (S (length frame))) as (v' & Hv' & Hs); [lia|].
  by rewrite (same_ordered v v' Ho Hs) in Hv'.
Qed.

(** X1.  A value without sets and dicts is decoded from its encoding to
    itself, not only to an equal value: every part keeps its type ([1],
    [True] and [1.0] stay apart, and so do [bytes] and [bytearray], lists
    and tuples) and a float keeps its eight bytes, a NaN included. *)
Theorem pack_unpack_exact inject v frame :
  pack v = Ok frame -> ordered v = true -> restorable inject v ->
  unpack globals frame inject = Ok v.
Proof. apply pack_reads_back_ordered. Qed.

(** X2.  Different values without sets and dicts have different
    encodings. *)
Theorem pack_injective inject v1 v2 frame1 frame2 :
  pack v1 = Ok frame1 -> pack v2 = Ok frame2 ->
  ordered v1 = true -> ordered v2 = true ->
  restorable inject v1 -> restorable inject v2 ->
  v1 <> v2 -> frame1 <> frame2.
Proof.
  intros H1 H2 Ho1 Ho2 Hr1 Hr2 Hne ->. apply Hne.
  pose proof (pack_reads_back_ordered inject v1 frame2 H1 Ho1 Hr1) as E1.
  pose proof (pack_reads_back_ordered inject v2 frame2 H2 Ho2 Hr2) as E2.
  congruence.
Qed.

Lemma same_pack_items (l' l : list (value Obj)) frames :
  Forall (fun x => forall x' f, same x' x -> pack x = Ok f -> pack x' = Ok f) l ->
  Forall2 same l' l ->
  traverse pack l = Ok frames -> traverse pack l' = Ok frames.
Proof.
  intros IH Hs Ht. apply traverse_Forall2 in Ht. apply traverse_Forall2.
  revert frames Ht. induction Hs as [|x' x l' l Hx _ IHl]; intros frames Ht.
  - inversion Ht. constructor.
  - inversion Ht as [|? f ? fs Hf Hfs]; subst.
    apply Forall_cons in IH as [IHx IH]. constructor; eauto.
Qed.

(** What is the [same] as [v] has the encoding of [v]: the frames of the
    entries of a dict are sorted. *)
Lemma same_pack v :
  forall v' frame, same v' v -> pack v = Ok frame -> pack v' = Ok frame.
Proof.
  induction v as [o|items IH|items IH|items IH|b|b|s|n|b|x|d|entries IH| |ty]
    using value_induction; intros v' frame Hs Hpack;
    inversion Hs as [l' l0 Hl|l' l0 Hl|d' d'' d0 Hd Hperm|]; subst; try done.
  - cbn [pack is_serializable tressa] in *.
    destruct (traverse pack items) as [frames|] eqn:Et; [|done].
    by rewrite (same_pack_items l' items frames IH Hl Et).
  - cbn [pack is_serializable tressa] in *.
    destruct (traverse pack items) as [frames|] eqn:Et; [|done].
    by rewrite (same_pack_items l' items frames IH Hl Et).
  - rewrite pack_dict_unfold in *.
    destruct (traverse pack_entry entries) as [frames|] eqn:Et; [|done].
    apply traverse_Forall2 in Et.
    destruct (Permutation_Forall2 (Permutation_sym Hperm) Et)
      as (frames'' & Hp & Et'').
    assert (Forall (fun e => forall x' f, same x' e.2 -> pack e.2 = Ok f
                                           -> pack x' = Ok f) d'') as IH''.
    { rewrite Hperm. eapply Forall_impl; [exact IH|]. by intros [??] [_ ?]. }
    assert (traverse pack_entry d' = Ok frames'') as ->.
    { apply traverse_Forall2. clear -Hd Et'' IH''.
      revert frames'' Et''.
      induction Hd as [|[k' x'] [k x] d' d'' [Hk Hx] _ IHd]; intros frames'' Et''.
      - inversion Et''. constructor.
      - inversion Et'' as [|? f ? fs Hf Hfs]; subst.
        apply Forall_cons in IH'' as [IHx IH'']. cbn [fst snd] in *. subst k'.
        constructor; [|by apply IHd].
        revert Hf. unfold pack_entry.
        cbn [pack is_serializable tressa traverse fst snd].
        destruct (pack k) as [fk|]; [|done].
        destruct (pack x) as [fx|] eqn:Ex; [|done].
        by rewrite (IHx x' fx Hx eq_refl). }
    by rewrite <- (sorted_unique _ _ Hp).
Qed.

(** X3.  Decoding and encoding again gives the same bytes, dicts
    included: the entries come back in the order of their sorted frames,
    and are sorted again.  (Sets are left out: Python does not fix the
    order in which the rebuilt set iterates.) *)
Theorem unpack_pack_stable inject v frame :
  pack v = Ok frame ->
  set_free v = true -> well_formed v = true -> restorable inject v ->
  exists v', unpack globals frame inject = Ok v' /\ pack v' = Ok frame.
Proof.
  intros Hpack _ Hwf Hre.
  destruct (pack_reads_back globals inject v Hwf Hre frame Hpack (S (length frame)))
    as (v' & Hv' & Hs); [lia|].
  exists v'. split; [done|]. by apply (same_pack v).
Qed.

Lemma be32_inj n m : n < 2^32 -> m < 2^32 -> be32 n = be32 m -> n = m.
Proof.
  intros (a0 & a1 & a2 & a3 & En & <-)%be32_value_be32
         (b0 & b1 & b2 & b3 & Em & <-)%be32_value_be32 E.
  rewrite En, Em in E. by injection E as -> -> -> ->.
Qed.

(** X4.  No encoding is the beginning of another: an encoding followed
    by at least one byte is not an encoding. *)
Theorem pack_prefix_free v1 v2 frame suffix :
  pack v1 = Ok frame -> pack v2 = Ok (frame ++ suffix) -> suffix = [].
Proof.
  intros (c1 & p1 & -> & H1)%pack_framed (c2 & p2 & E & H2)%pack_framed.
  cbn [app] in E. injection E as _ E0 E1 E2 E3 Ep.
  assert (be32 (len p1) = be32 (len p2)) as Eh
    by (unfold be32; congruence).
  apply be32_inj in Eh; try done.
  rewrite <- Ep, len_app in Eh. unfold len in Eh.
  destruct suffix; [done|]. cbn [length] in Eh. lia.
Qed.

(** ** The limits of [pack] and its exceptions *)

(** X5.  An [int] is encoded when it fits 32 unsigned bits, and only
    then; it is decoded to itself, an [int] again. *)
Theorem pack_int_range inject (n : Z) :
  pack (VInt n : value Obj)
  = (if ((0 <=? n) && (n <? 2^32))%Z
     then Ok ("i"%byte :: be32 4 ++ be32 (Z.to_N n)) else Err StructError)
  /\ (forall frame, pack (VInt n : value Obj) = Ok frame ->
        unpack globals frame inject = Ok (VInt n)).
Proof.
  split.
  - cbn [pack is_serializable tressa]. unfold struct.pack_1sII, struct.pack_I.
    by destruct ((0 <=? n) && (n <? 2^32))%Z.
  - intros frame [Hn ->]%pack_int_inv.
    destruct (be32_value_be32 (Z.to_N n)) as (?&?&?&?& E & Ev); [lia|].
    rewrite E. unfold unpack. change (be32 4) with [x00; x00; x00; x04].
    cbn [app]. rewrite unpack_fuel_int_frame.
    cbn [struct.unpack_II_rest]. by rewrite Ev, Z2N.id by lia.
Qed.

(** X6.  The length of a payload is written on 32 bits: [bytes], a
    [bytearray] or the joined frames of a list of [2**32] bytes or more
    are a [struct.error]. *)
Theorem pack_length_limit (b : bytes) (items : list (value Obj)) frames :
  pack (VBytes b : value Obj)
  = (if len b <? 2^32 then Ok ("b"%byte :: be32 (len b) ++ b) else Err StructError)
  /\ pack (VBytearray b : value Obj)
     = (if len b <? 2^32 then Ok ("a"%byte :: be32 (len b) ++ b) else Err StructError)
  /\ (traverse pack items = Ok frames ->
      pack (VList items)
      = (if len (concat frames) <? 2^32
         then Ok ("l"%byte :: be32 (len (concat frames)) ++ concat frames)
         else Err StructError)).
Proof.
  split; [apply pack_1sIs_limit|]. split; [apply pack_1sIs_limit|].
  intros Ht. cbn [pack is_serializable tressa]. rewrite Ht.
  apply pack_1sIs_limit.
Qed.

(** X7.  A [str] is refused with [UnicodeEncodeError] exactly when it
    holds a surrogate (or, in the model, a number past the last code
    point). *)
Theorem pack_str_encode_error (s : pystr) :
  pack (VStr s : value Obj) = Err UnicodeEncodeError
  <-> Exists (fun c => utf8.is_surrogate c || (1114112 <=? c) = true) s.
Proof.
  rewrite <- utf8_encode_Err. cbn [pack is_serializable tressa]. split.
  - destruct (utf8.encode s) as [b|e] eqn:E; [|by eauto].
    by intros ?%pack_1sIs_error.
  - intros [e E]. rewrite E. by rewrite (utf8_encode_error _ _ E).
Qed.

Lemma pack_items_raises (l : list (value Obj)) e :
  Forall (fun x => forall e, pack x = Err e -> pack_raises e) l ->
  traverse pack l = Err e -> pack_raises e.
Proof.
  intros IH Ht%traverse_error. rewrite Forall_forall in IH.
  apply Exists_exists in Ht as (x & Hx & Ex). by apply (IH x).
Qed.

(** Without a limit on the nested calls, [pack] raises nothing but
    [struct.error], [UnicodeEncodeError], the usage error of a value of an
    unsupported type, and what the [pack] of an extension instance
    raises. *)
Lemma pack_unlimited_raises v e : pack v = Err e -> pack_raises e.
Proof.
  revert e.
  induction v as [o|items IH|items IH|items IH|b|b|s|n|b|x|d|entries IH| |ty]
    using value_induction; intros e; cbn [pack is_serializable tressa].
  - destruct (utf8.encode (class_name o)) as [name|] eqn:En.
    2: { intros [= <-]. right. left. by eapply utf8_encode_error. }
    destruct (utf8.encode (hex name)) as [packed|] eqn:Ep.
    2: { intros [= <-]. right. left. by eapply utf8_encode_error. }
    destruct (obj_pack o) as [body|] eqn:Eb.
    2: { intros [= <-]. do 3 right. by exists o. }
    intros ->%pack_1sIs_error. by left.
  - destruct (traverse pack items) as [frames|] eqn:Et.
    + intros ->%pack_1sIs_error. by left.
    + intros [= <-]. by apply (pack_items_raises items).
  - destruct (traverse pack items) as [frames|] eqn:Et.
    + intros ->%pack_1sIs_error. by left.
    + intros [= <-]. by apply (pack_items_raises items).
  - destruct (traverse pack items) as [frames|] eqn:Et.
    + intros ->%pack_1sIs_error. by left.
    + intros [= <-]. by apply (pack_items_raises items).
  - intros ->%pack_1sIs_error. by left.
  - intros ->%pack_1sIs_error. by left.
  - destruct (utf8.encode s) as [data|] eqn:Es.
    + intros ->%pack_1sIs_error. by left.
    + intros [= <-]. right. left. by eapply utf8_encode_error.
  - unfold struct.pack_1sII, struct.pack_I.
    repeat match goal with |- context [if ?c then _ else _] => destruct c end;
      try done; intros [= <-]; by left.
  - done.
  - by destruct x.
  - destruct (utf8.encode (Decimal_str d)) as [data|] eqn:Es.
    + intros ->%pack_1sIs_error. by left.
    + intros [= <-]. right. left. by eapply utf8_encode_error.
  - destruct (traverse _ entries) as [frames|] eqn:Et.
    + intros ->%pack_1sIs_error. by left.
    + intros [= <-]. apply traverse_error in Et.
      rewrite Forall_forall in IH.
      apply Exists_exists in Et as ([k x] & Hin & Ex).
      destruct (IH _ Hin) as [IHk IHx]. cbn [fst snd] in *.
      destruct (pack k) as [fk|] eqn:Ek; [|injection Ex as <-; by apply IHk].
      destruct (pack x) as [fx|] eqn:Ex'; [|injection Ex as <-; by apply IHx].
      apply pack_1sIs_error in Ex as ->. by left.
  - done.
  - intros [= <-]. right. right. left. by exists ty.
Qed.

(** ** [pack] under the recursion limit *)

Lemma traverse_ext_Forall {A B} (f g : A -> result B) l :
  Forall (fun x => f x = g x) l -> traverse f l = traverse g l.
Proof.
  induction 1 as [|x l Hx _ IH]; [done|].
  cbn [traverse]. fold (traverse f) (traverse g). by rewrite Hx, IH.
Qed.

Lemma traverse_limited {A B} (f g : A -> result B) l :
  (forall x, f x = g x \/ f x = Err OutOfFuel) ->
  traverse f l = traverse g l \/ traverse f l = Err OutOfFuel.
Proof.
  intros Hfg. induction l as [|x l IH]; [by left|].
  cbn [traverse]. fold (traverse f) (traverse g).
  destruct (Hfg x) as [-> | ->]; [|by right].
  destruct (g x); [|by left].
  destruct IH as [-> | ->]; [by left|by right].
Qed.

Lemma depth_pos v : (1 <= depth v)%nat.
Proof. destruct v; cbn [depth]; lia. Qed.

(** The limit only ever turns a result into [RecursionError]. *)
Lemma pack_limited_pack limit :
  forall v, pack_limited limit v = pack v \/ pack_limited limit v = Err OutOfFuel.
Proof.
  induction limit as [|limit IH]; intros v; [by right|].
  destruct v as [o|items|items|items|b|b|s|n|b|x|d|entries| |ty];
    cbn [pack_limited]; try (by left).
  - destruct (traverse_limited (pack_limited limit) pack items IH) as [-> | ->];
      [by left|by right].
  - destruct (traverse_limited (pack_limited limit) pack items IH) as [-> | ->];
      [by left|by right].
  - destruct (traverse_limited (pack_limited limit) pack items IH) as [-> | ->];
      [by left|by right].
  - rewrite pack_dict_unfold.
    destruct (traverse_limited
                (fun '(key, value) => pack_limited limit (VTuple [key; value]))
                pack_entry entries) as [-> | ->]; [|by left|by right].
    intros [key value]. apply IH.
Qed.

(** With room for the nesting of the value the limit changes nothing. *)
Lemma pack_limited_enough limit :
  forall v, (depth v <= limit)%nat -> pack_limited limit v = pack v.
Proof.
  induction limit as [|limit IH]; intros v Hd.
  { pose proof (depth_pos v). lia. }
  destruct v as [o|items|items|items|b|b|s|n|b|x|d|entries| |ty];
    cbn [pack_limited]; try done; cbn [depth] in Hd.
  1-3: rewrite (traverse_ext_Forall (pack_limited limit) pack items); [done|];
       assert (list_max (map depth items) <= limit)%nat as Hm by lia;
       apply list_max_le in Hm; rewrite Forall_map in Hm;
       eapply Forall_impl; [exact Hm|]; intros item ?; by apply IH.
  rewrite pack_dict_unfold.
  rewrite (traverse_ext_Forall
             (fun '(key, value) => pack_limited limit (VTuple [key; value]))
             pack_entry entries); [done|].
  assert (list_max (map (fun '(k, x) => Nat.max (depth k) (depth x)) entries)
          <= limit - 1)%nat as Hm by lia.
  apply list_max_le in Hm. rewrite Forall_map in Hm.
  eapply Forall_impl; [exact Hm|]. intros [key value] Hkv.
  apply IH. cbn [depth map]. unfold list_max. cbn [fold_right].
  cbn beta iota in Hkv. cbn [depth] in Hd. lia.
Qed.

(** X8.  Under a limit on the calls of [pack] open at once, [pack] returns
    what it returns without the limit or raises [RecursionError]; the limit
    changes nothing when it leaves room for the nesting of the value; and
    an exception that leaves [pack] is [RecursionError], [struct.error],
    [UnicodeEncodeError], the usage error of a value of an unsupported
    type, or what the [pack] of an extension instance raises. *)
Theorem pack_errors (limit : nat) v e :
  (pack_limited limit v = pack v \/ pack_limited limit v = Err OutOfFuel)
  /\ ((depth v <= limit)%nat -> pack_limited limit v = pack v)
  /\ (pack_limited limit v = Err e -> e = OutOfFuel \/ pack_raises e).
Proof.
  split; [apply pack_limited_pack|]. split; [apply pack_limited_enough|].
  destruct (pack_limited_pack limit v) as [-> | ->].
  - intros ?%pack_unlimited_raises. by right.
  - intros [= <-]. by left.
Qed.

(** ** What [unpack] reads and what it leaves unread *)

(** The tags whose frames carry their own length: what follows the
    payload is not read, and the fuel does not matter. *)
Lemma unpack_fuel_delimited inject code payload s1 s2 n m :
  code ∈ ["p"; "l"; "e"; "t"; "d"; "b"; "a"; "s"; "D"]%byte ->
  len payload < 2^32 ->
  (length payload < n)%nat -> (length payload < m)%nat ->
  unpack_fuel globals (S n) (code :: be32 (len payload) ++ payload ++ s1) inject
  = unpack_fuel globals (S m) (code :: be32 (len payload) ++ payload ++ s2) inject.
Proof.
  intros Hcode Hlen Hn Hm.
  cbn [unpack_fuel struct.unpack_1s_rest].
  rewrite !unpack_I_rest_be32, !unpack_ns_rest_app by done.
  repeat (case_bool_decide; [done|]).
  case_bool_decide.
  - rewrite (unpack_items_ext (fun item => unpack_fuel globals n item inject)
               (fun item => unpack_fuel globals m item inject)
               (length payload) (length payload)); [done| |done..].
    intros item ?. apply unpack_fuel_ext; lia.
  - repeat (case_bool_decide; [first [done|by exfalso; subst code; tag_cases Hcode]|]).
    done.
Qed.

(** X9.  Bytes that follow an encoding change nothing to what [unpack]
    returns for it, whatever the type of the value, except a [bool]: the
    format of a [bool] frame takes exactly five bytes after the tag. *)
Theorem unpack_ignores_suffix inject v frame suffix :
  pack v = Ok frame ->
  ((forall b, v <> VBool b) ->
   unpack globals (frame ++ suffix) inject = unpack globals frame inject)
  /\ ((exists b, v = VBool b) -> suffix <> [] ->
      unpack globals (frame ++ suffix) inject = Err StructError).
Proof.
  intros Hpack. split.
  - intros Hbool.
    assert (forall code payload,
              code ∈ ["p"; "l"; "e"; "t"; "d"; "b"; "a"; "s"; "D"]%byte ->
              framed code payload frame ->
              unpack globals (frame ++ suffix) inject = unpack globals frame inject)
      as Hdel.
    { intros code payload Hcode [-> Hlen].
      pose proof (unpack_fuel_delimited inject code payload suffix []
                    (length (code :: be32 (len payload) ++ payload ++ suffix))
                    (length (code :: be32 (len payload) ++ payload))
                    Hcode Hlen) as H.
      rewrite app_nil_r in H. unfold unpack. cbn [app]. rewrite <- app_assoc.
      apply H; cbn [length]; rewrite !length_app; lia. }
    destruct v; cbn [pack is_serializable tressa] in Hpack;
      repeat match type of Hpack with
      | context [match ?e with Ok _ => _ | Err _ => _ end] =>
          destruct e eqn:?; [|done]
      end;
      try (apply pack_1sIs_inv in Hpack; eapply Hdel; [|exact Hpack];
           rewrite !elem_of_cons; tauto).
    + apply pack_int_inv in Hpack as [Hn ->].
      destruct (be32_value_be32 (Z.to_N n)) as (?&?&?&?& E & Ev); [lia|].
      rewrite E. reflexivity.
    + by destruct (Hbool b).
    + destruct x. injection Hpack as <-. reflexivity.
    + injection Hpack as <-. reflexivity.
    + done.
  - intros [b ->] Hs. cbn [pack is_serializable tressa] in Hpack.
    injection Hpack as <-. destruct suffix; [done|]. by destruct b.
Qed.

(** X10.  The length field of an [int], [float], [bool] or [None] frame is
    not looked at: whatever its four bytes, an [int] is read from the four
    bytes after it and a [float] from the eight bytes after it (more bytes
    may follow), a [bool] is true for any non-zero byte, and the tag of
    [None] alone is enough. *)
Theorem unpack_length_field_unchecked inject (l0 l1 l2 l3 : byte) :
  (forall n rest,
     n < 2^32 ->
     unpack globals ("i"%byte :: [l0; l1; l2; l3] ++ be32 n ++ rest) inject
     = Ok (VInt (Z.of_N n)))
  /\ (forall b0 b1 b2 b3 b4 b5 b6 b7 rest,
        unpack globals ("f"%byte :: [l0; l1; l2; l3]
                          ++ [b0; b1; b2; b3; b4; b5; b6; b7] ++ rest) inject
        = Ok (VFloat (Float b0 b1 b2 b3 b4 b5 b6 b7)))
  /\ (forall flag,
        unpack globals ("B"%byte :: [l0; l1; l2; l3] ++ [flag]) inject
        = Ok (VBool (negb (Byte.eqb flag x00))))
  /\ (forall rest, unpack globals ("n"%byte :: rest) inject = Ok VNone).
Proof.
  repeat split; try reflexivity.
  intros n rest Hn.
  destruct (be32_value_be32 n Hn) as (?&?&?&?& -> & <-). reflexivity.
Qed.

(** X11.  Input that ends too early is a [struct.error]: no byte at all,
    a length field cut short, a payload shorter than its length field
    says, an [int] or a [float] with bytes missing, a [bool] frame that
    does not have five bytes after the tag. *)
Theorem unpack_truncated inject :
  unpack globals [] inject = Err StructError
  /\ (forall code rest,
        code ∈ ["p"; "l"; "e"; "t"; "d"; "b"; "a"; "s"; "D"]%byte ->
        (length rest < 4)%nat ->
        unpack globals (code :: rest) inject = Err StructError)
  /\ (forall code n rest,
        code ∈ ["p"; "l"; "e"; "t"; "d"; "b"; "a"; "s"; "D"]%byte ->
        n < 2^32 -> len rest < n ->
        unpack globals (code :: be32 n ++ rest) inject = Err StructError)
  /\ (forall rest, (length rest < 8)%nat ->
        unpack globals ("i"%byte :: rest) inject = Err StructError)
  /\ (forall rest, (length rest < 12)%nat ->
        unpack globals ("f"%byte :: rest) inject = Err StructError)
  /\ (forall rest, length rest <> 5%nat ->
        unpack globals ("B"%byte :: rest) inject = Err StructError).
Proof.
  split; [reflexivity|]. split; [|split; [|split; [|split]]].
  - intros code rest Hcode Hrest. unfold unpack.
    cbn [unpack_fuel struct.unpack_1s_rest].
    rewrite (unpack_I_rest_short rest Hrest).
    tag_cases Hcode; subst code; reflexivity.
  - intros code n rest Hcode Hn Hrest. unfold unpack.
    cbn [unpack_fuel struct.unpack_1s_rest].
    rewrite (unpack_I_rest_be32 n rest Hn), (unpack_ns_rest_short n rest Hrest).
    tag_cases Hcode; subst code; reflexivity.
  - intros rest Hrest.
    destruct rest as [|? [|? [|? [|? [|? [|? [|? [|? ?]]]]]]]]; try done.
    cbn [length] in Hrest. lia.
  - intros rest Hrest.
    destruct rest
      as [|? [|? [|? [|? [|? [|? [|? [|? [|? [|? [|? [|? ?]]]]]]]]]]]]; try done.
    cbn [length] in Hrest. lia.
  - intros rest Hrest.
    destruct rest as [|? [|? [|? [|? [|? [|? ?]]]]]]; try done.
Qed.

(** ** The items of a container *)

(** The loop on frames that decode, followed by more bytes [tail]: the
    values of the frames are collected and the loop goes on with [tail]. *)
Lemma unpack_items_then inject fuel fs vs tail :
  Forall2 (fun f v => (exists code payload, framed code payload f)
                      /\ unpack globals f inject = Ok v) fs vs ->
  (length (concat fs ++ tail) < fuel)%nat ->
  forall rounds items,
    (length (concat fs ++ tail) <= rounds)%nat ->
    unpack_items (fun item => unpack_fuel globals fuel item inject)
      rounds (concat fs ++ tail) items
    = unpack_items (fun item => unpack_fuel globals fuel item inject)
        (length tail) tail (items ++ vs).
Proof.
  induction 1 as [|f v fs vs [(code & payload & Hf & Hlen) Hv] _ IH];
    intros Hfuel rounds items Hr.
  - cbn [concat app length] in *. rewrite app_nil_r.
    apply unpack_items_ext; [done|lia..].
  - cbn [concat] in *. rewrite <- app_assoc in *. rewrite !length_app in *.
    pose proof (framed_length _ _ _ (conj Hf Hlen)) as Hl.
    destruct rounds as [|rounds]; [lia|].
    assert (struct.unpack_1sI_rest (f ++ concat fs ++ tail)
            = Ok (code, len payload, payload ++ concat fs ++ tail)) as E1.
    { rewrite Hf. destruct (be32_value_be32 _ Hlen) as (?&?&?&?& -> & <-).
      reflexivity. }
    assert (5 + len payload = len f) as E2.
    { unfold len. rewrite Hl. lia. }
    rewrite unpack_items_step, E1, E2, unpack_ns_rest_app.
    2: { intros Ef. apply (f_equal length) in Ef. rewrite length_app in Ef.
         cbn in Ef. lia. }
    rewrite unpack_fuel_stable, Hv by lia.
    rewrite IH by (rewrite ?length_app; lia). by rewrite <- app_assoc.
Qed.

Lemma unpack_fuel_container_then inject code fs vs tail frame :
  code ∈ ["l"; "e"; "t"; "d"]%byte ->
  framed code (concat fs ++ tail) frame ->
  Forall2 (fun f v => (exists c p, framed c p f)
                      /\ unpack globals f inject = Ok v) fs vs ->
  unpack globals frame inject
  = (items <- unpack_items
                (fun item => unpack_fuel globals (length frame) item inject)
                (length tail) tail vs ;;
     container_of code items).
Proof.
  intros Hcode [-> Hlen] Hfs. unfold unpack.
  cbn [unpack_fuel struct.unpack_1s_rest].
  assert (code <> "p"%byte) by (intros ->; by destruct p_not_container).
  rewrite bool_decide_false, (bool_decide_true _ Hcode) by done.
  rewrite unpack_I_rest_be32 by done.
  rewrite <- (app_nil_r (concat fs ++ tail)) at 2.
  rewrite unpack_ns_rest_app.
  rewrite (unpack_items_then inject _ fs vs tail Hfs); [done| |done].
  cbn [length]. rewrite !length_app. lia.
Qed.

(** X12.  The items of a container are decoded from left to right, and
    the exception of the first item that does not decode is the exception
    of the container; what follows that item is not looked at. *)
Theorem unpack_first_bad_item inject code fs vs f c p rest frame e :
  code ∈ ["l"; "e"; "t"; "d"]%byte ->
  Forall2 (fun f v => (exists c p, framed c p f)
                      /\ unpack globals f inject = Ok v) fs vs ->
  framed c p f ->
  unpack globals f inject = Err e ->
  framed code (concat fs ++ f ++ rest) frame ->
  unpack globals frame inject = Err e.
Proof.
  intros Hcode Hfs [Hf Hp] He Hframe.
  rewrite (unpack_fuel_container_then inject code fs vs (f ++ rest) frame);
    try done.
  pose proof (framed_length _ _ _ Hframe) as Hl.
  rewrite !length_app in Hl.
  assert (length f = 5 + length p)%nat as Hlf by (by rewrite Hf).
  destruct (length (f ++ rest)) as [|rounds] eqn:Er.
  { rewrite length_app in Er. lia. }
  assert (struct.unpack_1sI_rest (f ++ rest) = Ok (c, len p, p ++ rest)) as E1.
  { rewrite Hf. destruct (be32_value_be32 _ Hp) as (?&?&?&?& -> & <-).
    reflexivity. }
  assert (5 + len p = len f) as E2.
  { unfold len. rewrite Hlf. lia. }
  rewrite unpack_items_step, E1, E2, unpack_ns_rest_app.
  2: { intros Ef. apply (f_equal length) in Ef. rewrite length_app in Ef.
       cbn in Ef. lia. }
  rewrite unpack_fuel_stable, He by lia. done.
Qed.

(** X13.  A container whose payload ends, after frames that decode, in
    bytes that are no frame (fewer than five of them, or a header that
    announces more bytes than are left) is a [struct.error]. *)
Theorem unpack_container_junk inject code fs vs frame :
  code ∈ ["l"; "e"; "t"; "d"]%byte ->
  Forall2 (fun f v => (exists c p, framed c p f)
                      /\ unpack globals f inject = Ok v) fs vs ->
  (forall junk,
     junk <> [] -> (length junk < 5)%nat ->
     framed code (concat fs ++ junk) frame ->
     unpack globals frame inject = Err StructError)
  /\ (forall c n rest,
        n < 2^32 -> len rest < n ->
        framed code (concat fs ++ c :: be32 n ++ rest) frame ->
        unpack globals frame inject = Err StructError).
Proof.
  intros Hcode Hfs. split.
  - intros junk Hne Hshort Hframe.
    rewrite (unpack_fuel_container_then inject code fs vs junk frame);
      try done.
    destruct junk as [|? [|? [|? [|? [|? ?]]]]]; try done.
    cbn [length] in Hshort. lia.
  - intros c n rest Hn Hrest Hframe.
    rewrite (unpack_fuel_container_then inject code fs vs
               (c :: be32 n ++ rest) frame); try done.
    destruct (be32_value_be32 n Hn) as (b0 & b1 & b2 & b3 & E & Ev).
    rewrite E. cbn [app length unpack_items struct.unpack_1sI_rest].
    rewrite Ev. rewrite unpack_ns_rest_short; [done|].
    rewrite !len_cons. lia.
Qed.

Lemma set_of_unhashable (items s : list (value Obj)) :
  Exists (fun x => hashable x = false) items -> set_of s items = Err TypeError.
Proof.
  intros H. revert s. induction H as [x items Hx|x items _ IH]; intros s;
    cbn [set_of].
  - by rewrite Hx.
  - destruct (hashable x); [apply IH|done].
Qed.

Lemma dict_of_unhashable (l d : list (value Obj * value Obj)) :
  Exists (fun e => hashable e.1 = false) l ->
  dict_of d (map pair_of l) = Err TypeError.
Proof.
  intros H. revert d. induction H as [[k x] l Hx|[k x] l _ IH]; intros d;
    cbn [map dict_of pair_of getitem fst snd lookup list_lookup].
  - cbn [fst] in Hx. by rewrite Hx.
  - destruct (hashable k); [apply IH|done].
Qed.

(** X14.  A set frame with an element that cannot be hashed (a list, a
    set, a dict, a bytearray), and a dict frame with such a key, are a
    [TypeError]. *)
Theorem unpack_unhashable inject fs vs frame :
  Forall2 (fun f v => (exists c p, framed c p f)
                      /\ unpack globals f inject = Ok v) fs vs ->
  (framed "e" (concat fs) frame ->
   Exists (fun x => hashable x = false) vs ->
   unpack globals frame inject = Err TypeError)
  /\ (forall d,
        framed "d" (concat fs) frame ->
        vs = map pair_of d ->
        Exists (fun e => hashable e.1 = false) d ->
        unpack globals frame inject = Err TypeError).
Proof.
  intros Hfs. split.
  - intros Hframe Hex. rewrite <- (app_nil_r (concat fs)) in Hframe.
    rewrite (unpack_fuel_container_then inject "e" fs vs [] frame); try done.
    + cbn [unpack_items length]. unfold container_of.
      change (bool_decide ("e"%byte = "l"%byte)) with false.
      change (bool_decide ("e"%byte = "e"%byte)) with true. cbv iota.
      by rewrite set_of_unhashable.
    + rewrite !elem_of_cons. auto.
  - intros d Hframe -> Hex. rewrite <- (app_nil_r (concat fs)) in Hframe.
    rewrite (unpack_fuel_container_then inject "d" fs (map pair_of d) [] frame);
      try done.
    + cbn [unpack_items length]. unfold container_of.
      change (bool_decide ("d"%byte = "l"%byte)) with false.
      change (bool_decide ("d"%byte = "e"%byte)) with false.
      change (bool_decide ("d"%byte = "t"%byte)) with false. cbv iota.
      by rewrite dict_of_unhashable.
    + rewrite !elem_of_cons. auto.
Qed.

(** X15.  Equal elements of a set frame are merged: of two elements
    that are equal (as [1] and [True] are) the first is kept, and two
    elements that differ are both in the set. *)
Theorem unpack_set_merges_equal inject f1 f2 c1 p1 c2 p2 x1 x2 frame :
  framed c1 p1 f1 -> framed c2 p2 f2 ->
  unpack globals f1 inject = Ok x1 -> unpack globals f2 inject = Ok x2 ->
  hashable x1 = true -> hashable x2 = true ->
  framed "e" (f1 ++ f2) frame ->
  (py_eq x1 x2 = true -> unpack globals frame inject = Ok (VSet [x1]))
  /\ (py_eq x1 x2 = false ->
      exists s, unpack globals frame inject = Ok (VSet s)
                /\ length s = 2%nat /\ x1 ∈ s /\ x2 ∈ s).
Proof.
  intros F1 F2 H1 H2 Hh1 Hh2 Hframe.
  assert (unpack globals frame inject
          = Ok (VSet (if py_eq x1 x2 then [x1] else [x1; x2]))) as ->.
  { rewrite (unpack_fuel_container_then inject "e" [f1; f2] [x1; x2] [] frame).
    - cbn [unpack_items length]. unfold container_of.
      change (bool_decide ("e"%byte = "l"%byte)) with false.
      change (bool_decide ("e"%byte = "e"%byte)) with true. cbv iota.
      cbn [set_of]. rewrite Hh1, Hh2. unfold set_add. cbn [existsb app].
      rewrite orb_false_r. by destruct (py_eq x1 x2).
    - rewrite !elem_of_cons. auto.
    - cbn [concat]. by rewrite !app_nil_r.
    - repeat constructor; by eauto. }
  split; intros ->; [done|].
  exists [x1; x2]. repeat split; rewrite ?elem_of_cons; auto.
Qed.

(** X16.  The items of a dict frame need not be pairs: the key and the
    value are [item[0]] and [item[1]] of whatever the item is.  A tuple or
    a list with more than two elements gives its first two, a string its
    first two characters; a tuple or list with fewer than two elements is
    an [IndexError], and an item that cannot be subscripted a
    [TypeError]. *)
Theorem unpack_dict_item_shapes inject f c p v frame :
  framed c p f ->
  unpack globals f inject = Ok v ->
  framed "d" f frame ->
  (forall k x more,
     v = VTuple (k :: x :: more) \/ v = VList (k :: x :: more) ->
     hashable k = true ->
     unpack globals frame inject = Ok (VDict [(k, x)]))
  /\ (forall a b more,
        v = VStr (a :: b :: more) ->
        unpack globals frame inject = Ok (VDict [(VStr [a], VStr [b])]))
  /\ (forall items,
        v = VTuple items \/ v = VList items -> (length items < 2)%nat ->
        unpack globals frame inject = Err IndexError)
  /\ ((exists n, v = VInt n) \/ (exists b, v = VBool b) \/ (exists x, v = VFloat x)
      \/ (exists d, v = VDecimal d) \/ (exists s, v = VSet s) \/ v = VNone ->
      unpack globals frame inject = Err TypeError).
Proof.
  intros Hf Hv Hframe.
  assert (unpack globals frame inject
          = (d <- dict_of [] [v] ;; Ok (VDict d))) as ->.
  { rewrite (unpack_fuel_container_then inject "d" [f] [v] [] frame).
    - reflexivity.
    - rewrite !elem_of_cons. auto.
    - cbn [concat]. by rewrite !app_nil_r.
    - repeat constructor; by eauto. }
  split; [|split; [|split]].
  - intros k x more [-> | ->] Hk;
      cbn [dict_of getitem lookup list_lookup]; by rewrite Hk.
  - intros a b more ->. reflexivity.
  - intros items [-> | ->] Hlen;
      destruct items as [|k [|x more]]; try done; cbn [length] in Hlen; lia.
  - intros [[n ->]|[[b ->]|[[x ->]|[[d ->]|[[s ->]| ->]]]]]; reflexivity.
Qed.

(** X17.  A frame of [bytes], [bytearray] or [str] that ends with its
    payload: what [unpack] returns for it is encoded by [pack] as that
    very frame, and the only exception is [UnicodeDecodeError], for a
    [str] payload that is not UTF-8. *)
Theorem unpack_pack_leaf inject code payload frame :
  code ∈ ["b"; "a"; "s"]%byte ->
  framed code payload frame ->
  (forall v, unpack globals frame inject = Ok v -> pack v = Ok frame)
  /\ (forall e, unpack globals frame inject = Err e ->
        code = "s"%byte /\ e = UnicodeDecodeError).
Proof.
  intros Hcode [-> Hlen].
  assert (unpack globals (code :: be32 (len payload) ++ payload) inject
          = if bool_decide (code = "s"%byte)
            then s <- utf8.decode payload ;; Ok (VStr s)
            else Ok (if bool_decide (code = "b"%byte) then VBytes payload
                     else VBytearray payload)) as ->.
  { unfold unpack. rewrite <- (app_nil_r payload) at 4.
    cbn [unpack_fuel struct.unpack_1s_rest].
    rewrite unpack_I_rest_be32, unpack_ns_rest_app by done.
    rewrite !elem_of_cons, elem_of_nil in Hcode.
    destruct Hcode as [->|[->|[->|[]]]]; reflexivity. }
  rewrite !elem_of_cons, elem_of_nil in Hcode.
  destruct Hcode as [->|[->|[->|[]]]].
  - change (bool_decide ("b"%byte = "s"%byte)) with false.
    change (bool_decide ("b"%byte = "b"%byte)) with true. cbv iota.
    split; [|done]. intros v [= <-]. cbn [pack is_serializable tressa].
    by apply pack_1sIs_framed.
  - change (bool_decide ("a"%byte = "s"%byte)) with false.
    change (bool_decide ("a"%byte = "b"%byte)) with false. cbv iota.
    split; [|done]. intros v [= <-]. cbn [pack is_serializable tressa].
    by apply pack_1sIs_framed.
  - change (bool_decide ("s"%byte = "s"%byte)) with true. cbv iota.
    destruct (utf8.decode payload) as [s|e'] eqn:E.
    + split; [|done]. intros v [= <-]. cbn [pack is_serializable tressa].
      rewrite (utf8_encode_decode _ _ E). by apply pack_1sIs_framed.
    + split; [done|]. intros e [= <-]. split; [done|].
      by eapply utf8_decode_error.
Qed.

(** ** The exceptions of [unpack], and its termination *)

Lemma getitem_raises (x : value Obj) i e :
  getitem x i = Err e -> e ∈ [TypeError; IndexError; KeyError].
Proof.
  destruct x; cbn [getitem];
    repeat match goal with
      | |- context [match ?o with Some _ => _ | None => _ end] => destruct o
      end; try done; intros [= <-]; rewrite !elem_of_cons; auto.
Qed.

Lemma dict_of_raises (items : list (value Obj)) d e :
  dict_of d items = Err e -> e ∈ [TypeError; IndexError; KeyError].
Proof.
  revert d. induction items as [|x items IH]; intros d; cbn [dict_of]; [done|].
  destruct (getitem x 0) eqn:E0; [|intros [= <-]; by eapply getitem_raises].
  destruct (getitem x 1) eqn:E1; [|intros [= <-]; by eapply getitem_raises].
  destruct (hashable _); [apply IH|].
  intros [= <-]. rewrite !elem_of_cons; auto.
Qed.

Lemma unpack_raises_struct inject : unpack_raises globals inject StructError.
Proof. left. rewrite !elem_of_cons. auto. Qed.

Lemma unpack_raises_decode inject : unpack_raises globals inject UnicodeDecodeError.
Proof. left. rewrite !elem_of_cons. auto. Qed.

Lemma unpack_raises_item inject e :
  e ∈ [TypeError; IndexError; KeyError] -> unpack_raises globals inject e.
Proof. intros H. left. revert H. rewrite !elem_of_cons. tauto. Qed.

Lemma unpack_items_raises inject (rec : bytes -> result (value Obj)) :
  forall rounds let_data items e,
    (forall item e, (length item <= length let_data)%nat ->
                    rec item = Err e -> unpack_raises globals inject e) ->
    (length let_data <= rounds)%nat ->
    unpack_items rec rounds let_data items = Err e ->
    unpack_raises globals inject e.
Proof.
  induction rounds as [|rounds IH]; intros let_data items e Hrec Hr.
  - destruct let_data; [done|cbn in Hr; lia].
  - destruct let_data as [|c let_data]; [done|]. cbn [unpack_items].
    destruct (struct.unpack_1sI_rest (c :: let_data)) as [[[? item_len] ?]|] eqn:E.
    2: { intros [= <-]. apply unpack_1sI_rest_error in E as ->.
         apply unpack_raises_struct. }
    destruct (struct.unpack_ns_rest _ _) as [[item rest]|] eqn:E2.
    2: { intros [= <-]. apply unpack_ns_rest_error in E2 as ->.
         apply unpack_raises_struct. }
    apply unpack_ns_rest_length in E2 as [E1 E2].
    destruct (rec item) as [v|e'] eqn:Ev.
    2: { intros [= <-]. apply (Hrec item); [lia|done]. }
    cbn [length] in *. apply IH; [|lia].
    intros item' ? ?. apply Hrec. cbn [length]. lia.
Qed.

Lemma unpack_fuel_raises inject :
  forall fuel data e,
    (length data < fuel)%nat ->
    unpack_fuel globals fuel data inject = Err e ->
    unpack_raises globals inject e.
Proof.
  induction fuel as [|fuel IH]; intros data e Hfuel; [lia|].
  cbn [unpack_fuel].
  destruct data as [|code data].
  { intros [= <-]. apply unpack_raises_struct. }
  cbn [struct.unpack_1s_rest]. cbn [length] in Hfuel.
  destruct (bool_decide (code = "p"%byte)).
  { destruct (struct.unpack_I_rest data) as [[packed_len data']|] eqn:E1.
    2: { intros [= <-]. apply unpack_I_rest_error in E1 as ->.
         apply unpack_raises_struct. }
    destruct (struct.unpack_ns_rest _ _) as [[packed ?]|] eqn:E2.
    2: { intros [= <-]. apply unpack_ns_rest_error in E2 as ->.
         apply unpack_raises_struct. }
    destruct (partition _ packed) as [packed_class packed_data].
    destruct (utf8.decode packed_class) as [s|] eqn:E3.
    2: { intros [= <-]. apply utf8_decode_error in E3 as ->.
         apply unpack_raises_decode. }
    destruct (fromhex s) as [raw|] eqn:E4.
    2: { intros [= <-]. apply fromhex_error in E4 as ->.
         left. rewrite !elem_of_cons. auto. }
    destruct (utf8.decode raw) as [name|] eqn:E5.
    2: { intros [= <-]. apply utf8_decode_error in E5 as ->.
         apply unpack_raises_decode. }
    destruct ((inject ∪ globals) !! name) as [cls|] eqn:E6.
    2: { rewrite bool_decide_false by (by intros [??]). intros [= <-].
         right. left. exists name. by left. }
    rewrite bool_decide_true by eauto. cbn [tressa].
    destruct (h_unpack cls) as [cls_unpack|] eqn:E7.
    2: { rewrite bool_decide_false by (by intros [??]). intros [= <-].
         right. left. exists name. by right. }
    rewrite bool_decide_true by eauto. cbn [tressa].
    destruct (cls_unpack packed_data) eqn:E8; [done|].
    intros [= <-]. do 3 right. by exists name, cls, cls_unpack, packed_data. }
  destruct (bool_decide (code ∈ ["l"; "e"; "t"; "d"]%byte)).
  { destruct (struct.unpack_I_rest data) as [[let_len data']|] eqn:E1.
    2: { intros [= <-]. apply unpack_I_rest_error in E1 as ->.
         apply unpack_raises_struct. }
    destruct (struct.unpack_ns_rest _ _) as [[let_data ?]|] eqn:E2.
    2: { intros [= <-]. apply unpack_ns_rest_error in E2 as ->.
         apply unpack_raises_struct. }
    apply unpack_ns_rest_length in E2 as [_ E2].
    assert (length data' <= length data)%nat
      by (destruct data as [|? [|? [|? [|? ?]]]]; try done;
          injection E1 as _ <-; cbn [length]; lia).
    destruct (unpack_items _ _ _ _) as [items|e'] eqn:E3.
    2: { intros [= <-]. revert E3. apply unpack_items_raises; [|done].
         intros item e0 ?. apply IH. lia. }
    destruct (bool_decide (code = "l"%byte)); [done|].
    destruct (bool_decide (code = "e"%byte)).
    { destruct (set_of [] items) eqn:E4; [done|].
      intros [= <-]. apply set_of_error in E4 as ->.
      left. rewrite !elem_of_cons. auto. }
    destruct (bool_decide (code = "t"%byte)); [done|].
    destruct (dict_of [] items) eqn:E4; [done|].
    intros [= <-]. by eapply unpack_raises_item, dict_of_raises. }
  destruct (bool_decide (code ∈ ["b"; "a"]%byte)).
  { destruct (struct.unpack_I_rest data) as [[bt_len data']|] eqn:E1.
    2: { intros [= <-]. apply unpack_I_rest_error in E1 as ->.
         apply unpack_raises_struct. }
    destruct (struct.unpack_ns_rest _ _) as [[bt_data ?]|] eqn:E2; [done|].
    intros [= <-]. apply unpack_ns_rest_error in E2 as ->.
    apply unpack_raises_struct. }
  destruct (bool_decide (code = "s"%byte)).
  { destruct (struct.unpack_I_rest data) as [[s_len data']|] eqn:E1.
    2: { intros [= <-]. apply unpack_I_rest_error in E1 as ->.
         apply unpack_raises_struct. }
    destruct (struct.unpack_ns_rest _ _) as [[s ?]|] eqn:E2.
    2: { intros [= <-]. apply unpack_ns_rest_error in E2 as ->.
         apply unpack_raises_struct. }
    destruct (utf8.decode s) eqn:E3; [done|].
    intros [= <-]. apply utf8_decode_error in E3 as ->.
    apply unpack_raises_decode. }
  destruct (bool_decide (code = "i"%byte)).
  { destruct data as [|? [|? [|? [|? [|? [|? [|? [|? ?]]]]]]]]; try done;
      intros [= <-]; apply unpack_raises_struct. }
  destruct (bool_decide (code = "B"%byte)).
  { destruct data as [|? [|? [|? [|? [|? [|? ?]]]]]]; try done;
      intros [= <-]; apply unpack_raises_struct. }
  destruct (bool_decide (code = "f"%byte)).
  { destruct data
      as [|? [|? [|? [|? [|? [|? [|? [|? [|? [|? [|? [|? ?]]]]]]]]]]]]; try done;
      intros [= <-]; apply unpack_raises_struct. }
  destruct (bool_decide (code = "D"%byte)).
  { destruct (struct.unpack_I_rest data) as [[s_len data']|] eqn:E1.
    2: { intros [= <-]. apply unpack_I_rest_error in E1 as ->.
         apply unpack_raises_struct. }
    destruct (struct.unpack_ns_rest _ _) as [[s ?]|] eqn:E2.
    2: { intros [= <-]. apply unpack_ns_rest_error in E2 as ->.
         apply unpack_raises_struct. }
    destruct (utf8.decode s) as [s'|] eqn:E3.
    2: { intros [= <-]. apply utf8_decode_error in E3 as ->.
         apply unpack_raises_decode. }
    destruct (Decimal_new s') eqn:E4; [done|].
    intros [= <-]. right. right. left. by exists s'. }
  by destruct (bool_decide (code = "n"%byte)).
Qed.

(** More room for the nested calls changes a result only where the
    room had run out. *)
Lemma unpack_items_limited (rec1 rec2 : bytes -> result (value Obj)) :
  (forall item, rec1 item = rec2 item \/ rec1 item = Err OutOfFuel) ->
  forall rounds let_data items,
    unpack_items rec1 rounds let_data items = unpack_items rec2 rounds let_data items
    \/ unpack_items rec1 rounds let_data items = Err OutOfFuel.
Proof.
  intros Hrec. induction rounds as [|rounds IH]; intros let_data items.
  { by left. }
  destruct let_data as [|c let_data]; [by left|]. cbn [unpack_items].
  destruct (struct.unpack_1sI_rest (c :: let_data)) as [[[? item_len] ?]|];
    [|by left].
  destruct (struct.unpack_ns_rest _ _) as [[item rest]|]; [|by left].
  destruct (Hrec item) as [-> | ->]; [|by right].
  destruct (rec2 item) as [v'|]; [|by left]. apply IH.
Qed.

Lemma unpack_fuel_limited inject :
  forall fuel fuel' data,
    (fuel <= fuel')%nat ->
    unpack_fuel globals fuel data inject = unpack_fuel globals fuel' data inject
    \/ unpack_fuel globals fuel data inject = Err OutOfFuel.
Proof.
  induction fuel as [|fuel IH]; intros fuel' data Hle; [by right|].
  destruct fuel' as [|fuel']; [lia|]. cbn [unpack_fuel].
  destruct (struct.unpack_1s_rest data) as [[code data']|]; [|by left].
  destruct (bool_decide (code = "p"%byte)); [by left|].
  destruct (bool_decide (code ∈ ["l"; "e"; "t"; "d"]%byte)); [|by left].
  destruct (struct.unpack_I_rest data') as [[let_len data'']|]; [|by left].
  destruct (struct.unpack_ns_rest _ _) as [[let_data ?]|]; [|by left].
  destruct (unpack_items_limited
              (fun item => unpack_fuel globals fuel item inject)
              (fun item => unpack_fuel globals fuel' item inject)
              (fun item => IH fuel' item ltac:(lia))
              (length let_data) let_data []) as [-> | ->];
    [by left|by right].
Qed.

(** X18.  With room for [limit] calls of [unpack] open at once, [unpack]
    returns what it returns without the limit or raises [RecursionError]
    (the [OutOfFuel] of the model); the limit changes nothing when it is
    greater than the number of bytes; and an exception that leaves [unpack]
    is [RecursionError], [struct.error], [UnicodeDecodeError], [ValueError]
    (a class name that is not hexadecimal), [TypeError], [IndexError] or
    [KeyError] (the items of a set or a dict), one of the two usage errors
    of the lookup of a class, or what [Decimal(...)] or the [unpack] of a
    registered class raises. *)
Theorem unpack_errors inject (limit : nat) data e :
  (unpack_fuel globals limit data inject = unpack globals data inject
   \/ unpack_fuel globals limit data inject = Err OutOfFuel)
  /\ ((length data < limit)%nat ->
      unpack_fuel globals limit data inject = unpack globals data inject)
  /\ (unpack_fuel globals limit data inject = Err e ->
      e = OutOfFuel \/ unpack_raises globals inject e).
Proof.
  assert (unpack_fuel globals limit data inject = unpack globals data inject
          \/ unpack_fuel globals limit data inject = Err OutOfFuel) as Hl.
  { destruct (Nat.le_gt_cases limit (S (length data))) as [Hle|Hgt].
    - by apply unpack_fuel_limited.
    - left. apply unpack_fuel_stable. lia. }
  split; [exact Hl|]. split; [apply unpack_fuel_stable|].
  destruct Hl as [-> | ->].
  - intros He. right. revert He. apply unpack_fuel_raises. lia.
  - intros [= <-]. by left.
Qed.

(** X19.  [unpack] comes to an end on every input: every round of its
    loop and every nested call works on fewer bytes, so that one unit of
    fuel per byte is never used up, and more fuel changes nothing. *)
Theorem unpack_terminates inject data :
  (forall s, Decimal_new s <> Err OutOfFuel) ->
  (forall name cls cls_unpack body,
     (inject ∪ globals) !! name = Some cls -> h_unpack cls = Some cls_unpack ->
     cls_unpack body <> Err OutOfFuel) ->
  unpack globals data inject <> Err OutOfFuel
  /\ (forall fuel, (length data < fuel)%nat ->
        unpack_fuel globals fuel data inject = unpack globals data inject).
Proof.
  intros Hdec Hcls. split; [by apply unpack_enough|].
  intros fuel. apply unpack_fuel_stable.
Qed.

End CodecMore.

(** ** The classes of the test suite *)

Lemma be16_value_be16 n :
  n < 2^16 ->
  exists b0 b1, be16 n = [b0; b1] /\ be16_value b0 b1 = n.
Proof.
  intros Hn. do 2 eexists. split; [reflexivity|].
  unfold be16_value. rewrite !to_N_byte_of_N.
  change (2^8) with 256. change (2^16) with 65536 in Hn. lia.
Qed.

Lemma pack_HHss_inv key value out :
  struct_HH.pack_HHss key value = Ok out ->
  len key < 2^16 /\ len value < 2^16
  /\ out = be16 (len key) ++ be16 (len value) ++ key ++ value.
Proof.
  unfold struct_HH.pack_HHss, struct_HH.pack_H.
  destruct (N.ltb_spec (len key) (2^16)); [|done].
  destruct (N.ltb_spec (len value) (2^16)); [|done].
  by intros [= <-].
Qed.

Lemma unpack_HH_rest_be16 n m rest :
  n < 2^16 -> m < 2^16 ->
  struct_HH.unpack_HH_rest (be16 n ++ be16 m ++ rest) = Ok (n, m, rest).
Proof.
  intros (a0 & a1 & -> & <-)%be16_value_be16 (b0 & b1 & -> & <-)%be16_value_be16.
  reflexivity.
Qed.

Lemma unpack_ss_app (a b : bytes) :
  struct_HH.unpack_ss (len a) (len b) (a ++ b) = Ok (a, b).
Proof.
  unfold struct_HH.unpack_ss. rewrite len_app, N.eqb_refl.
  unfold len. by rewrite Nat2N.id, take_app_length, drop_app_length.
Qed.

Lemma unpack_ss_length n m (packed a b : bytes) :
  struct_HH.unpack_ss n m packed = Ok (a, b) ->
  (length a + length b = length packed)%nat.
Proof.
  unfold struct_HH.unpack_ss. destruct (_ =? _); [|done].
  intros [= <- <-]. rewrite <- length_app. by rewrite take_drop.
Qed.

Lemma unpack_HH_rest_length packed n m rest :
  struct_HH.unpack_HH_rest packed = Ok (n, m, rest) ->
  length packed = (4 + length rest)%nat.
Proof.
  destruct packed as [|? [|? [|? [|? ?]]]]; try done. by intros [= _ _ <-].
Qed.

Lemma partition_length sep (b before after : bytes) :
  partition sep b = (before, after) -> (length after <= length b)%nat.
Proof.
  revert before after. induction b as [|x b IH]; intros before after;
    cbn [partition].
  - by intros [= <- <-].
  - destruct (Byte.eqb x sep).
    + intros [= <- <-]. cbn [length]. lia.
    + destruct (partition sep b) as [b1 b2]. intros [= <- <-].
      specialize (IH _ _ eq_refl). cbn [length]. lia.
Qed.

Lemma split1_sep sep b rest :
  Forall (fun x => x <> sep) b -> split1 sep (b ++ sep :: rest) = Ok (b, rest).
Proof.
  intros Hb. unfold split1. rewrite bool_decide_true.
  - by rewrite partition_sep.
  - apply elem_of_app. right. by left.
Qed.

Lemma entry_part_inv name packed out :
  entry_part name packed = Ok out ->
  exists raw key body,
    utf8.encode name = Ok raw /\ utf8.encode (hex raw) = Ok key
    /\ Forall (fun x => x <> "_"%byte) key
    /\ packed = Ok body /\ out = key ++ "_"%byte :: body.
Proof.
  unfold entry_part.
  destruct (utf8.encode name) as [raw|] eqn:En; [|done].
  destruct (utf8_encode_ascii _ (hex_ascii raw)) as (key & Ek & Hsep).
  rewrite Ek. destruct packed as [body|]; [|done].
  intros [= <-]. by exists raw, key, body.
Qed.

(** The part of an instance: the hexadecimal name of its class, twice as
    long as the name, the separator and what the instance packs to. *)
Lemma entry_part_name o body :
  exists key,
    entry_part (test_class_name o) (Ok body) = Ok (key ++ "_"%byte :: body)
    /\ len key = 2 * len (test_class_name o).
Proof. destruct o; eexists; split; reflexivity. Qed.

Lemma test_eq_refl o : test_eq o o = true /\ test_eq_flip o o = true.
Proof.
  induction o as [w|key [IHk IHk'] value [IHv IHv']]; cbn [test_eq test_eq_flip].
  - by rewrite !bool_decide_true.
  - by rewrite IHk, IHk', IHv, IHv'.
Qed.

Section SuiteFacts.
Context {decimal_text : DecimalText}.
Context (globals : gmap pystr (handler test_obj)).
Context (test_globals : gmap pystr test_class).
Implicit Types (inject : gmap pystr test_class) (o : test_obj).

Lemma class_name_lookup inject o :
  (inject ∪ test_globals) !! lit "StrWrapper" = Some StrWrapper_cls ->
  (inject ∪ test_globals) !! lit "PackableMapEntry" = Some PackableMapEntry_cls ->
  (inject ∪ test_globals) !! test_class_name o = Some (class_of o).
Proof. by destruct o. Qed.

(** What [o.pack()] returns is unpacked by the class of [o] to [o]. *)
Lemma class_unpack_pack inject :
  (inject ∪ test_globals) !! lit "StrWrapper" = Some StrWrapper_cls ->
  (inject ∪ test_globals) !! lit "PackableMapEntry" = Some PackableMapEntry_cls ->
  forall o packed fuel,
    test_pack o = Ok packed -> (length packed < fuel)%nat ->
    class_unpack test_globals fuel (class_of o) packed inject = Ok o.
Proof.
  intros Hw He. induction o as [[s]|key IHkey value IHvalue];
    intros packed fuel Hpack Hfuel.
  - cbn [test_pack data] in Hpack. destruct fuel; [lia|].
    cbn [class_of class_unpack]. by rewrite (utf8_decode_encode _ _ Hpack).
  - cbn [test_pack] in Hpack.
    destruct (entry_part _ (test_pack key)) as [kpart|] eqn:Ek; [|done].
    destruct (entry_part _ (test_pack value)) as [vpart|] eqn:Ev; [|done].
    apply pack_HHss_inv in Hpack as (Hlk & Hlv & ->).
    apply entry_part_inv in Ek
      as (kraw & khex & kbody & Ekn & Ekh & Hksep & Ekb & ->).
    apply entry_part_inv in Ev
      as (vraw & vhex & vbody & Evn & Evh & Hvsep & Evb & ->).
    destruct fuel as [|fuel]; [lia|].
    cbn [class_of class_unpack].
    rewrite unpack_HH_rest_be16, unpack_ss_app by done.
    unfold be16 in Hfuel. rewrite !length_app in Hfuel. cbn [length] in Hfuel.
    rewrite !split1_sep by done.
    rewrite (utf8_decode_encode _ _ Ekh), fromhex_hex, (utf8_decode_encode _ _ Ekn).
    rewrite (class_name_lookup inject key Hw He).
    rewrite (IHkey kbody fuel Ekb) by lia.
    rewrite (utf8_decode_encode _ _ Evh), fromhex_hex, (utf8_decode_encode _ _ Evn).
    rewrite (class_name_lookup inject value Hw He).
    by rewrite (IHvalue vbody fuel Evb) by lia.
Qed.

(** One unit of fuel per byte is never used up. *)
Lemma class_unpack_enough inject :
  (forall name cls_unpack packed,
     (inject ∪ test_globals) !! name = Some (other_object (Some cls_unpack)) ->
     cls_unpack packed <> Err OutOfFuel) ->
  forall fuel cls packed,
    (length packed < fuel)%nat ->
    (forall cls_unpack packed,
       cls = other_object (Some cls_unpack) -> cls_unpack packed <> Err OutOfFuel) ->
    class_unpack test_globals fuel cls packed inject <> Err OutOfFuel.
Proof.
  intros Hother. induction fuel as [|fuel IH]; intros cls packed Hfuel Hcls;
    [lia|].
  destruct cls as [| |[cls_unpack|]]; cbn [class_unpack].
  - destruct (utf8.decode packed) eqn:E; [done|].
    intros [= ->]. by apply utf8_decode_error in E.
  - destruct (struct_HH.unpack_HH_rest packed) as [[[key_len value_len] rest]|]
      eqn:E1.
    2: { destruct packed as [|? [|? [|? [|? ?]]]]; try done;
           injection E1 as <-; done. }
    apply unpack_HH_rest_length in E1.
    destruct (struct_HH.unpack_ss _ _ rest) as [[key_data value_data]|] eqn:E2.
    2: { revert E2. unfold struct_HH.unpack_ss. destruct (_ =? _); [done|].
         by intros [= <-]. }
    apply unpack_ss_length in E2.
    assert (forall part_data,
              (length part_data <= length rest)%nat ->
              (parts <- split1 "_" part_data ;;
               let '(part_class, part_data) := parts in
               part_class <- utf8.decode part_class ;;
               part_class <- fromhex part_class ;;
               part_class <- utf8.decode part_class ;;
               match (inject ∪ test_globals) !! part_class with
               | None => Err KeyError
               | Some cls => class_unpack test_globals fuel cls part_data inject
               end) <> Err OutOfFuel) as Hpart.
    { intros part_data Hlen. unfold split1.
      destruct (bool_decide _); [|done].
      destruct (partition _ part_data) as [part_class part_body] eqn:Ep.
      apply partition_length in Ep.
      destruct (utf8.decode part_class) as [s|] eqn:E3;
        [|by intros [= ->]; apply utf8_decode_error in E3].
      destruct (fromhex s) as [raw|] eqn:E4;
        [|by intros [= ->]; apply fromhex_error in E4].
      destruct (utf8.decode raw) as [name|] eqn:E5;
        [|by intros [= ->]; apply utf8_decode_error in E5].
      destruct ((inject ∪ test_globals) !! name) as [cls|] eqn:E6; [|done].
      apply IH; [lia|]. intros cls_unpack packed' ->. by eapply Hother. }
    pose proof (Hpart key_data) as Hk. pose proof (Hpart value_data) as Hv.
    cbv zeta.
    match type of Hk with
    | _ -> ?r <> _ => destruct r as [key|e0] eqn:Ekey
    end.
    2: { intros [= ->]. apply Hk; [lia|done]. }
    match type of Hv with
    | _ -> ?r <> _ => destruct r as [value|e0] eqn:Evalue
    end; [done|].
    intros [= ->]. apply Hv; [lia|done].
  - by eapply Hcls.
  - done.
Qed.

(** An instance is restorable through the registry built from an
    [inject] that holds its class, when the classes of its parts are found
    in [inject] or in the globals of the test module. *)
Lemma test_obj_restorable inject o :
  inject !! test_class_name o = Some (class_of o) ->
  (inject ∪ test_globals) !! lit "StrWrapper" = Some StrWrapper_cls ->
  (inject ∪ test_globals) !! lit "PackableMapEntry" = Some PackableMapEntry_cls ->
  restorable (registry_of test_globals inject) (VPackable o).
Proof.
  intros Ho Hw He. cbn [restorable]. split; [apply test_eq_refl|].
  exists (handler_of test_globals inject (class_of o)).
  exists (fun packed =>
            class_unpack test_globals (S (length packed)) (class_of o) packed inject).
  split; [|split].
  - unfold registry_of. cbn [class_name test_packable].
    by rewrite lookup_fmap, Ho.
  - by destruct o.
  - intros body Hbody. apply class_unpack_pack; try done. lia.
Qed.

(** X20.  [PackableMapEntry.unpack(entry.pack(), inject=inject)] is the
    entry, whatever the nesting of entries in its key and its value, and
    [StrWrapper.unpack(w.pack())] is [w]: it is enough that the two class
    names are found in [inject] or else in the globals of the test
    module. *)
Theorem PackableMapEntry_unpack_pack inject o packed :
  (inject ∪ test_globals) !! lit "StrWrapper" = Some StrWrapper_cls ->
  (inject ∪ test_globals) !! lit "PackableMapEntry" = Some PackableMapEntry_cls ->
  test_pack o = Ok packed ->
  forall fuel, (length packed < fuel)%nat ->
    class_unpack test_globals fuel (class_of o) packed inject = Ok o.
Proof. intros Hw He Hp fuel. by apply class_unpack_pack. Qed.

(** X21.  The two parts of an entry are announced on 16 bits each: an
    entry is packed when both parts (the hexadecimal class name, the
    separator and the packed key or value) are shorter than 65536 bytes,
    and is a [struct.error] otherwise, for its own [pack] and for the
    [pack] of the codec. *)
Theorem PackableMapEntry_pack_limit key value kbody vbody :
  test_pack key = Ok kbody -> test_pack value = Ok vbody ->
  let klen := 2 * len (test_class_name key) + 1 + len kbody in
  let vlen := 2 * len (test_class_name value) + 1 + len vbody in
  (klen < 2^16 /\ vlen < 2^16 ->
   exists packed, test_pack (PackableMapEntry key value) = Ok packed
                  /\ len packed = 4 + klen + vlen)
  /\ (2^16 <= klen \/ 2^16 <= vlen ->
      test_pack (PackableMapEntry key value) = Err StructError
      /\ pack (VPackable (PackableMapEntry key value)) = Err StructError).
Proof.
  intros Hk Hv klen vlen.
  destruct (entry_part_name key kbody) as (khex & Ek & Hkl).
  destruct (entry_part_name value vbody) as (vhex & Ev & Hvl).
  assert (len (khex ++ "_"%byte :: kbody) = klen) as Hklen.
  { rewrite len_app, len_cons. unfold klen. lia. }
  assert (len (vhex ++ "_"%byte :: vbody) = vlen) as Hvlen.
  { rewrite len_app, len_cons. unfold vlen. lia. }
  assert (test_pack (PackableMapEntry key value)
          = struct_HH.pack_HHss (khex ++ "_"%byte :: kbody)
              (vhex ++ "_"%byte :: vbody)) as E.
  { cbn [test_pack]. by rewrite Hk, Hv, Ek, Ev. }
  split.
  - intros [Hlk Hlv]. eexists. split.
    + rewrite E. unfold struct_HH.pack_HHss, struct_HH.pack_H.
      rewrite Hklen, Hvlen.
      destruct (N.ltb_spec klen (2^16)); [|lia].
      destruct (N.ltb_spec vlen (2^16)); [|lia]. reflexivity.
    + unfold be16, klen, vlen. rewrite !len_app, !len_cons.
      change (len (@nil byte)) with 0. lia.
  - intros Hbig.
    assert (test_pack (PackableMapEntry key value) = Err StructError) as E'.
    { rewrite E. unfold struct_HH.pack_HHss, struct_HH.pack_H.
      rewrite Hklen, Hvlen.
      destruct (N.ltb_spec klen (2^16)), (N.ltb_spec vlen (2^16));
        try done; lia. }
    split; [done|].
    cbn [pack is_serializable tressa class_name obj_pack test_packable].
    change (test_class_name (PackableMapEntry key value))
      with (lit "PackableMapEntry").
    by rewrite E'.
Qed.

(** X22.  What [PackableMapEntry.unpack] raises on bytes that are no
    entry: a [struct.error] when the two length fields are cut short or do
    not add up to the bytes that follow, a [ValueError] when the key part
    has no separator, a [KeyError] when the class named in the key part is
    neither in [inject] nor in the globals of the test module, and an
    [AttributeError] when what is found there has no [unpack]. *)
Theorem PackableMapEntry_unpack_errors inject fuel :
  (forall packed,
     (length packed < 4)%nat ->
     class_unpack test_globals (S fuel) PackableMapEntry_cls packed inject
     = Err StructError)
  /\ (forall n m rest,
        n < 2^16 -> m < 2^16 -> len rest <> n + m ->
        class_unpack test_globals (S fuel) PackableMapEntry_cls
          (be16 n ++ be16 m ++ rest) inject
        = Err StructError)
  /\ (forall kpart vpart,
        len kpart < 2^16 -> len vpart < 2^16 -> "_"%byte ∉ kpart ->
        class_unpack test_globals (S fuel) PackableMapEntry_cls
          (be16 (len kpart) ++ be16 (len vpart) ++ kpart ++ vpart) inject
        = Err ValueError)
  /\ (forall name raw khex kbody vpart,
        utf8.encode name = Ok raw -> utf8.encode (hex raw) = Ok khex ->
        len (khex ++ "_"%byte :: kbody) < 2^16 -> len vpart < 2^16 ->
        let packed := be16 (len (khex ++ "_"%byte :: kbody)) ++ be16 (len vpart)
                        ++ (khex ++ "_"%byte :: kbody) ++ vpart in
        ((inject ∪ test_globals) !! name = None ->
         class_unpack test_globals (S fuel) PackableMapEntry_cls packed inject
         = Err KeyError)
        /\ ((inject ∪ test_globals) !! name = Some (other_object None) ->
            class_unpack test_globals (S fuel) PackableMapEntry_cls packed inject
            = Err (Raised (lit "AttributeError")))).
Proof.
  split; [|split; [|split]].
  - intros packed Hlen. destruct packed as [|? [|? [|? [|? ?]]]]; try done.
    cbn [length] in Hlen. lia.
  - intros n m rest Hn Hm Hrest. cbn [class_unpack].
    rewrite unpack_HH_rest_be16 by done. unfold struct_HH.unpack_ss.
    by destruct (N.eqb_spec (len rest) (n + m)).
  - intros kpart vpart Hk Hv Hsep. cbn [class_unpack].
    rewrite unpack_HH_rest_be16, unpack_ss_app by done.
    unfold split1. by rewrite bool_decide_false.
  - intros name raw khex kbody vpart En Eh Hk Hv packed.
    assert (Forall (fun x => x <> "_"%byte) khex) as Hsep.
    { destruct (utf8_encode_ascii _ (hex_ascii raw)) as (k' & Ek' & Hs).
      rewrite Eh in Ek'. by injection Ek' as <-. }
    assert (forall r,
              match (inject ∪ test_globals) !! name with
              | None => Err KeyError
              | Some cls => class_unpack test_globals fuel cls kbody inject
              end = Err r ->
              class_unpack test_globals (S fuel) PackableMapEntry_cls packed inject
              = Err r) as H.
    { intros r Hr. unfold packed. cbn [class_unpack].
      rewrite unpack_HH_rest_be16, unpack_ss_app by done.
      rewrite split1_sep by done.
      rewrite (utf8_decode_encode _ _ Eh), fromhex_hex, (utf8_decode_encode _ _ En).
      by rewrite Hr. }
    split; intros Hl; apply H; rewrite Hl; [done|].
    by destruct fuel.
Qed.

Lemma Forall_decimals_items (l : list (value test_obj)) (P : decimal -> Prop) :
  Forall P (flat_map decimals l) <-> Forall (fun x => Forall P (decimals x)) l.
Proof.
  induction l as [|x l IH]; cbn [flat_map].
  - split; constructor.
  - rewrite Forall_app, Forall_cons, IH. done.
Qed.

Lemma test_value_restorable inject (v : value test_obj) :
  inject !! lit "StrWrapper" = Some StrWrapper_cls ->
  inject !! lit "PackableMapEntry" = Some PackableMapEntry_cls ->
  Forall (fun d => Decimal_new (Decimal_str d) = Ok d) (decimals v) ->
  restorable (registry_of test_globals inject) v.
Proof.
  intros Hw He.
  assert (forall l : list (value test_obj),
            Forall (fun x => Forall (fun d => Decimal_new (Decimal_str d) = Ok d)
                               (decimals x)
                             -> restorable (registry_of test_globals inject) x) l ->
            Forall (fun d => Decimal_new (Decimal_str d) = Ok d)
              (flat_map decimals l) ->
            Forall (restorable (registry_of test_globals inject)) l) as Hitems.
  { intros l IH Hd. apply Forall_decimals_items in Hd.
    induction IH as [|x l Hx _ IHl]; [constructor|].
    apply Forall_cons in Hd as [??]. constructor; auto. }
  induction v as [o|items IH|items IH|items IH|b|b|s|n|b|x|d|entries IH| |ty]
    using value_induction; intros Hd; try done.
  - apply test_obj_restorable.
    + by destruct o.
    + by apply lookup_union_Some_l.
    + by apply lookup_union_Some_l.
  - apply restorable_list. by apply Hitems.
  - change (restorable (registry_of test_globals inject) (VList items)).
    apply restorable_list. by apply Hitems.
  - change (restorable (registry_of test_globals inject) (VList items)).
    apply restorable_list. by apply Hitems.
  - cbn [decimals] in Hd. by inversion Hd.
  - apply restorable_entries. cbn [decimals] in Hd.
    induction IH as [|[k x] l [Hk Hx] _ IHl]; [constructor|].
    cbn [flat_map] in Hd. apply Forall_app in Hd as [[??]%Forall_app ?].
    constructor; [split; auto|auto].
Qed.

(** X23.  The round trip that the tests assert: with both classes in
    [inject], every value over the two classes that [pack] encodes, well
    formed and without NaN, whose Decimals are read back from their
    strings, is decoded by [unpack] to a value equal to it. *)
Theorem test_suite_roundtrip inject (v : value test_obj) frame :
  inject !! lit "StrWrapper" = Some StrWrapper_cls ->
  inject !! lit "PackableMapEntry" = Some PackableMapEntry_cls ->
  Forall (fun d => Decimal_new (Decimal_str d) = Ok d) (decimals v) ->
  pack v = Ok frame ->
  well_formed v = true -> nan_free v = true ->
  exists v',
    unpack globals frame (registry_of test_globals inject) = Ok v'
    /\ py_eq v' v = true.
Proof.
  intros Hw He Hd Hpack Hwf Hnan.
  pose proof (test_value_restorable inject v Hw He Hd) as Hre.
  destruct (pack_reads_back globals _ v Hwf Hre frame Hpack (S (length frame)))
    as (v' & Hv' & Hs); [lia|].
  exists v'. split; [done|].
  apply (same_py_eq (registry_of test_globals inject) v); try done.
  by eapply pack_serializable.
Qed.

End SuiteFacts.

(** ** The further properties on concrete inputs *)

Section MoreExamples.
Import examples vectors.

Lemma wrapper_restorable : restorable inject (VPackable wrapper).
Proof.
  split; [reflexivity|]. exists StrWrapper_class. eexists.
  split; [reflexivity|]. split; [reflexivity|].
  intros body [= <-]. reflexivity.
Qed.

Lemma ascii_decimal_total s : Decimal_new s <> Err OutOfFuel.
Proof. intros H. by apply of_str_error in H. Qed.

Lemma inject_handlers_total name cls cls_unpack body :
  (inject ∪ (∅ : registry)) !! name = Some cls ->
  h_unpack cls = Some cls_unpack ->
  cls_unpack body <> Err OutOfFuel.
Proof.
  rewrite (right_id_L ∅ (∪)). unfold inject.
  intros [_ <-]%lookup_singleton_Some [= <-].
  destruct (utf8.decode body) eqn:E; [done|].
  intros [= ->]. by apply utf8_decode_error in E.
Qed.

Lemma pack_unpack_exact_witness :
  pack ordered_value = Ok ordered_frame
  /\ ordered ordered_value = true
  /\ restorable inject ordered_value
  /\ unpack ∅ ordered_frame inject = Ok ordered_value.
Proof.
  assert (restorable inject ordered_value) as Hre.
  { cbn [restorable ordered_value].
    repeat split; exact (proj1 wrapper_restorable)
      || exact (proj2 wrapper_restorable) || exact I. }
  assert (pack ordered_value = Ok ordered_frame) as Hp
    by (vm_compute; reflexivity).
  assert (ordered ordered_value = true) as Ho by reflexivity.
  split; [exact Hp|]. split; [exact Ho|]. split; [exact Hre|].
  exact (pack_unpack_exact ∅ inject ordered_value ordered_frame Hp Ho Hre).
Defined.

(** [1 == True], and the encodings of [1] and [True] differ. *)
Lemma pack_injective_witness :
  py_eq (VInt 1 : val) (VBool true) = true
  /\ pack (VInt 1 : val) = Ok int_1_frame
  /\ pack (VBool true : val) = Ok bool_true_frame
  /\ int_1_frame <> bool_true_frame.
Proof.
  split; [reflexivity|]. split; [reflexivity|]. split; [reflexivity|].
  refine (pack_injective ∅ inject (VInt 1) (VBool true) int_1_frame
            bool_true_frame eq_refl eq_refl eq_refl eq_refl I I _).
  discriminate.
Defined.

Lemma unpack_pack_stable_witness :
  pack dict_value = Ok dict_value_frame
  /\ set_free dict_value = true
  /\ well_formed dict_value = true
  /\ restorable inject dict_value
  /\ exists v', unpack ∅ dict_value_frame inject = Ok v'
                /\ pack v' = Ok dict_value_frame.
Proof.
  assert (restorable inject dict_value) as Hre.
  { cbn [restorable dict_value].
    repeat split; exact (proj1 wrapper_restorable)
      || exact (proj2 wrapper_restorable) || exact I. }
  assert (pack dict_value = Ok dict_value_frame) as Hp
    by (vm_compute; reflexivity).
  assert (set_free dict_value = true) as Hs by reflexivity.
  assert (well_formed dict_value = true) as Hwf by (vm_compute; reflexivity).
  split; [exact Hp|]. split; [exact Hs|]. split; [exact Hwf|].
  split; [exact Hre|].
  exact (unpack_pack_stable ∅ inject dict_value dict_value_frame Hp Hs Hwf Hre).
Defined.

Lemma pack_prefix_free_witness :
  pack (VStr (lit "ab") : val) = Ok str_ab_frame
  /\ pack (VStr (lit "ab") : val) = Ok (str_ab_frame ++ [])
  /\ @nil byte = [].
Proof.
  split; [reflexivity|]. split; [reflexivity|].
  exact (pack_prefix_free (VStr (lit "ab") : val) (VStr (lit "ab"))
           str_ab_frame [] eq_refl eq_refl).
Defined.

Lemma pack_int_range_witness :
  pack (VInt 1 : val) = Ok int_1_frame
  /\ unpack ∅ int_1_frame inject = Ok (VInt 1).
Proof.
  split; [reflexivity|].
  exact (proj2 (pack_int_range ∅ inject 1) int_1_frame eq_refl).
Defined.

Lemma pack_length_limit_witness :
  traverse pack [VInt 1 : val] = Ok [int_1_frame]
  /\ pack (VList [VInt 1] : val)
     = Ok ("l"%byte :: be32 9 ++ int_1_frame).
Proof.
  split; [reflexivity|].
  exact (proj2 (proj2 (pack_length_limit [] [VInt 1 : val] [int_1_frame]))
           eq_refl).
Defined.

(** A lone surrogate, ['\ud800']. *)
Lemma pack_str_encode_error_witness :
  pack (VStr [55296] : val) = Err UnicodeEncodeError.
Proof.
  refine (proj2 (pack_str_encode_error (Obj := StrWrapper) [55296]) _).
  left. reflexivity.
Defined.

Lemma pack_errors_witness :
  (depth (VInt (-1) : val) <= 1)%nat
  /\ pack_limited 1 (VInt (-1) : val) = Err StructError
  /\ pack (VInt (-1) : val) = Err StructError
  /\ (StructError = OutOfFuel \/ pack_raises (Obj := StrWrapper) StructError)
  /\ pack_limited 2 (VList [VList [VInt 1]] : val) = Err OutOfFuel
  /\ pack_limited 3 (VList [VList [VInt 1]] : val)
     = pack (VList [VList [VInt 1]] : val).
Proof.
  assert (depth (VInt (-1) : val) <= 1)%nat as Hd by (cbn; lia).
  split; [exact Hd|]. split; [reflexivity|].
  split; [exact (eq_trans
                   (eq_sym (proj1 (proj2 (pack_errors 1 (VInt (-1) : val)
                                            StructError)) Hd))
                   eq_refl)|].
  split; [exact (proj2 (proj2 (pack_errors 1 (VInt (-1) : val) StructError))
                   eq_refl)|].
  split; [reflexivity|].
  apply (proj1 (proj2 (pack_errors 3 (VList [VList [VInt 1]] : val)
                         StructError))).
  cbn. lia.
Defined.

Lemma unpack_ignores_suffix_witness :
  pack (VStr (lit "ab") : val) = Ok str_ab_frame
  /\ unpack ∅ (str_ab_frame ++ [xff]) inject = unpack ∅ str_ab_frame inject
  /\ pack (VBool true : val) = Ok bool_true_frame
  /\ unpack ∅ (bool_true_frame ++ [xff]) inject = Err StructError.
Proof.
  split; [reflexivity|]. split; [|split; [reflexivity|]].
  - refine (proj1 (unpack_ignores_suffix ∅ inject (VStr (lit "ab"))
                     str_ab_frame [xff] eq_refl) _).
    intros b H. discriminate H.
  - refine (proj2 (unpack_ignores_suffix ∅ inject (VBool true)
                     bool_true_frame [xff] eq_refl) _ _).
    + by exists true.
    + discriminate.
Defined.

Lemma unpack_length_field_unchecked_witness :
  unpack ∅ ("i"%byte :: [xff; xff; xff; xff] ++ be32 7 ++ [x00]) inject
  = Ok (VInt 7).
Proof.
  exact (proj1 (unpack_length_field_unchecked ∅ inject xff xff xff xff)
           7 [x00] eq_refl).
Defined.

Lemma unpack_truncated_witness :
  unpack ∅ ["s"; x00; x00; x00; x05; "a"]%byte inject = Err StructError.
Proof.
  refine (proj1 (proj2 (proj2 (unpack_truncated ∅ inject)))
            "s"%byte 5 ["a"%byte] _ eq_refl eq_refl).
  repeat first [by left|right].
Defined.

Lemma unpack_first_bad_item_witness :
  framed "l" (concat [int_1_frame] ++ wrapper_frame ++ int_1_frame)
    list_with_wrapper_frame
  /\ unpack (∅ : registry) int_1_frame ∅ = Ok (VInt 1)
  /\ unpack (∅ : registry) wrapper_frame ∅
     = Err (UsageError (not_found (lit "StrWrapper")))
  /\ unpack (∅ : registry) list_with_wrapper_frame ∅
     = Err (UsageError (not_found (lit "StrWrapper"))).
Proof.
  assert (framed "i" (drop 5 int_1_frame) int_1_frame) as F1
    by (split; reflexivity).
  assert (framed "p" (drop 5 wrapper_frame) wrapper_frame) as Fw
    by (split; reflexivity).
  assert (framed "l" (concat [int_1_frame] ++ wrapper_frame ++ int_1_frame)
            list_with_wrapper_frame) as F by (split; reflexivity).
  assert (unpack (∅ : registry) wrapper_frame ∅
          = Err (UsageError (not_found (lit "StrWrapper")))) as Hw
    by (vm_compute; reflexivity).
  split; [exact F|]. split; [reflexivity|]. split; [exact Hw|].
  refine (unpack_first_bad_item (∅ : registry) ∅ "l" [int_1_frame] [VInt 1]
            wrapper_frame "p" (drop 5 wrapper_frame) int_1_frame
            list_with_wrapper_frame _ _ _ Fw Hw F).
  - repeat first [by left|right].
  - constructor; [|constructor]. split; [by eauto|reflexivity].
Defined.

Lemma unpack_container_junk_witness :
  framed "l" (concat [int_1_frame] ++ [x00]) list_with_junk_frame
  /\ unpack (∅ : registry) list_with_junk_frame ∅ = Err StructError.
Proof.
  assert (framed "i" (drop 5 int_1_frame) int_1_frame) as F1
    by (split; reflexivity).
  assert (framed "l" (concat [int_1_frame] ++ [x00]) list_with_junk_frame)
    as F by (split; reflexivity).
  split; [exact F|].
  refine (proj1 (unpack_container_junk (∅ : registry) ∅ "l" [int_1_frame]
                   [VInt 1] list_with_junk_frame _ _) [x00] _ _ F).
  - repeat first [by left|right].
  - constructor; [|constructor]. split; [by eauto|reflexivity].
  - discriminate.
  - cbn [length]. lia.
Defined.

(** A set frame that holds the frame of [[]]. *)
Lemma unpack_unhashable_witness :
  framed "e" (concat [empty_list_frame]) set_of_list_frame
  /\ unpack (∅ : registry) empty_list_frame ∅ = Ok (VList [])
  /\ unpack (∅ : registry) set_of_list_frame ∅ = Err TypeError.
Proof.
  assert (framed "l" [] empty_list_frame) as F1 by (split; reflexivity).
  assert (framed "e" (concat [empty_list_frame]) set_of_list_frame) as F
    by (split; reflexivity).
  split; [exact F|]. split; [reflexivity|].
  refine (proj1 (unpack_unhashable (∅ : registry) ∅ [empty_list_frame]
                   [VList []] set_of_list_frame _) F _).
  - constructor; [|constructor]. split; [by eauto|reflexivity].
  - left. reflexivity.
Defined.

(** A set frame with the frames of [1] and [True] decodes to [{1}]. *)
Lemma unpack_set_merges_equal_witness :
  framed "e" (int_1_frame ++ bool_true_frame) set_1_true_frame
  /\ unpack (∅ : registry) int_1_frame ∅ = Ok (VInt 1)
  /\ unpack (∅ : registry) bool_true_frame ∅ = Ok (VBool true)
  /\ py_eq (VInt 1 : val) (VBool true) = true
  /\ unpack (∅ : registry) set_1_true_frame ∅ = Ok (VSet [VInt 1]).
Proof.
  assert (framed "i" (drop 5 int_1_frame) int_1_frame) as F1
    by (split; reflexivity).
  assert (framed "B" (drop 5 bool_true_frame) bool_true_frame) as F2
    by (split; reflexivity).
  assert (framed "e" (int_1_frame ++ bool_true_frame) set_1_true_frame) as F
    by (split; reflexivity).
  split; [exact F|]. split; [reflexivity|]. split; [reflexivity|].
  split; [reflexivity|].
  exact (proj1 (unpack_set_merges_equal (∅ : registry) ∅ int_1_frame
                  bool_true_frame _ _ _ _ (VInt 1) (VBool true)
                  set_1_true_frame F1 F2 eq_refl eq_refl eq_refl eq_refl F)
           eq_refl).
Defined.

(** A dict frame whose only item is [(1, 2, 3)] decodes to [{1: 2}]. *)
Lemma unpack_dict_item_shapes_witness :
  framed "t" (drop 5 triple_frame) triple_frame
  /\ unpack (∅ : registry) triple_frame ∅ = Ok (VTuple [VInt 1; VInt 2; VInt 3])
  /\ framed "d" triple_frame dict_of_triple_frame
  /\ unpack (∅ : registry) dict_of_triple_frame ∅ = Ok (VDict [(VInt 1, VInt 2)]).
Proof.
  assert (framed "t" (drop 5 triple_frame) triple_frame) as Ft
    by (split; reflexivity).
  assert (framed "d" triple_frame dict_of_triple_frame) as Fd
    by (split; reflexivity).
  assert (unpack (∅ : registry) triple_frame ∅
          = Ok (VTuple [VInt 1; VInt 2; VInt 3])) as Hv by reflexivity.
  split; [exact Ft|]. split; [exact Hv|]. split; [exact Fd|].
  exact (proj1 (unpack_dict_item_shapes (∅ : registry) ∅ triple_frame "t"
                  (drop 5 triple_frame) _ dict_of_triple_frame Ft Hv Fd)
           (VInt 1) (VInt 2) [VInt 3] (or_introl eq_refl) eq_refl).
Defined.

Lemma unpack_pack_leaf_witness :
  framed "s" ["a"; "b"]%byte str_ab_frame
  /\ unpack ∅ str_ab_frame inject = Ok (VStr (lit "ab"))
  /\ pack (VStr (lit "ab") : val) = Ok str_ab_frame.
Proof.
  assert (framed "s" ["a"; "b"]%byte str_ab_frame) as F by (split; reflexivity).
  split; [exact F|]. split; [reflexivity|].
  refine (proj1 (unpack_pack_leaf ∅ inject "s" ["a"; "b"]%byte str_ab_frame _ F)
            (VStr (lit "ab")) eq_refl).
  repeat first [by left|right].
Defined.

Lemma unpack_errors_witness :
  unpack_fuel (∅ : registry) 1 [] ∅ = Err StructError
  /\ (StructError = OutOfFuel \/ unpack_raises (∅ : registry) ∅ StructError)
  /\ (length short_list_frame < 100)%nat
  /\ unpack_fuel ∅ 100 short_list_frame (∅ : registry)
     = unpack ∅ short_list_frame ∅
  /\ unpack_fuel ∅ 1 short_list_frame (∅ : registry) = Err OutOfFuel.
Proof.
  split; [reflexivity|].
  split; [exact (proj2 (proj2 (unpack_errors (∅ : registry) ∅ 1 [] StructError))
                   eq_refl)|].
  assert (length short_list_frame < 100)%nat as Hl by (vm_compute; lia).
  split; [exact Hl|].
  split; [|vm_compute; reflexivity].
  exact (proj1 (proj2 (unpack_errors (∅ : registry) ∅ 100 short_list_frame
                         StructError)) Hl).
Defined.

Lemma unpack_terminates_witness :
  (length nested_frame < 1000)%nat
  /\ unpack ∅ nested_frame inject <> Err OutOfFuel
  /\ unpack_fuel ∅ 1000 nested_frame inject = unpack ∅ nested_frame inject.
Proof.
  assert (length nested_frame < 1000)%nat as Hlen by (vm_compute; lia).
  pose proof (unpack_terminates ∅ inject nested_frame ascii_decimal_total
                inject_handlers_total) as [Hend Hfuel].
  split; [exact Hlen|]. split; [exact Hend|]. exact (Hfuel 1000%nat Hlen).
Defined.

(** [inject={"PackableMapEntry": PackableMapEntry}]: [StrWrapper] is
    found in the globals of the test module. *)
Lemma PackableMapEntry_unpack_pack_witness :
  (entry_inject ∪ suite_classes) !! lit "StrWrapper" = Some StrWrapper_cls
  /\ (entry_inject ∪ suite_classes) !! lit "PackableMapEntry"
     = Some PackableMapEntry_cls
  /\ test_pack entry = Ok entry_packed
  /\ class_unpack suite_classes (S (length entry_packed)) PackableMapEntry_cls
       entry_packed entry_inject
     = Ok entry.
Proof.
  assert ((entry_inject ∪ suite_classes) !! lit "StrWrapper"
          = Some StrWrapper_cls) as Hw by (vm_compute; reflexivity).
  assert ((entry_inject ∪ suite_classes) !! lit "PackableMapEntry"
          = Some PackableMapEntry_cls) as He by (vm_compute; reflexivity).
  assert (test_pack entry = Ok entry_packed) as Hp by (vm_compute; reflexivity).
  split; [exact Hw|]. split; [exact He|]. split; [exact Hp|].
  exact (PackableMapEntry_unpack_pack suite_classes entry_inject entry
           entry_packed Hw He Hp (S (length entry_packed))
           (Nat.lt_succ_diag_r _)).
Defined.

Lemma PackableMapEntry_pack_limit_witness :
  test_pack some_key = Ok some_key_packed
  /\ test_pack some_value = Ok some_value_packed
  /\ exists packed, test_pack entry = Ok packed
                    /\ len packed = 4 + (2 * 10 + 1 + 8) + (2 * 10 + 1 + 10).
Proof.
  split; [reflexivity|]. split; [reflexivity|].
  exact (proj1 (PackableMapEntry_pack_limit some_key some_value
                  some_key_packed some_value_packed eq_refl eq_refl)
           (conj eq_refl eq_refl)).
Defined.

Lemma PackableMapEntry_unpack_errors_witness :
  class_unpack suite_classes 1 PackableMapEntry_cls [x00] entry_inject
  = Err StructError.
Proof.
  refine (proj1 (PackableMapEntry_unpack_errors suite_classes entry_inject 0)
            [x00] _).
  cbn [length]. lia.
Defined.

Lemma test_suite_roundtrip_witness :
  pack suite_value = Ok suite_frame
  /\ well_formed suite_value = true
  /\ nan_free suite_value = true
  /\ Forall (fun d => Decimal_new (Decimal_str d) = Ok d) (decimals suite_value)
  /\ exists v',
       unpack ∅ suite_frame (registry_of ∅ suite_classes) = Ok v'
       /\ py_eq v' suite_value = true.
Proof.
  assert (suite_classes !! lit "StrWrapper" = Some StrWrapper_cls) as Hw
    by (vm_compute; reflexivity).
  assert (suite_classes !! lit "PackableMapEntry" = Some PackableMapEntry_cls)
    as He by (vm_compute; reflexivity).
  assert (Forall (fun d => Decimal_new (Decimal_str d) = Ok d)
            (decimals suite_value)) as Hd.
  { change (decimals suite_value) with [DecFinite false 123456 (-3)].
    constructor; [vm_compute; reflexivity|constructor]. }
  assert (pack suite_value = Ok suite_frame) as Hp by (vm_compute; reflexivity).
  assert (well_formed suite_value = true) as Hwf by (vm_compute; reflexivity).
  assert (nan_free suite_value = true) as Hnan by (vm_compute; reflexivity).
  split; [exact Hp|]. split; [exact Hwf|]. split; [exact Hnan|].
  split; [exact Hd|].
  exact (test_suite_roundtrip ∅ ∅ suite_classes suite_value suite_frame
           Hw He Hd Hp Hwf Hnan).
Defined.

End MoreExamples.
